(** * script.js: interactive behaviour of the landing page

    A shallow embedding of [script.js] (smooth scrolling, scroll-triggered
    reveals, button ripples, the two modal dialogs, the header shadow and
    the Escape key handler) over an explicit model of the browser state:
    the document tree, the timer queue, the animation-frame queue, the
    registered event listeners and the intersection observers.

    Functions of the script keep their names.  A function that can throw
    returns the state reached together with its completion, since the
    mutations made before a [TypeError] stay in the document. *)

From Stdlib Require Import ZArith QArith Qreduction Ascii String List Bool Lia.
From Stdlib Require Import Sorting.Sorted Sorting.Permutation.
From stdpp Require Import base option list strings gmap.

Local Open Scope string_scope.
Local Open Scope list_scope.
Local Open Scope Z_scope.

(** ** Numbers

    A JavaScript number is a binary64 float.  A finite one is represented by
    its exact value, a reduced fraction whose denominator is a power of two;
    every operation rounds the exact result to the nearest double, ties to
    even.  The sign of zero is not tracked: nothing in the script observes
    it. *)

Module F64.

Inductive float64 : Type :=
  | NaN
  | PInf
  | NInf
  | Fin (q : Q).

Definition two53 : Z := 2 ^ 53.

(** [mt * 2^k] as a reduced fraction. *)
Definition scale2 (mt k : Z) : Q :=
  if k <? 0 then Qred (Qmake mt (Z.to_pos (2 ^ (- k))))
  else Qmake (mt * 2 ^ k) 1.

(** Nearest double of [n / d] for [0 < n] and [0 < d]: 53 bits of
    precision, least exponent -1074, overflow to infinity from 2^1024. *)
Definition round_pos (n d : Z) : option Q :=
  let k := Z.max (Z.log2 n - Z.log2 d - 53) (-1074) in
  let n1 := if k <? 0 then n * 2 ^ (- k) else n in
  let d1 := if k <? 0 then d else d * 2 ^ k in
  let '(k, d1) := if two53 <=? n1 / d1 then (k + 1, 2 * d1) else (k, d1) in
  let qt := n1 / d1 in
  let r := n1 mod d1 in
  let mt := if (d1 <? 2 * r) || ((d1 =? 2 * r) && Z.odd qt) then qt + 1 else qt in
  if (0 <? mt) && (1024 <=? Z.log2 mt + k) then None else Some (scale2 mt k).

(** An integer below 2^53 in magnitude is a double as it stands. *)
Definition round (q : Q) : float64 :=
  let n := Qnum q in
  let d := Zpos (Qden q) in
  if (d =? 1) && (Z.abs n <? two53) then Fin q
  else match n with
       | Z0 => Fin 0
       | Zpos _ => match round_pos n d with Some r => Fin r | None => PInf end
       | Zneg _ => match round_pos (- n) d with Some r => Fin (Qopp r) | None => NInf end
       end.

Definition ofZ (z : Z) : float64 := round (Qmake z 1).

Definition fneg (x : float64) : float64 :=
  match x with
  | NaN => NaN
  | PInf => NInf
  | NInf => PInf
  | Fin q => Fin (Qopp q)
  end.

Definition fadd (x y : float64) : float64 :=
  match x, y with
  | NaN, _ | _, NaN => NaN
  | PInf, NInf | NInf, PInf => NaN
  | PInf, _ | _, PInf => PInf
  | NInf, _ | _, NInf => NInf
  | Fin a, Fin b => round (Qred (Qplus a b))
  end.

Definition fsub (x y : float64) : float64 := fadd x (fneg y).

Definition is_zero (q : Q) : bool := Qnum q =? 0.
Definition is_neg (q : Q) : bool := Qnum q <? 0.

Definition fmul (x y : float64) : float64 :=
  match x, y with
  | NaN, _ | _, NaN => NaN
  | Fin a, Fin b => round (Qred (Qmult a b))
  | Fin a, PInf | PInf, Fin a =>
      if is_zero a then NaN else if is_neg a then NInf else PInf
  | Fin a, NInf | NInf, Fin a =>
      if is_zero a then NaN else if is_neg a then PInf else NInf
  | PInf, PInf | NInf, NInf => PInf
  | PInf, NInf | NInf, PInf => NInf
  end.

(** [x / 2]. *)
Definition fhalf (x : float64) : float64 :=
  match x with
  | Fin a => round (Qred (Qmult a (Qmake 1 2)))
  | _ => x
  end.

Definition Qltb (a b : Q) : bool :=
  Qnum a * Zpos (Qden b) <? Qnum b * Zpos (Qden a).

(** [x > y]; false as soon as one side is NaN. *)
Definition fgt (x y : float64) : bool :=
  match x, y with
  | NaN, _ | _, NaN => false
  | PInf, PInf => false
  | PInf, _ => true
  | _, PInf => false
  | NInf, _ => false
  | Fin _, NInf => true
  | Fin a, Fin b => Qltb b a
  end.

(** [Math.max(x, y)]. *)
Definition fmax (x y : float64) : float64 :=
  match x, y with
  | NaN, _ | _, NaN => NaN
  | _, _ => if fgt y x then y else x
  end.

(** Conversion to a 32-bit signed integer, as the argument of [setTimeout]
    is converted: NaN and the infinities give 0, a finite value is truncated
    towards zero and wraps around modulo 2^32. *)
Definition toInt32 (x : float64) : Z :=
  match x with
  | Fin q =>
      let t := Z.quot (Qnum q) (Zpos (Qden q)) in
      (t + 2 ^ 31) mod 2 ^ 32 - 2 ^ 31
  | _ => 0
  end.

(** *** Strings to numbers

    The conversion applied by [*] to a string operand.  A string is a
    sequence of 8-bit code units. *)

Definition is_ws (c : ascii) : bool :=
  let n := nat_of_ascii c in
  (n =? 9)%nat || (n =? 10)%nat || (n =? 11)%nat || (n =? 12)%nat
  || (n =? 13)%nat || (n =? 32)%nat || (n =? 160)%nat.

Fixpoint skip_ws (s : string) : string :=
  match s with
  | String c r => if is_ws c then skip_ws r else s
  | EmptyString => s
  end.

Fixpoint rev_string (s acc : string) : string :=
  match s with
  | String c r => rev_string r (String c acc)
  | EmptyString => acc
  end.

Definition trim (s : string) : string :=
  rev_string (skip_ws (rev_string (skip_ws s) "")) "".

Definition digit_of (base : Z) (c : ascii) : option Z :=
  let n := Z.of_nat (nat_of_ascii c) in
  let v := if (48 <=? n) && (n <=? 57) then n - 48
           else if (97 <=? n) && (n <=? 102) then n - 87
           else if (65 <=? n) && (n <=? 70) then n - 55
           else base in
  if v <? base then Some v else None.

(** The longest prefix of digits: its value, its length, and the rest. *)
Fixpoint digits (base : Z) (s : string) (acc cnt : Z) : Z * Z * string :=
  match s with
  | String c r =>
      match digit_of base c with
      | Some v => digits base r (acc * base + v) (cnt + 1)
      | None => (acc, cnt, s)
      end
  | EmptyString => (acc, cnt, s)
  end.

(** [m * 10^x], rounded once. *)
Definition decimal (m x : Z) : float64 :=
  if m =? 0 then Fin 0
  else if 0 <=? x then round (Qmake (m * 10 ^ x) 1)
  else round (Qred (Qmake m (Z.to_pos (10 ^ (- x))))).

Definition exponent_part (s : string) : option Z :=
  match s with
  | EmptyString => Some 0
  | String c r =>
      if (c =? "e")%char || (c =? "E")%char then
        let '(sg, r) := match r with
                        | String "+" r' => (1, r')
                        | String "-" r' => (-1, r')
                        | _ => (1, r)
                        end in
        match digits 10 r 0 0 with
        | (v, cnt, EmptyString) => if 0 <? cnt then Some (sg * v) else None
        | _ => None
        end
      else None
  end.

Definition unsigned_decimal (s : string) : float64 :=
  if (s =? "Infinity")%string then PInf
  else
    let '(ip, ic, r1) := digits 10 s 0 0 in
    let '(fp, fc, r2) := match r1 with
                         | String "." r => digits 10 r 0 0
                         | _ => (0, 0, r1)
                         end in
    if ic + fc =? 0 then NaN
    else match exponent_part r2 with
         | Some ev => decimal (ip * 10 ^ fc + fp) (ev - fc)
         | None => NaN
         end.

Definition radix_literal (base : Z) (s : string) : float64 :=
  match digits base s 0 0 with
  | (v, cnt, EmptyString) => if 0 <? cnt then round (Qmake v 1) else NaN
  | _ => NaN
  end.

Definition StringToNumber (s : string) : float64 :=
  match trim s with
  | EmptyString => Fin 0
  | String "0" (String "x" r) | String "0" (String "X" r) => radix_literal 16 r
  | String "0" (String "o" r) | String "0" (String "O" r) => radix_literal 8 r
  | String "0" (String "b" r) | String "0" (String "B" r) => radix_literal 2 r
  | String "+" r => unsigned_decimal r
  | String "-" r => fneg (unsigned_decimal r)
  | t => unsigned_decimal t
  end.

End F64.

(** ** The document

    An element is a node identity, its own properties and its child
    elements in order.  A reference held by the script (a captured variable
    such as [overlay]) is the identity of the node. *)

Module Dom.
Import F64.

Local Open Scope nat_scope.

Definition nid := nat.

Inductive CssValue : Type :=
  | Css (s : string)
  | Px (x : float64).

Record DOMRect := mkRect {
  rect_left : float64;
  rect_top : float64;
  rect_width : float64;
  rect_height : float64
}.

(** The one event-handler content attribute the script writes: the
    [onclick] of the confirmation panel's Close button. *)
Inductive InlineHandler : Type :=
  | CloseNearestOverlay.

Record Props := mkProps {
  tagName : string;
  elem_id : option string;
  classList : list string;
  style : gmap string CssValue;
  href : option string;
  dataset_delay : option string;
  rect : DOMRect;
  onclick : option InlineHandler;
  textContent : string
}.

#[local] Unset Elimination Schemes.
Inductive Elem : Type :=
  | El (n : nid) (p : Props) (ks : list Elem).
#[local] Set Elimination Schemes.
Arguments El n%_nat p ks%_list.

Definition nid_of (e : Elem) : nid := match e with El n _ _ => n end.
Definition props (e : Elem) : Props := match e with El _ p _ => p end.
Definition kids (e : Elem) : list Elem := match e with El _ _ ks => ks end.

Definition zero_rect : DOMRect := mkRect (Fin 0) (Fin 0) (Fin 0) (Fin 0).

Definition blank (tag : string) : Props :=
  mkProps tag None [] ∅ None None zero_rect None "".

Definition with_id (s : string) (p : Props) : Props :=
  mkProps (tagName p) (Some s) (classList p) (style p) (href p)
          (dataset_delay p) (rect p) (onclick p) (textContent p).

Definition with_classList (cs : list string) (p : Props) : Props :=
  mkProps (tagName p) (elem_id p) cs (style p) (href p)
          (dataset_delay p) (rect p) (onclick p) (textContent p).

Definition with_style (st : gmap string CssValue) (p : Props) : Props :=
  mkProps (tagName p) (elem_id p) (classList p) st (href p)
          (dataset_delay p) (rect p) (onclick p) (textContent p).

Definition with_text (t : string) (p : Props) : Props :=
  mkProps (tagName p) (elem_id p) (classList p) (style p) (href p)
          (dataset_delay p) (rect p) (onclick p) t.

Definition with_onclick (h : InlineHandler) (p : Props) : Props :=
  mkProps (tagName p) (elem_id p) (classList p) (style p) (href p)
          (dataset_delay p) (rect p) (Some h) (textContent p).

(** [classList.add], [classList.remove], [classList.contains]. *)
Definition has_class (c : string) (p : Props) : bool :=
  existsb (String.eqb c) (classList p).

Definition add_class (c : string) (p : Props) : Props :=
  if has_class c p then p else with_classList (classList p ++ [c]) p.

Definition remove_class (c : string) (p : Props) : Props :=
  with_classList (List.filter (fun x => negb (String.eqb c x)) (classList p)) p.

(** [el.style.k = v] for a non-empty [v], and [el.style.k = ''], which
    removes the declaration. *)
Definition style_set (k : string) (v : CssValue) (p : Props) : Props :=
  with_style (<[k := v]> (style p)) p.

Definition style_clear (k : string) (p : Props) : Props :=
  with_style (delete k (style p)) p.

(** *** Tree order *)

Fixpoint flatten (e : Elem) : list Elem :=
  match e with
  | El _ _ ks => e :: flat_map flatten ks
  end.

Definition descendants (e : Elem) : list Elem := flat_map flatten (kids e).

(** *** Updates by identity *)

Fixpoint update_props (n : nid) (g : Props -> Props) (e : Elem) : Elem :=
  match e with
  | El i p ks =>
      El i (if (i =? n)%nat then g p else p) (List.map (update_props n g) ks)
  end.

Fixpoint update_kids (n : nid) (h : list Elem -> list Elem) (e : Elem) : Elem :=
  match e with
  | El i p ks =>
      let ks' := List.map (update_kids n h) ks in
      El i p (if (i =? n)%nat then h ks' else ks')
  end.

(** The tree without the subtrees rooted at [n] (the root itself stays). *)
Fixpoint prune (n : nid) (e : Elem) : Elem :=
  match e with
  | El i p ks =>
      El i p (flat_map (fun k => if (nid_of k =? n)%nat then [] else [prune n k]) ks)
  end.

Definition prune_forest (n : nid) (l : list Elem) : list Elem :=
  flat_map (fun k => if (nid_of k =? n)%nat then [] else [prune n k]) l.

(** A parsed markup fragment is written with identities 0, 1, ... in tree
    order; inserting it renumbers from the next free identity. *)
Fixpoint shift (k : nid) (e : Elem) : Elem :=
  match e with
  | El i p ks => El (i + k) p (List.map (shift k) ks)
  end.

Definition size (l : list Elem) : nat := length (flat_map flatten l).

(** *** Selectors

    The selectors the script writes: [#id], [.class], and
    [a[href^=prefix]]. *)

Inductive Selector : Type :=
  | ById (s : string)
  | ByClass (c : string)
  | AnchorHrefPrefix (prefix : string).

Definition matches (sel : Selector) (e : Elem) : bool :=
  let p := props e in
  match sel with
  | ById s => match elem_id p with Some i => String.eqb i s | None => false end
  | ByClass c => has_class c p
  | AnchorHrefPrefix pre =>
      String.eqb (tagName p) "a"
      && match href p with Some h => String.prefix pre h | None => false end
  end.

(** The html element has a head and a body, which stay in place; a node
    created and not yet inserted, or removed, lives on in [detached]. *)
Record Document := mkDocument {
  doc_head : Elem;
  doc_body : Elem;
  detached : list Elem;
  next_id : nid
}.

Definition document_order (d : Document) : list Elem :=
  flatten (doc_head d) ++ flatten (doc_body d).

Definition all_nodes (d : Document) : list Elem :=
  document_order d ++ flat_map flatten (detached d).

Definition is_node (n : nid) (e : Elem) : bool := (nid_of e =? n)%nat.

Definition lookup_node (n : nid) (d : Document) : option Elem :=
  List.find (is_node n) (all_nodes d).

Definition querySelectorAll (sel : Selector) (d : Document) : list nid :=
  List.map nid_of (List.filter (matches sel) (document_order d)).

Definition querySelector (sel : Selector) (d : Document) : option nid :=
  nid_of <$> List.find (matches sel) (document_order d).

Definition getElementById (s : string) (d : Document) : option nid :=
  querySelector (ById s) d.

(** [el.querySelector(sel)]: the first match among the descendants. *)
Definition elem_querySelector (n : nid) (sel : Selector) (d : Document) : option nid :=
  match lookup_node n d with
  | Some e => nid_of <$> List.find (matches sel) (descendants e)
  | None => None
  end.

(** A position in the tree to write to: [document.head], [document.body],
    or a node held by reference. *)
Inductive Ref : Type :=
  | Head
  | Body
  | Node (n : nid).

Definition on_props (r : Ref) (g : Props -> Props) (d : Document) : Document :=
  match r with
  | Head =>
      let '(El i p ks) := doc_head d in
      mkDocument (El i (g p) ks) (doc_body d) (detached d) (next_id d)
  | Body =>
      let '(El i p ks) := doc_body d in
      mkDocument (doc_head d) (El i (g p) ks) (detached d) (next_id d)
  | Node n =>
      mkDocument (update_props n g (doc_head d)) (update_props n g (doc_body d))
                 (List.map (update_props n g) (detached d)) (next_id d)
  end.

Definition on_kids (r : Ref) (h : list Elem -> list Elem) (d : Document) : Document :=
  match r with
  | Head =>
      let '(El i p ks) := doc_head d in
      mkDocument (El i p (h ks)) (doc_body d) (detached d) (next_id d)
  | Body =>
      let '(El i p ks) := doc_body d in
      mkDocument (doc_head d) (El i p (h ks)) (detached d) (next_id d)
  | Node n =>
      mkDocument (update_kids n h (doc_head d)) (update_kids n h (doc_body d))
                 (List.map (update_kids n h) (detached d)) (next_id d)
  end.

(** [document.createElement(tag)]. *)
Definition createElement (tag : string) (d : Document) : Document * nid :=
  (mkDocument (doc_head d) (doc_body d)
              (detached d ++ [El (next_id d) (blank tag) []]) (S (next_id d)),
   next_id d).

(** Take the node out of wherever it is. *)
Definition unlink (n : nid) (d : Document) : Document :=
  mkDocument (prune n (doc_head d)) (prune n (doc_body d))
             (prune_forest n (detached d)) (next_id d).

(** [parent.appendChild(child)] and [parent.insertBefore(child,
    parent.firstChild)]. *)
Definition appendChild (parent : Ref) (child : nid) (d : Document) : Document :=
  match lookup_node child d with
  | Some c => on_kids parent (fun ks => ks ++ [c]) (unlink child d)
  | None => d
  end.

Definition prependChild (parent : Ref) (child : nid) (d : Document) : Document :=
  match lookup_node child d with
  | Some c => on_kids parent (fun ks => c :: ks) (unlink child d)
  | None => d
  end.

(** [el.remove()]: the node leaves its parent and stays alive. *)
Definition remove (n : nid) (d : Document) : Document :=
  match lookup_node n d with
  | Some c =>
      if is_node n (doc_head d) || is_node n (doc_body d) then d
      else let d1 := unlink n d in
           mkDocument (doc_head d1) (doc_body d1) (detached d1 ++ [c]) (next_id d1)
  | None => d
  end.

(** [el.innerHTML = markup]: the former children are dropped from the
    tree, the parsed fragment takes their place. *)
Definition set_innerHTML (n : nid) (markup : list Elem) (d : Document) : Document :=
  match lookup_node n d with
  | Some e =>
      let fresh := List.map (shift (next_id d)) markup in
      let d1 := on_kids (Node n) (fun _ => fresh) d in
      mkDocument (doc_head d1) (doc_body d1) (detached d1 ++ kids e)
                 (next_id d + size markup)
  | None => d
  end.

Definition count_matching (sel : Selector) (d : Document) : nat :=
  length (List.filter (matches sel) (document_order d)).

End Dom.

(** ** The browser state and the script's effects *)

Module Browser.
Import F64 Dom.

Inductive JSError : Type :=
  | TypeError
  | SyntaxError
  | RangeError.

Inductive Completion (A : Type) : Type :=
  | Ok (a : A)
  | Throw (e : JSError).
Arguments Ok {A} a.
Arguments Throw {A} e.

(** The closures the script hands to [setTimeout] and
    [requestAnimationFrame], each with the variables it captures. *)
Inductive Callback : Type :=
  | CbShowDemoModal
  | CbRippleRemove (ripple : nid)
  | CbCloseFinish (overlay : nid)
  | CbAddVisible (target : nid)
  | CbAddActive (overlay : nid).

Inductive EventType : Type :=
  | Click
  | Submit
  | Scroll
  | Keydown
  | DOMContentLoaded.

Inductive EventTarget : Type :=
  | OnNode (n : nid)
  | OnDocument
  | OnWindow.

(** The closures the script registers with [addEventListener], and the
    inline handler, by the node that carries it. *)
Inductive Listener : Type :=
  | OnReady
  | OnAnchorClick (link : nid)
  | OnCtaClick (button : nid)
  | OnVideoClick
  | OnCloseClick (overlay : nid)
  | OnBackdropClick (overlay : nid)
  | OnDemoSubmit (overlay : nid)
  | OnHeaderScroll (header : option nid)
  | OnKeydown
  | OnInline (this : nid) (h : InlineHandler).

Record Event := mkEvent {
  ev_type : EventType;
  ev_target : EventTarget;
  clientX : float64;
  clientY : float64;
  key : string
}.

Record World := mkWorld {
  document : Document;
  now : Z;
  timers : list (Z * Callback);
  frames : list Callback;
  listeners : list (EventTarget * EventType * Listener);
  observed : list nid;
  header_observed : list nid;
  pageYOffset : float64;
  lastScroll : float64;
  scrolled_to : list float64;
  default_prevented : bool;
  uncaught : list JSError;
  history : list (Z * Callback)
}.

Definition set_document (d : Document) (w : World) : World :=
  mkWorld d (now w) (timers w) (frames w) (listeners w) (observed w)
          (header_observed w) (pageYOffset w) (lastScroll w) (scrolled_to w)
          (default_prevented w) (uncaught w) (history w).

Definition set_now (t : Z) (w : World) : World :=
  mkWorld (document w) t (timers w) (frames w) (listeners w) (observed w)
          (header_observed w) (pageYOffset w) (lastScroll w) (scrolled_to w)
          (default_prevented w) (uncaught w) (history w).

Definition set_timers (ts : list (Z * Callback)) (w : World) : World :=
  mkWorld (document w) (now w) ts (frames w) (listeners w) (observed w)
          (header_observed w) (pageYOffset w) (lastScroll w) (scrolled_to w)
          (default_prevented w) (uncaught w) (history w).

Definition set_frames (fs : list Callback) (w : World) : World :=
  mkWorld (document w) (now w) (timers w) fs (listeners w) (observed w)
          (header_observed w) (pageYOffset w) (lastScroll w) (scrolled_to w)
          (default_prevented w) (uncaught w) (history w).

Definition set_listeners (ls : list (EventTarget * EventType * Listener))
    (w : World) : World :=
  mkWorld (document w) (now w) (timers w) (frames w) ls (observed w)
          (header_observed w) (pageYOffset w) (lastScroll w) (scrolled_to w)
          (default_prevented w) (uncaught w) (history w).

Definition set_observed (os : list nid) (w : World) : World :=
  mkWorld (document w) (now w) (timers w) (frames w) (listeners w) os
          (header_observed w) (pageYOffset w) (lastScroll w) (scrolled_to w)
          (default_prevented w) (uncaught w) (history w).

Definition set_header_observed (os : list nid) (w : World) : World :=
  mkWorld (document w) (now w) (timers w) (frames w) (listeners w) (observed w)
          os (pageYOffset w) (lastScroll w) (scrolled_to w)
          (default_prevented w) (uncaught w) (history w).

Definition set_lastScroll (y : float64) (w : World) : World :=
  mkWorld (document w) (now w) (timers w) (frames w) (listeners w) (observed w)
          (header_observed w) (pageYOffset w) y (scrolled_to w)
          (default_prevented w) (uncaught w) (history w).

Definition set_scrolled_to (l : list float64) (w : World) : World :=
  mkWorld (document w) (now w) (timers w) (frames w) (listeners w) (observed w)
          (header_observed w) (pageYOffset w) (lastScroll w) l
          (default_prevented w) (uncaught w) (history w).

Definition set_default_prevented (b : bool) (w : World) : World :=
  mkWorld (document w) (now w) (timers w) (frames w) (listeners w) (observed w)
          (header_observed w) (pageYOffset w) (lastScroll w) (scrolled_to w)
          b (uncaught w) (history w).

Definition set_uncaught (l : list JSError) (w : World) : World :=
  mkWorld (document w) (now w) (timers w) (frames w) (listeners w) (observed w)
          (header_observed w) (pageYOffset w) (lastScroll w) (scrolled_to w)
          (default_prevented w) l (history w).

Definition set_history (l : list (Z * Callback)) (w : World) : World :=
  mkWorld (document w) (now w) (timers w) (frames w) (listeners w) (observed w)
          (header_observed w) (pageYOffset w) (lastScroll w) (scrolled_to w)
          (default_prevented w) (uncaught w) l.

(** *** State and exceptions

    A computation transforms the state and completes normally or throws;
    the state reached when it throws is kept. *)

Definition M (A : Type) : Type := World -> World * Completion A.

#[global] Instance M_ret : MRet M := fun A a w => (w, Ok a).

#[global] Instance M_bind : MBind M := fun A B f m w =>
  match m w with
  | (w', Ok a) => f a w'
  | (w', Throw e) => (w', Throw e)
  end.

Definition throw {A : Type} (e : JSError) : M A := fun w => (w, Throw e).

Definition state (m : M unit) (w : World) : World := fst (m w).
Definition completion {A : Type} (m : M A) (w : World) : Completion A := snd (m w).

Definition dom (f : Document -> Document) : M unit :=
  fun w => (set_document (f (document w)) w, Ok ()).

Definition dom_read {A : Type} (f : Document -> A) : M A :=
  fun w => (w, Ok (f (document w))).

Definition dom_new (f : Document -> Document * nid) : M nid :=
  fun w => let '(d, n) := f (document w) in (set_document d w, Ok n).

(** Reading a property of [null] throws. *)
Definition deref (o : option nid) : M nid :=
  match o with
  | Some n => mret n
  | None => throw TypeError
  end.

Fixpoint for_each {A : Type} (l : list A) (f : A -> M unit) : M unit :=
  match l with
  | [] => mret ()
  | x :: r => f x ;; for_each r f
  end.

(** [setTimeout(cb, ms)]: the delay is converted to a 32-bit integer and a
    negative one counts as 0. *)
Definition timer_delay (ms : float64) : Z := Z.max 0 (toInt32 ms).

Definition setTimeout (cb : Callback) (ms : float64) : M unit :=
  fun w => (set_timers (timers w ++ [(now w + timer_delay ms, cb)]) w, Ok ()).

Definition requestAnimationFrame (cb : Callback) : M unit :=
  fun w => (set_frames (frames w ++ [cb]) w, Ok ()).

Definition addEventListener (t : EventTarget) (ty : EventType) (l : Listener) : M unit :=
  fun w => (set_listeners (listeners w ++ [(t, ty, l)]) w, Ok ()).

Definition preventDefault : M unit :=
  fun w => (set_default_prevented true w, Ok ()).

(** [window.scrollTo({top, behavior: 'smooth'})]: the requested top is
    recorded as passed. *)
Definition scrollTo (y : float64) : M unit :=
  fun w => (set_scrolled_to (scrolled_to w ++ [y]) w, Ok ()).

Definition mem (n : nid) (l : list nid) : bool := existsb (Nat.eqb n) l.

(** [observer.observe(el)] (an element already observed is not added
    again) and [observer.unobserve(el)]. *)
Definition observe (n : nid) : M unit :=
  fun w => (if mem n (observed w) then w
            else set_observed (observed w ++ [n]) w, Ok ()).

Definition unobserve (n : nid) : M unit :=
  fun w => (set_observed (List.filter (fun x => negb (Nat.eqb n x)) (observed w)) w, Ok ()).

Definition header_observe (n : nid) : M unit :=
  fun w => (if mem n (header_observed w) then w
            else set_header_observed (header_observed w ++ [n]) w, Ok ()).

Definition header_unobserve (n : nid) : M unit :=
  fun w => (set_header_observed
              (List.filter (fun x => negb (Nat.eqb n x)) (header_observed w)) w, Ok ()).

Definition node_props (n : nid) : M (option Props) :=
  dom_read (fun d => props <$> lookup_node n d).

Definition getBoundingClientRect (n : nid) : M DOMRect :=
  o ← node_props n;
  mret (match o with Some p => rect p | None => zero_rect end).

End Browser.

(** ** The script *)

Module Script.
Import F64 Dom Browser.

(** *** Values of the delay expression *)

Inductive JSValue : Type :=
  | VUndefined
  | VString (s : string)
  | VNumber (x : float64).

Definition truthy (v : JSValue) : bool :=
  match v with
  | VUndefined => false
  | VString s => negb (String.eqb s "")
  | VNumber NaN => false
  | VNumber (Fin q) => negb (is_zero q)
  | VNumber _ => true
  end.

(** [a || b] *)
Definition js_or (a b : JSValue) : JSValue := if truthy a then a else b.

Definition ToNumber (v : JSValue) : float64 :=
  match v with
  | VUndefined => NaN
  | VString s => StringToNumber s
  | VNumber x => x
  end.

(** [a * b] *)
Definition js_mul (a b : JSValue) : float64 := fmul (ToNumber a) (ToNumber b).

(** [el.dataset.delay] *)
Definition dataset_delay_value (o : option Props) : JSValue :=
  match o with
  | Some p => match dataset_delay p with Some s => VString s | None => VUndefined end
  | None => VUndefined
  end.

(** *** Markup of the dialogs *)

Definition tagged (tag : string) (classes : list string) (text : string) : Props :=
  with_text text (with_classList classes (blank tag)).

Definition demo_modal_html : list Elem :=
  [El 0 (tagged "div" ["modal-content"] "")
     [El 1 (tagged "button" ["modal-close"] "&times;") [];
      El 2 (tagged "div" ["modal-icon"] "") [];
      El 3 (tagged "h3" ["modal-title"] "Request monday.com Talent") [];
      El 4 (tagged "p" ["modal-text"] "Thank you for your interest!")
        [El 5 (blank "br") [];
         El 6 (tagged "b" [] "contact@mondaystaffings.com") [];
         El 7 (blank "br") []]]].

Definition video_modal_html : list Elem :=
  [El 0 (tagged "div" ["modal-content"; "video-modal"] "")
     [El 1 (tagged "button" ["modal-close"] "&times;") [];
      El 2 (tagged "div" ["video-placeholder"] "")
        [El 3 (tagged "div" ["play-icon"] "") [];
         El 4 (tagged "p" [] "Product Demo Video") []]]].

Definition success_html : list Elem :=
  [El 0 (tagged "div" ["success-content"] "")
     [El 1 (tagged "div" ["success-icon"] "") [];
      El 2 (tagged "h3" ["modal-title"] "Thank You!") [];
      El 3 (tagged "p" ["modal-text"] "We've received your request.") [];
      El 4 (with_onclick CloseNearestOverlay (tagged "button" ["modal-submit"] "Close")) []]].

Definition ripple_keyframes : string :=
  "@keyframes ripple { to { transform: scale(4); opacity: 0; } }".

(** The rule bodies of the dialog style sheet are not spelled out: the text
    is written once and never read. *)
Definition modal_stylesheet : string :=
  ".modal-overlay .modal-overlay.active .modal-content .modal-close .modal-icon .modal-title .modal-text .modal-form .modal-input .modal-submit .success-content .success-icon .video-modal .video-placeholder .play-icon".

(** *** Dialogs *)

Definition addModalStyles : M unit :=
  found ← dom_read (getElementById "modal-styles");
  match found with
  | Some _ => mret ()
  | None =>
      style ← dom_new (createElement "style");
      dom (on_props (Node style) (with_id "modal-styles")) ;;
      dom (on_props (Node style) (with_text modal_stylesheet)) ;;
      dom (appendChild Head style)
  end.

Definition closeModal (overlay : nid) : M unit :=
  dom (on_props (Node overlay) (remove_class "active")) ;;
  setTimeout (CbCloseFinish overlay) (ofZ 300).

Definition showSuccessMessage (overlay : nid) : M unit :=
  found ← dom_read (elem_querySelector overlay (ByClass "modal-content"));
  content ← deref found;
  dom (set_innerHTML content success_html) ;;
  closeBtn ← dom_new (createElement "button");
  dom (on_props (Node closeBtn) (with_classList ["modal-close"])) ;;
  dom (on_props (Node closeBtn) (with_text "&times;")) ;;
  addEventListener (OnNode closeBtn) Click (OnCloseClick overlay) ;;
  dom (prependChild (Node content) closeBtn).

Definition showDemoModal : M unit :=
  overlay ← dom_new (createElement "div");
  dom (on_props (Node overlay) (with_classList ["modal-overlay"])) ;;
  dom (set_innerHTML overlay demo_modal_html) ;;
  addModalStyles ;;
  dom (appendChild Body overlay) ;;
  dom (on_props Body (style_set "overflow" (Css "hidden"))) ;;
  requestAnimationFrame (CbAddActive overlay) ;;
  found ← dom_read (elem_querySelector overlay (ByClass "modal-close"));
  close ← deref found;
  addEventListener (OnNode close) Click (OnCloseClick overlay) ;;
  addEventListener (OnNode overlay) Click (OnBackdropClick overlay) ;;
  found ← dom_read (elem_querySelector overlay (ById "demoForm"));
  form ← deref found;
  addEventListener (OnNode form) Submit (OnDemoSubmit overlay).

Definition showVideoModal : M unit :=
  overlay ← dom_new (createElement "div");
  dom (on_props (Node overlay) (with_classList ["modal-overlay"])) ;;
  dom (set_innerHTML overlay video_modal_html) ;;
  addModalStyles ;;
  dom (appendChild Body overlay) ;;
  dom (on_props Body (style_set "overflow" (Css "hidden"))) ;;
  requestAnimationFrame (CbAddActive overlay) ;;
  found ← dom_read (elem_querySelector overlay (ByClass "modal-close"));
  close ← deref found;
  addEventListener (OnNode close) Click (OnCloseClick overlay) ;;
  addEventListener (OnNode overlay) Click (OnBackdropClick overlay).

(** *** Ripple *)

Definition ripple_style (size x y : float64) : gmap string CssValue :=
  list_to_map
    [("position", Css "absolute");
     ("width", Px size);
     ("height", Px size);
     ("left", Px x);
     ("top", Px y);
     ("background", Css "rgba(255, 255, 255, 0.3)");
     ("border-radius", Css "50%");
     ("transform", Css "scale(0)");
     ("animation", Css "ripple 0.6s ease-out");
     ("pointer-events", Css "none")].

Definition createRipple (event : Event) (button : nid) : M unit :=
  ripple ← dom_new (createElement "span");
  r ← getBoundingClientRect button;
  let size := fmax (rect_width r) (rect_height r) in
  let x := fsub (fsub (clientX event) (rect_left r)) (fhalf size) in
  let y := fsub (fsub (clientY event) (rect_top r)) (fhalf size) in
  dom (on_props (Node ripple) (with_style (ripple_style size x y))) ;;
  found ← dom_read (getElementById "ripple-styles");
  match found with
  | Some _ => mret ()
  | None =>
      style ← dom_new (createElement "style");
      dom (on_props (Node style) (with_id "ripple-styles")) ;;
      dom (on_props (Node style) (with_text ripple_keyframes)) ;;
      dom (appendChild Head style)
  end ;;
  dom (on_props (Node button) (style_set "position" (Css "relative"))) ;;
  dom (on_props (Node button) (style_set "overflow" (Css "hidden"))) ;;
  dom (appendChild (Node button) ripple) ;;
  setTimeout (CbRippleRemove ripple) (ofZ 600).

(** *** Initialisers *)

Definition initSmoothScroll : M unit :=
  navLinks ← dom_read (querySelectorAll (AnchorHrefPrefix "#"));
  for_each navLinks (fun link =>
    addEventListener (OnNode link) Click (OnAnchorClick link)).

Definition initScrollAnimations : M unit :=
  cards ← dom_read (querySelectorAll (ByClass "workflow-card"));
  items ← dom_read (querySelectorAll (ByClass "config-item"));
  features ← dom_read (querySelectorAll (ByClass "feature-item"));
  let animatedElements := cards ++ items ++ features in
  for_each animatedElements observe ;;
  sectionHeaders ← dom_read (querySelectorAll (ByClass "section-header"));
  for_each sectionHeaders (fun header =>
    dom (on_props (Node header) (style_set "opacity" (Css "0"))) ;;
    dom (on_props (Node header) (style_set "transform" (Css "translateY(30px)"))) ;;
    dom (on_props (Node header) (style_set "transition" (Css "all 0.6s ease"))) ;;
    header_observe header).

Definition initButtonInteractions : M unit :=
  heroCta ← dom_read (getElementById "heroCta");
  ctaButton ← dom_read (getElementById "ctaButton");
  headerCta ← dom_read (querySelector (ByClass "header-cta"));
  let ctaButtons := [heroCta; ctaButton; headerCta] in
  for_each ctaButtons (fun button =>
    match button with
    | Some b => addEventListener (OnNode b) Click (OnCtaClick b)
    | None => mret ()
    end) ;;
  videoBtn ← dom_read (querySelector (ByClass "btn-secondary"));
  match videoBtn with
  | Some v => addEventListener (OnNode v) Click OnVideoClick
  | None => mret ()
  end.

Definition initHeaderScroll : M unit :=
  header ← dom_read (getElementById "header");
  addEventListener OnWindow Scroll (OnHeaderScroll header).

(** *** Intersection observers *)

Record Entry := mkEntry {
  target : nid;
  isIntersecting : bool
}.

Definition reveal_entry (entry : Entry) : M unit :=
  if isIntersecting entry then
    p ← node_props (target entry);
    let delay := js_or (dataset_delay_value p) (VNumber (ofZ 0)) in
    setTimeout (CbAddVisible (target entry)) (js_mul delay (VNumber (ofZ 100))) ;;
    unobserve (target entry)
  else mret ().

Definition reveal_callback (entries : list Entry) : M unit :=
  for_each entries reveal_entry.

Definition header_entry (entry : Entry) : M unit :=
  if isIntersecting entry then
    dom (on_props (Node (target entry)) (style_set "opacity" (Css "1"))) ;;
    dom (on_props (Node (target entry)) (style_set "transform" (Css "translateY(0)"))) ;;
    header_unobserve (target entry)
  else mret ().

Definition header_callback (entries : list Entry) : M unit :=
  for_each entries header_entry.

(** *** Handlers

    [document.querySelector] is applied by the anchor handler to the link's
    href.  A [#] followed by an ASCII identifier is an id selector; what the
    selector engine does with any other string (a compound or complex
    selector, or a syntax error) is left to [select_other]. *)

Definition is_letter (c : ascii) : bool :=
  let n := nat_of_ascii c in
  ((65 <=? n) && (n <=? 90) || (97 <=? n) && (n <=? 122) || (n =? 95))%nat.

Definition is_name_char (c : ascii) : bool :=
  let n := nat_of_ascii c in
  is_letter c || ((48 <=? n) && (n <=? 57) || (n =? 45))%nat.

Fixpoint all_chars (f : ascii -> bool) (s : string) : bool :=
  match s with
  | String c r => f c && all_chars f r
  | EmptyString => true
  end.

Definition css_ident (s : string) : bool :=
  match s with
  | String "-" (String c r) => (is_letter c || (c =? "-")%char) && all_chars is_name_char r
  | String c r => is_letter c && all_chars is_name_char r
  | EmptyString => false
  end.

Definition window_pageYOffset : M float64 :=
  fun w => (w, Ok (pageYOffset w)).

Definition assign_lastScroll (y : float64) : M unit :=
  fun w => (set_lastScroll y w, Ok ()).

Section Handlers.

Variable select_other : string -> Document -> Completion (option nid).

Definition document_querySelector (selector : string) : M (option nid) :=
  fun w =>
    match selector with
    | String "#" name =>
        if css_ident name then (w, Ok (getElementById name (document w)))
        else (w, select_other selector (document w))
    | _ => (w, select_other selector (document w))
    end.

(** [link.getAttribute('href')], as a string to compare and to select
    with; a missing attribute reads as [null]. *)
Definition getAttribute_href (link : nid) : M string :=
  p ← node_props link;
  mret (match p with
        | Some p => match href p with Some h => h | None => "null" end
        | None => "null"
        end).

Definition anchor_click (link : nid) : M unit :=
  preventDefault ;;
  targetId ← getAttribute_href link;
  if String.eqb targetId "#" then mret ()
  else
    targetElement ← document_querySelector targetId;
    match targetElement with
    | Some t =>
        let headerOffset := ofZ 80 in
        r ← getBoundingClientRect t;
        let elementPosition := rect_top r in
        y ← window_pageYOffset;
        let offsetPosition := fsub (fadd elementPosition y) headerOffset in
        scrollTo offsetPosition
    | None => mret ()
    end.

Definition header_scroll (header : option nid) : M unit :=
  currentScroll ← window_pageYOffset;
  (if fgt currentScroll (ofZ 50) then
     h ← deref header;
     dom (on_props (Node h) (style_set "box-shadow" (Css "0 4px 30px rgba(0, 0, 0, 0.1)")))
   else
     h ← deref header;
     dom (on_props (Node h) (style_set "box-shadow" (Css "none")))) ;;
  assign_lastScroll currentScroll.

Definition keydown (e : Event) : M unit :=
  if String.eqb (key e) "Escape" then
    overlay ← dom_read (querySelector (ByClass "modal-overlay"));
    match overlay with
    | Some o => closeModal o
    | None => mret ()
    end
  else mret ().

(** The chain of ancestors of a node, the node first. *)
Fixpoint path_in (n : nid) (e : Elem) : option (list nid) :=
  match e with
  | El i p ks =>
      if (i =? n)%nat then Some [i]
      else match List.fold_right
                   (fun k acc => match path_in n k with Some l => Some l | None => acc end)
                   None ks with
           | Some l => Some (l ++ [i])
           | None => None
           end
  end.

Definition first_path (n : nid) (l : list Elem) : option (list nid) :=
  List.fold_right (fun k acc => match path_in n k with Some l => Some l | None => acc end)
                  None l.

Definition ancestors (n : nid) (d : Document) : list nid :=
  match first_path n (doc_head d :: doc_body d :: detached d) with
  | Some l => l
  | None => [n]
  end.

Definition in_document (n : nid) (d : Document) : bool :=
  existsb (is_node n) (document_order d).

(** [this.closest(sel)] *)
Definition closest (n : nid) (sel : Selector) (d : Document) : option nid :=
  List.find (fun a => match lookup_node a d with
                      | Some e => matches sel e
                      | None => false
                      end) (ancestors n d).

(** [this.closest('.modal-overlay').querySelector('.modal-close')?.click()
    || closeModal(this.closest('.modal-overlay'))]; [click()] returns
    [undefined], so the right operand runs in every case. *)
Definition inline_close (click : nid -> M unit) (this : nid) : M unit :=
  found ← dom_read (closest this (ByClass "modal-overlay"));
  overlay ← deref found;
  close ← dom_read (elem_querySelector overlay (ByClass "modal-close"));
  match close with
  | Some c => click c
  | None => mret ()
  end ;;
  found ← dom_read (closest this (ByClass "modal-overlay"));
  overlay ← deref found;
  closeModal overlay.

Definition target_is (e : Event) (n : nid) : bool :=
  match ev_target e with
  | OnNode t => (t =? n)%nat
  | _ => false
  end.

Definition run_listener (click : nid -> M unit) (l : Listener) (e : Event) : M unit :=
  match l with
  | OnReady =>
      initSmoothScroll ;;
      initScrollAnimations ;;
      initButtonInteractions ;;
      initHeaderScroll
  | OnAnchorClick link => anchor_click link
  | OnCtaClick button =>
      createRipple e button ;;
      setTimeout CbShowDemoModal (ofZ 300)
  | OnVideoClick => showVideoModal
  | OnCloseClick overlay => closeModal overlay
  | OnBackdropClick overlay =>
      if target_is e overlay then closeModal overlay else mret ()
  | OnDemoSubmit overlay =>
      preventDefault ;;
      showSuccessMessage overlay
  | OnHeaderScroll header => header_scroll header
  | OnKeydown => keydown e
  | OnInline this CloseNearestOverlay => inline_close click this
  end.

(** *** Event dispatch

    An event visits its target and then each ancestor up to the document
    and the window; on each it runs the listeners registered there for its
    type, in order of registration.  An exception thrown by a listener is
    reported and the dispatch goes on. *)

Definition settle (m : M unit) (w : World) : World :=
  match m w with
  | (w', Ok _) => w'
  | (w', Throw e) => set_uncaught (uncaught w' ++ [e]) w'
  end.

Definition same_target (a b : EventTarget) : bool :=
  match a, b with
  | OnNode x, OnNode y => (x =? y)%nat
  | OnDocument, OnDocument => true
  | OnWindow, OnWindow => true
  | _, _ => false
  end.

Definition same_type (a b : EventType) : bool :=
  match a, b with
  | Click, Click | Submit, Submit | Scroll, Scroll
  | Keydown, Keydown | DOMContentLoaded, DOMContentLoaded => true
  | _, _ => false
  end.

Definition inline_listeners (t : EventTarget) (ty : EventType) (w : World) : list Listener :=
  match t, ty with
  | OnNode n, Click =>
      match lookup_node n (document w) with
      | Some e => match onclick (props e) with
                  | Some h => [OnInline n h]
                  | None => []
                  end
      | None => []
      end
  | _, _ => []
  end.

Definition listeners_on (t : EventTarget) (ty : EventType) (w : World) : list Listener :=
  inline_listeners t ty w
  ++ List.map snd (List.filter (fun r => same_target (fst (fst r)) t && same_type (snd (fst r)) ty)
                               (listeners w)).

Definition event_path (t : EventTarget) (d : Document) : list EventTarget :=
  match t with
  | OnNode n =>
      List.map OnNode (ancestors n d)
      ++ (if in_document n d then [OnDocument; OnWindow] else [])
  | OnDocument => [OnDocument; OnWindow]
  | OnWindow => [OnWindow]
  end.

Fixpoint invoke_all (run : Listener -> M unit) (ls : list Listener) (w : World) : World :=
  match ls with
  | [] => w
  | l :: r => invoke_all run r (settle (run l) w)
  end.

Fixpoint along (run : Listener -> M unit) (ty : EventType) (path : list EventTarget)
    (w : World) : World :=
  match path with
  | [] => w
  | t :: r => along run ty r (invoke_all run (listeners_on t ty w) w)
  end.

Definition click_event (n : nid) : Event :=
  mkEvent Click (OnNode n) (ofZ 0) (ofZ 0) "".

(** [fuel] bounds the nesting of synchronous [click()] calls; running out
    of it is the engine's stack overflow. *)
Fixpoint dispatch (fuel : nat) (e : Event) (w : World) : World :=
  match fuel with
  | O => set_uncaught (uncaught w ++ [RangeError]) w
  | S fuel' =>
      let click := fun n w1 =>
        let w2 := dispatch fuel' (click_event n) (set_default_prevented false w1) in
        (set_default_prevented (default_prevented w1) w2, Ok ()) in
      along (fun l => run_listener click l e) (ev_type e)
            (event_path (ev_target e) (document w)) w
  end.

Definition stack_limit : nat := 64.

(** An event from the user or the browser. *)
Definition fire (e : Event) (w : World) : World :=
  dispatch stack_limit e (set_default_prevented false w).

(** *** Timers and animation frames *)

Definition run_callback (cb : Callback) : M unit :=
  match cb with
  | CbShowDemoModal => showDemoModal
  | CbRippleRemove ripple => dom (remove ripple)
  | CbCloseFinish overlay =>
      dom (remove overlay) ;;
      dom (on_props Body (style_clear "overflow"))
  | CbAddVisible t => dom (on_props (Node t) (add_class "visible"))
  | CbAddActive overlay => dom (on_props (Node overlay) (add_class "active"))
  end.

Fixpoint insert_timer (t : Z * Callback) (l : list (Z * Callback)) : list (Z * Callback) :=
  match l with
  | [] => [t]
  | u :: r => if (fst t <? fst u)%Z then t :: l else u :: insert_timer t r
  end.

(** Timers in firing order: by due time, and by age among equals. *)
Definition firing_order (l : list (Z * Callback)) : list (Z * Callback) :=
  List.fold_left (fun acc t => insert_timer t acc) l [].

Definition run_timer (w : World) (t : Z * Callback) : World :=
  let w1 := set_now (Z.max (now w) (fst t)) w in
  let w2 := set_history (history w1 ++ [(now w1, snd t)]) w1 in
  settle (run_callback (snd t)) w2.

(** Let [dt] time units pass: every timer due by then fires, in order. *)
Definition advance (dt : Z) (w : World) : World :=
  let deadline := (now w + Z.max 0 dt)%Z in
  let due := firing_order (List.filter (fun t => (fst t <=? deadline)%Z) (timers w)) in
  let later := List.filter (fun t => negb (fst t <=? deadline)%Z) (timers w) in
  let w1 := List.fold_left run_timer due (set_timers later w) in
  set_now deadline w1.

(** The next animation frame: the callbacks requested so far run once. *)
Definition animation_frame (w : World) : World :=
  List.fold_left (fun w cb => settle (run_callback cb) w) (frames w) (set_frames [] w).

(** The browser reports intersection changes of the targets an observer
    still observes. *)
Definition notify (entries : list Entry) (w : World) : World :=
  settle (reveal_callback
            (List.filter (fun e => mem (target e) (observed w)) entries)) w.

Definition notify_headers (entries : list Entry) (w : World) : World :=
  settle (header_callback
            (List.filter (fun e => mem (target e) (header_observed w)) entries)) w.

(** The script's top level. *)
Definition script : M unit :=
  addEventListener OnDocument DOMContentLoaded OnReady ;;
  addEventListener OnDocument Keydown OnKeydown.

End Handlers.

End Script.

(** ** A sample page *)

Module Sample.
Import F64 Dom Browser Script.

Definition at_rect (x y w h : Z) (p : Props) : Props :=
  mkProps (tagName p) (elem_id p) (classList p) (style p) (href p)
          (dataset_delay p) (mkRect (ofZ x) (ofZ y) (ofZ w) (ofZ h))
          (onclick p) (textContent p).

Definition link_to (h : string) (p : Props) : Props :=
  mkProps (tagName p) (elem_id p) (classList p) (style p) (Some h)
          (dataset_delay p) (rect p) (onclick p) (textContent p).

Definition delayed (s : string) (p : Props) : Props :=
  mkProps (tagName p) (elem_id p) (classList p) (style p) (href p)
          (Some s) (rect p) (onclick p) (textContent p).

Definition page_body : Elem :=
  El 1 (blank "body")
    [El 2 (with_id "header" (blank "header"))
       [El 3 (link_to "#features" (tagged "a" [] "Features")) [];
        El 4 (link_to "#" (tagged "a" [] "Top")) [];
        El 5 (tagged "button" ["header-cta"] "Get started") []];
     El 6 (at_rect 10 20 120 40 (with_id "heroCta" (tagged "button" ["btn-primary"] "Request talent"))) [];
     El 7 (tagged "button" ["btn-secondary"] "Watch video") [];
     El 8 (at_rect 0 30 800 400 (with_id "features" (blank "section")))
       [El 9 (tagged "div" ["section-header"] "Features") [];
        El 10 (delayed "2" (tagged "div" ["workflow-card"] "")) [];
        El 11 (tagged "div" ["config-item"] "") [];
        El 12 (delayed "abc" (tagged "div" ["feature-item"] "")) [];
        El 13 (delayed "-1" (tagged "div" ["workflow-card"] "")) []];
     El 14 (with_id "ctaButton" (tagged "button" [] "Contact")) []].

Definition page_document : Document :=
  mkDocument (El 0 (blank "head") []) page_body [] 15%nat.

Definition page : World :=
  mkWorld page_document 0 [] [] [] [] [] (ofZ 0) (ofZ 0) [] false [] [].

(** A selector engine that rejects what the model does not parse. *)
Definition strict : string -> Document -> Completion (option nid) :=
  fun _ _ => Throw SyntaxError.

Definition ready : Event := mkEvent DOMContentLoaded OnDocument (ofZ 0) (ofZ 0) "".

(** The page once the script has run and the document is ready. *)
Definition loaded : World := fire strict ready (settle script page).

End Sample.

(** * Shapes

    What the operations of the script make of a document, written out, and
    the vocabulary of the properties below. *)

Module Shapes.
Import F64 Dom Browser Script.
Local Open Scope nat_scope.

(** [n] names no node of the tree. *)
Definition absent (n : nid) (e : Elem) : Prop :=
  Forall (fun x => nid_of x <> n) (flatten e).

(** Every identity in the tree is below [m]. *)
Definition bounded (m : nid) (e : Elem) : Prop :=
  Forall (fun x => nid_of x < m) (flatten e).

(** A document whose identities are all below the next free one. *)
Definition well_formed (d : Document) : Prop :=
  forallb (fun e => nid_of e <? next_id d) (all_nodes d) = true.

Definition style_node (n : nid) (marker text : string) : Elem :=
  El n (with_text text (with_id marker (blank "style"))) [].

Definition add_to_head (e : Elem) (d : Document) : Document :=
  mkDocument (El (nid_of (doc_head d)) (props (doc_head d)) (kids (doc_head d) ++ [e]))
             (doc_body d) (detached d) (next_id d).

(** What the one-time style injection does to a document. *)
Definition inject (marker text : string) (d : Document) : Document :=
  match getElementById marker d with
  | Some _ => d
  | None =>
      let d1 := add_to_head (style_node (next_id d) marker text) d in
      mkDocument (doc_head d1) (doc_body d1) (detached d1) (S (next_id d))
  end.

Definition parts_bounded (d : Document) : Prop :=
  bounded (next_id d) (doc_head d) /\ bounded (next_id d) (doc_body d)
  /\ Forall (bounded (next_id d)) (detached d).

Definition overlay_node (nx : nid) (markup : list Elem) : Elem :=
  El nx (with_classList ["modal-overlay"] (blank "div")) (List.map (shift (S nx)) markup).

Definition opened (markup : list Elem) (d : Document) : Document :=
  let nx := next_id d in
  let O := overlay_node nx markup in
  let d1 := inject "modal-styles" modal_stylesheet
              (mkDocument (doc_head d) (doc_body d) (detached d ++ [O])
                          (S nx + size markup)) in
  mkDocument (doc_head d1)
             (El (nid_of (doc_body d))
                 (style_set "overflow" (Css "hidden") (props (doc_body d)))
                 (kids (doc_body d) ++ [O]))
             (detached d) (next_id d1).

Definition opened_world (markup : list Elem) (w : World) : World :=
  let nx := next_id (document w) in
  set_listeners (listeners w ++ [(OnNode (1 + S nx), Click, OnCloseClick nx);
                                 (OnNode nx, Click, OnBackdropClick nx)])
    (set_frames (frames w ++ [CbAddActive nx])
       (set_document (opened markup (document w)) w)).

Ltac world_simpl :=
  cbn [document now timers frames listeners observed header_observed pageYOffset
       lastScroll scrolled_to default_prevented uncaught history
       set_document set_now set_timers set_frames set_listeners set_observed
       set_header_observed set_lastScroll set_scrolled_to set_default_prevented
       set_uncaught set_history fst snd].

Definition overlays (d : Document) : nat := count_matching (ByClass "modal-overlay") d.

Definition with_overlay (H : Elem) (bp : Props) (O : Elem) (d : Document) (m : nid) : Document :=
  mkDocument H (El (nid_of (doc_body d)) bp (kids (doc_body d) ++ [O])) (detached d) m.

Definition count_in (sel : Selector) (e : Elem) : nat :=
  length (List.filter (matches sel) (flatten e)).

Definition count_forest (sel : Selector) (l : list Elem) : nat :=
  length (List.filter (matches sel) (flat_map flatten l)).

Definition b2n (b : bool) : nat := if b then 1 else 0.


(** The values a partial observation of the properties yields, in tree order. *)
Definition collect {A : Type} (F : Props -> option A) (l : list Elem) : list A :=
  omap (fun e => F (props e)) l.

Definition seen {A : Type} (F : Props -> option A) (d : Document) : list A :=
  collect F (document_order d).

Definition if_matches (sel : Selector) (p : Props) : option unit :=
  if matches sel (El 0 p []) then Some tt else None.

Definition inject_once (marker text : string) : M unit :=
  found ← dom_read (getElementById marker);
  match found with
  | Some _ => mret ()
  | None =>
      style ← dom_new (createElement "style");
      dom (on_props (Node style) (with_id marker)) ;;
      dom (on_props (Node style) (with_text text)) ;;
      dom (appendChild Head style)
  end.

(** The two inline styles [createRipple] writes on the button. *)
Definition lit (p : Props) : Props :=
  style_set "overflow" (Css "hidden") (style_set "position" (Css "relative") p).

Definition ripple_node (event : Event) (b : nid) (d : Document) : Elem :=
  let r := match props <$> lookup_node b d with
           | Some p => rect p
           | None => zero_rect
           end in
  let size := fmax (rect_width r) (rect_height r) in
  let x := fsub (fsub (clientX event) (rect_left r)) (fhalf size) in
  let y := fsub (fsub (clientY event) (rect_top r)) (fhalf size) in
  El (next_id d) (with_style (ripple_style size x y) (blank "span")) [].

Definition rippled (event : Event) (b : nid) (d : Document) : Document :=
  let R := ripple_node event b d in
  let d1 := inject "ripple-styles" ripple_keyframes
              (mkDocument (doc_head d) (doc_body d) (detached d ++ [R]) (S (next_id d))) in
  let f := fun e => update_kids b (fun ks => ks ++ [R]) (update_props b lit e) in
  mkDocument (f (doc_head d1)) (f (doc_body d)) (List.map f (detached d)) (next_id d1).


(** The world right after a click on the call-to-action button [b]. *)
Definition cta_clicked (e : Event) (b : nid) (w : World) : World :=
  set_timers (timers w ++ [((now w + 600)%Z, CbRippleRemove (next_id (document w)));
                           ((now w + 300)%Z, CbShowDemoModal)])
    (set_document (rippled e b (document w)) w).

(** The two operations that inject a style element. *)
Inductive StyleUse : Type :=
  | UseModalStyles
  | UseRipple (event : Event) (button : nid).

Definition style_use (u : StyleUse) : M unit :=
  match u with
  | UseModalStyles => addModalStyles
  | UseRipple event button => createRipple event button
  end.

Definition style_uses (us : list StyleUse) (w : World) : World :=
  List.fold_left (fun w u => state (style_use u) w) us w.

(** The button of a ripple is a node that exists by the identity [m]. *)
Definition button_below (m : nid) (u : StyleUse) : Prop :=
  match u with
  | UseModalStyles => True
  | UseRipple _ button => button < m
  end.

(** The marker ids of the style elements in the document, in tree order. *)
Definition injected_styles (d : Document) : list (option string) :=
  seen (fun p => if String.eqb (tagName p) "style" then Some (elem_id p) else None) d.

(** The world right after [closeModal] on [o]. *)
Definition closing (o : nid) (w : World) : World :=
  set_timers (timers w ++ [((now w + 300)%Z, CbCloseFinish o)])
    (set_document (on_props (Node o) (remove_class "active") (document w)) w).



Definition href_of (link : nid) (w : World) : string :=
  match props <$> lookup_node link (document w) with
  | Some p => match href p with Some h => h | None => "null" end
  | None => "null"
  end.

Definition top_of (t : nid) (w : World) : float64 :=
  rect_top (match props <$> lookup_node t (document w) with
            | Some p => rect p
            | None => zero_rect
            end).

(** What [document.querySelector] returns for the href. *)
Definition selected (select : string -> Document -> Completion (option nid))
    (h : string) (d : Document) : Completion (option nid) :=
  match h with
  | String "#"%char name => if css_ident name then Ok (getElementById name d) else select h d
  | _ => select h d
  end.

(** [elementPosition + window.pageYOffset - headerOffset] *)
Definition destination (t : nid) (w : World) : float64 :=
  fsub (fadd (top_of t w) (pageYOffset w)) (ofZ 80).

Local Open Scope Z_scope.

(** What happens to the page over time, as far as reveals go: the browser
    delivers a batch of intersection entries, or time passes. *)
Inductive Step : Type :=
  | Notify (entries : list Entry)
  | Wait (dt : Z).

Definition step (s : Step) (w : World) : World :=
  match s with
  | Notify entries => notify entries w
  | Wait dt => advance dt w
  end.

Definition run (steps : list Step) (w : World) : World :=
  List.fold_left (fun w s => step s w) steps w.

Definition props_of (e : nid) (w : World) : option Props :=
  props <$> lookup_node e (document w).





Definition reports (e : nid) (entries : list Entry) : bool :=
  existsb (fun x => (target x =? e)%nat && isIntersecting x) entries.












Definition later (s : Step) (t : Z) : Z :=
  match s with
  | Notify _ => t
  | Wait dt => t + Z.max 0 dt
  end.



End Shapes.

(** * Scenes

    More of the vocabulary: the page as the initialisers leave it, a dialog
    with its panel, the confirmation panel, and the events used below. *)

Module Scenes.
Import F64 Dom Browser Script Shapes.
Local Open Scope nat_scope.

(** No listener for events of type [ty] is registered, on any target. *)
Definition no_listener_for (ty : EventType) (w : World) : bool :=
  forallb (fun r => negb (same_type (snd (fst r)) ty)) (listeners w).

(** A scroll event, as the window receives it. *)
Definition scroll_event : Event := mkEvent Scroll OnWindow (ofZ 0) (ofZ 0) "".

(** The window scrolled to the vertical offset [y]. *)
Definition at_offset (y : float64) (w : World) : World :=
  mkWorld (document w) (now w) (timers w) (frames w) (listeners w) (observed w)
          (header_observed w) y (lastScroll w) (scrolled_to w)
          (default_prevented w) (uncaught w) (history w).

(** The element tree with every inline style dropped. *)
Fixpoint unstyled (e : Elem) : Elem :=
  match e with
  | El i p ks => El i (with_style ∅ p) (List.map unstyled ks)
  end.

(** The three inline styles a section header starts with. *)
Definition hide (p : Props) : Props :=
  style_set "transition" (Css "all 0.6s ease")
    (style_set "transform" (Css "translateY(30px)")
       (style_set "opacity" (Css "0") p)).

(** [observe] on a list of targets: one more target unless it is there. *)
Definition watch (acc : list nid) (n : nid) : list nid :=
  if mem n acc then acc else acc ++ [n].

(** The document with the headers hidden, in the order given. *)
Definition hidden (headers : list nid) (d : Document) : Document :=
  List.fold_left (fun d h => on_props (Node h) hide d) headers d.

(** The listener of a call-to-action button, if the button exists. *)
Definition cta_wiring (o : option nid) : list (EventTarget * EventType * Listener) :=
  match o with
  | Some b => [(OnNode b, Click, OnCtaClick b)]
  | None => []
  end.

(** The listener of the video button, if the button exists. *)
Definition video_wiring (o : option nid) : list (EventTarget * EventType * Listener) :=
  match o with
  | Some v => [(OnNode v, Click, OnVideoClick)]
  | None => []
  end.

(** [g] changes inline styles and nothing else. *)
Definition style_only (g : Props -> Props) : Prop :=
  forall p, with_style ∅ (g p) = with_style ∅ p.

(** The [click()] a handler can call from inside a dispatch. *)
Definition nested_click (select : string -> Document -> Completion (option nid)) (fuel : nat)
    : nid -> M unit :=
  fun n w1 =>
    let w2 := dispatch select fuel (click_event n) (set_default_prevented false w1) in
    (set_default_prevented (default_prevented w1) w2, Ok ()).

(** The two inline styles that show a section header. *)
Definition show (p : Props) : Props :=
  style_set "transform" (Css "translateY(0)") (style_set "opacity" (Css "1") p).

(** What the callback of the second observer makes of one entry. *)
Definition shown_entry (x : Entry) (w : World) : World :=
  if isIntersecting x then
    set_header_observed (List.filter (fun y => negb (Nat.eqb (target x) y)) (header_observed w))
      (set_document (on_props (Node (target x)) show (document w)) w)
  else w.

(** No element carries an inline click handler. *)
Definition no_inline (d : Document) : bool :=
  forallb (fun e => match onclick (props e) with None => true | Some _ => false end)
          (all_nodes d).

(** Every click listener sits on an element below [m] other than the body;
    none on the document or the window. *)
Definition clicks_on_elements (m : nid) (body : nid)
    (ls : list (EventTarget * EventType * Listener)) : bool :=
  forallb (fun r => match fst r with
                    | (OnNode n, Click) => (n <? m) && negb (n =? body)
                    | (_, Click) => false
                    | _ => true
                    end) ls.

(** The dialog as shown: right after the open, or after the animation frame
    that follows it. *)
Definition shown (framed : bool) (w : World) : World :=
  if framed then animation_frame w else w.

(** A document whose body ends with an overlay that holds one panel. *)
Definition with_panel (H : Elem) (bi : nid) (bp : Props) (ks : list Elem)
    (o : nid) (op : Props) (c : nid) (cp : Props) (cks : list Elem)
    (dt : list Elem) (m : nid) : Document :=
  mkDocument H (El bi bp (ks ++ [El o op [El c cp cks]])) dt m.

(** The close control [showSuccessMessage] creates. *)
Definition new_close_control (n : nid) : Elem :=
  El n (with_text "&times;" (with_classList ["modal-close"] (blank "button"))) [].

(** The confirmation panel in place of the form, with its new close
    control [n] first and the markup numbered from [m]. *)
Definition confirmation (m n : nid) : list Elem :=
  new_close_control n :: List.map (shift m) success_html.

(** What the panel of the information-request dialog holds at first. *)
Definition demo_panel_children : list Elem :=
  match demo_modal_html with
  | [El _ _ ks] => ks
  | _ => []
  end.

(** The document once the information-request dialog is open and its
    submit handler has run. *)
Definition confirmed (d : Document) : Document :=
  let o := next_id d in
  let D := opened demo_modal_html d in
  let m := next_id D in
  with_panel (doc_head D) (nid_of (doc_body d))
             (style_set "overflow" (Css "hidden") (props (doc_body d))) (kids (doc_body d))
             o (with_classList ["modal-overlay"] (blank "div"))
             (S o) (tagged "div" ["modal-content"] "")
             (confirmation m (m + 5))
             (detached d ++ List.map (shift (S o)) demo_panel_children) (S (m + 5)).

(** The element carries no inline click handler. *)
Definition no_handler (e : Elem) : bool :=
  match onclick (props e) with None => true | Some _ => false end.

(** A listener record for a click on [t]. *)
Definition on_target (t : EventTarget) (r : EventTarget * EventType * Listener) : bool :=
  same_target (fst (fst r)) t && same_type (snd (fst r)) Click.

(** A submit event on the node [o]. *)
Definition submit_event (o : nid) : Event := mkEvent Submit (OnNode o) (ofZ 0) (ofZ 0) "".

End Scenes.

(** * debounce

    [debounce(func, wait)] returns a closure over one variable, [timeout].
    The model is the state of one such closure together with the timers it
    has set: [func] acts on a state of its own and does not call the
    debounced function or touch its timers. *)

Module Debounce.
Import F64 Dom Browser Script.

Section Closure.

Context {A St : Type}.
Variable func : A -> St -> St.
Variable wait : float64.

(** A pending [later]: the timer's id, its due time, and the [args] the
    closure captured. *)
Record Later := mkLater {
  later_id : nat;
  later_due : Z;
  later_args : A
}.

Record Debounced := mkDebounced {
  clock : Z;
  pending_laters : list Later;
  next_timer : nat;
  timeout : option nat;
  user : St
}.

(** [clearTimeout(id)]; an [undefined] id, or the id of a timer that has
    fired or was cleared, cancels nothing. *)
Definition clearTimeout (id : option nat) (st : Debounced) : Debounced :=
  match id with
  | Some i =>
      mkDebounced (clock st)
                  (List.filter (fun t => negb (Nat.eqb (later_id t) i)) (pending_laters st))
                  (next_timer st) (timeout st) (user st)
  | None => st
  end.

(** [timeout = setTimeout(later, wait)] *)
Definition set_later (args : A) (st : Debounced) : Debounced :=
  mkDebounced (clock st)
              (pending_laters st ++ [mkLater (next_timer st) (clock st + timer_delay wait) args])
              (S (next_timer st)) (Some (next_timer st)) (user st).

(** The returned closure, called with [args]. *)
Definition executedFunction (args : A) (st : Debounced) : Debounced :=
  set_later args (clearTimeout (timeout st) st).

(** [later]: [clearTimeout(timeout); func(...args)]. *)
Definition later (args : A) (st : Debounced) : Debounced :=
  let st1 := clearTimeout (timeout st) st in
  mkDebounced (clock st1) (pending_laters st1) (next_timer st1) (timeout st1)
              (func args (user st1)).

(** The timer to fire next by [deadline]: the earliest due, the oldest
    among equals. *)
Fixpoint earliest (l : list Later) : option Later :=
  match l with
  | [] => None
  | t :: r =>
      match earliest r with
      | Some u => if later_due u <? later_due t then Some u else Some t
      | None => Some t
      end
  end.

(** The timer that fires next, if one is due by [deadline]. *)
Definition next_due (deadline : Z) (st : Debounced) : option Later :=
  earliest (List.filter (fun t => later_due t <=? deadline) (pending_laters st)).

(** Run the timers due by [deadline], in order; one unit of fuel for each
    timer pending at the start, as [later] sets none. *)
Fixpoint fire_due (fuel : nat) (deadline : Z) (st : Debounced) : Debounced :=
  match fuel with
  | O => st
  | S fuel' =>
      match next_due deadline st with
      | Some t =>
          let st1 := mkDebounced (Z.max (clock st) (later_due t))
                       (List.filter (fun u => negb (Nat.eqb (later_id u) (later_id t)))
                                    (pending_laters st))
                       (next_timer st) (timeout st) (user st) in
          fire_due fuel' deadline (later (later_args t) st1)
      | None => st
      end
  end.

(** Let [dt] time units pass. *)
Definition elapse (dt : Z) (st : Debounced) : Debounced :=
  let deadline := clock st + Z.max 0 dt in
  let st1 := fire_due (length (pending_laters st)) deadline st in
  mkDebounced deadline (pending_laters st1) (next_timer st1) (timeout st1) (user st1).

(** [debounce(func, wait)] just returned: no timer, [timeout] undefined. *)
Definition debounce (now : Z) (s : St) : Debounced := mkDebounced now [] 0 None s.

(** What happens to the closure: it is called, or time passes. *)
Inductive Use : Type :=
  | Call (args : A)
  | Idle (dt : Z).

Definition use (u : Use) (st : Debounced) : Debounced :=
  match u with
  | Call args => executedFunction args st
  | Idle dt => elapse dt st
  end.

Definition uses (us : list Use) (st : Debounced) : Debounced :=
  List.fold_left (fun st u => use u st) us st.

(** The trailing-edge reading of the same uses: one slot holds the latest
    call and when it is due. *)
Definition trailing_use (u : Use) (x : Z * option (Z * A) * St) : Z * option (Z * A) * St :=
  let '(t, slot, s) := x in
  match u with
  | Call args => (t, Some (t + timer_delay wait, args), s)
  | Idle dt =>
      let t' := t + Z.max 0 dt in
      match slot with
      | Some (due, args) => if due <=? t' then (t', None, func args s) else (t', slot, s)
      | None => (t', None, s)
      end
  end.

Definition trailing (us : list Use) (t : Z) (s : St) : Z * option (Z * A) * St :=
  List.fold_left (fun x u => trailing_use u x) us (t, None, s).

(** The closure and its timers stand for the slot [x]. *)
Definition stands_for (st : Debounced) (x : Z * option (Z * A) * St) : Prop :=
  let '(t, slot, s) := x in
  clock st = t /\ user st = s
  /\ match slot with
     | Some (due, args) =>
         exists id, pending_laters st = [mkLater id due args] /\ timeout st = Some id
     | None => pending_laters st = []
     end.

End Closure.

End Debounce.

(** * Properties *)

(** ** Trees and fresh identities *)

Module Trees.

Import F64 Dom Shapes.

Local Open Scope nat_scope.

Lemma Elem_ind (P : Elem -> Prop) :
  (forall n p ks, Forall P ks -> P (El n p ks)) -> forall e, P e.
Proof.
  intros step. fix IH 1. intros [n p ks]. apply step.
  induction ks as [|k ks IHks]; constructor; [apply IH | exact IHks].
Qed.

Lemma Forall_flat_map {A B} (P : B -> Prop) (f : A -> list B) (l : list A) :
  Forall P (flat_map f l) <-> Forall (fun a => Forall P (f a)) l.
Proof.
  induction l as [|a l IH]; simpl.
  - split; constructor.
  - rewrite List.Forall_app, IH. split.
    + intros [Ha Hl]. constructor; assumption.
    + intros H. inversion H; subst. split; assumption.
Qed.

Lemma absent_El n i p ks :
  absent n (El i p ks) <-> i <> n /\ Forall (absent n) ks.
Proof.
  unfold absent. simpl. rewrite List.Forall_cons_iff, Forall_flat_map. reflexivity.
Qed.

Lemma bounded_El m i p ks :
  bounded m (El i p ks) <-> i < m /\ Forall (bounded m) ks.
Proof.
  unfold bounded. simpl. rewrite List.Forall_cons_iff, Forall_flat_map. reflexivity.
Qed.

Lemma bounded_absent m n e : bounded m e -> m <= n -> absent n e.
Proof.
  unfold bounded, absent. intros H Hle.
  eapply List.Forall_impl; [|exact H]. simpl. intros x Hx. lia.
Qed.

Lemma bounded_mono m m' e : bounded m e -> m <= m' -> bounded m' e.
Proof.
  unfold bounded. intros H Hle.
  eapply List.Forall_impl; [|exact H]. simpl. intros x Hx. lia.
Qed.

Lemma Forall_bounded_absent m n l :
  Forall (bounded m) l -> m <= n -> Forall (absent n) l.
Proof.
  intros H Hle. eapply List.Forall_impl; [|exact H].
  intros e He. eapply bounded_absent; eassumption.
Qed.

Lemma Forall_bounded_mono m m' l :
  Forall (bounded m) l -> m <= m' -> Forall (bounded m') l.
Proof.
  intros H Hle. eapply List.Forall_impl; [|exact H].
  intros e He. eapply bounded_mono; eassumption.
Qed.

Lemma map_id_Forall {A} (f : A -> A) (P : A -> Prop) (l : list A) :
  Forall (fun a => P a -> f a = a) l -> Forall P l -> List.map f l = l.
Proof.
  induction 1 as [|a l Ha _ IH]; intros HP; simpl; [reflexivity|].
  inversion HP; subst. rewrite Ha, IH by assumption. reflexivity.
Qed.

Lemma update_props_absent n g e : absent n e -> update_props n g e = e.
Proof.
  induction e as [i p ks IH] using Elem_ind. rewrite absent_El. intros [Hi Hks].
  simpl. apply Nat.eqb_neq in Hi. rewrite Hi. f_equal.
  eapply map_id_Forall; eassumption.
Qed.

Lemma update_kids_absent n h e : absent n e -> update_kids n h e = e.
Proof.
  induction e as [i p ks IH] using Elem_ind. rewrite absent_El. intros [Hi Hks].
  simpl. apply Nat.eqb_neq in Hi. rewrite Hi. f_equal.
  eapply map_id_Forall; eassumption.
Qed.

Lemma prune_forest_absent n l :
  Forall (fun e => absent n e -> prune n e = e) l ->
  Forall (absent n) l -> prune_forest n l = l.
Proof.
  unfold prune_forest.
  induction 1 as [|a l Ha _ IH]; intros HP; simpl; [reflexivity|].
  inversion HP as [|? ? Hab Hl]; subst.
  assert (Hn : nid_of a <> n).
  { destruct a as [i p ks]. apply absent_El in Hab. simpl. tauto. }
  apply Nat.eqb_neq in Hn. rewrite Hn. simpl. rewrite Ha, IH by assumption.
  reflexivity.
Qed.

Lemma prune_absent n e : absent n e -> prune n e = e.
Proof.
  induction e as [i p ks IH] using Elem_ind. rewrite absent_El. intros [Hi Hks].
  simpl. f_equal. apply prune_forest_absent; assumption.
Qed.

Lemma prune_forest_absent' n l : Forall (absent n) l -> prune_forest n l = l.
Proof.
  intros H. apply prune_forest_absent; [|exact H].
  apply List.Forall_forall. intros e _. apply prune_absent.
Qed.

Lemma map_update_props_absent n g l :
  Forall (absent n) l -> List.map (update_props n g) l = l.
Proof.
  intros H. eapply map_id_Forall; [|exact H].
  apply List.Forall_forall. intros e _. apply update_props_absent.
Qed.

Lemma map_update_kids_absent n h l :
  Forall (absent n) l -> List.map (update_kids n h) l = l.
Proof.
  intros H. eapply map_id_Forall; [|exact H].
  apply List.Forall_forall. intros e _. apply update_kids_absent.
Qed.

Lemma prune_forest_app n l1 l2 :
  prune_forest n (l1 ++ l2) = prune_forest n l1 ++ prune_forest n l2.
Proof. unfold prune_forest. apply List.flat_map_app. Qed.

Lemma find_none_Forall {A} (f : A -> bool) (l : list A) :
  Forall (fun a => f a = false) l -> List.find f l = None.
Proof.
  induction 1 as [|a l Ha _ IH]; simpl; [reflexivity|]. rewrite Ha. exact IH.
Qed.

Lemma find_app {A} (f : A -> bool) (l1 l2 : list A) :
  List.find f (l1 ++ l2) =
  match List.find f l1 with Some a => Some a | None => List.find f l2 end.
Proof.
  induction l1 as [|a l1 IH]; simpl; [reflexivity|].
  destruct (f a); [reflexivity | exact IH].
Qed.

Lemma find_absent n e : absent n e -> List.find (is_node n) (flatten e) = None.
Proof.
  intros H. apply find_none_Forall. eapply List.Forall_impl; [|exact H].
  simpl. intros x Hx. unfold is_node. apply Nat.eqb_neq. exact Hx.
Qed.

Lemma find_absent_forest n l :
  Forall (absent n) l -> List.find (is_node n) (flat_map flatten l) = None.
Proof.
  intros H. apply find_none_Forall. apply Forall_flat_map.
  eapply List.Forall_impl; [|exact H]. intros e He.
  eapply List.Forall_impl; [|exact He]. simpl. intros x Hx.
  unfold is_node. apply Nat.eqb_neq. exact Hx.
Qed.

(** A fragment numbered below [s] is, once shifted by [k], numbered from
    [k] and below [s + k]. *)
Lemma shift_bounded s k e :
  bounded s e -> bounded (s + k) (shift k e) /\ Forall (fun x => k <= nid_of x) (flatten (shift k e)).
Proof.
  induction e as [i p ks IH] using Elem_ind. rewrite bounded_El. intros [Hi Hks].
  simpl. split.
  - apply bounded_El. split; [lia|].
    apply List.Forall_map. rewrite List.Forall_forall in *. intros x Hx.
    apply IH; auto.
  - constructor; [simpl; lia|]. apply Forall_flat_map, List.Forall_map.
    rewrite List.Forall_forall in *. intros x Hx. apply IH; auto.
Qed.

Lemma well_formed_parts d :
  well_formed d ->
  bounded (next_id d) (doc_head d) /\ bounded (next_id d) (doc_body d)
  /\ Forall (bounded (next_id d)) (detached d).
Proof.
  unfold well_formed, all_nodes, document_order, bounded.
  rewrite List.forallb_forall. intros H.
  assert (G : forall l, (forall x, In x l -> In x (all_nodes d)) ->
                        Forall (fun x => nid_of x < next_id d) l).
  { intros l Hl. apply List.Forall_forall. intros x Hx. apply Nat.ltb_lt, H.
    apply Hl in Hx. exact Hx. }
  unfold all_nodes, document_order in G.
  repeat split.
  - apply G. intros x Hx. rewrite !List.in_app_iff. auto.
  - apply G. intros x Hx. rewrite !List.in_app_iff. auto.
  - apply List.Forall_forall. intros e He. apply G. intros x Hx.
    rewrite !List.in_app_iff. right. apply List.in_flat_map. eauto.
Qed.

End Trees.

(** ** Dialogs and ripples, step by step *)

Module Steps.
Import F64 Dom Browser Script Shapes Trees.
Local Open Scope nat_scope.

Section Created.

Variables (hd bd : Elem) (dt : list Elem) (n : nid).

Hypothesis Hh : absent n hd.

Hypothesis Hb : absent n bd.

Hypothesis Hd : Forall (absent n) dt.

Lemma lookup_created p ks m :
  lookup_node n (mkDocument hd bd (dt ++ [El n p ks]) m) = Some (El n p ks).
Proof.
  unfold lookup_node, all_nodes, document_order. simpl.
  rewrite !find_app, (find_absent n hd), (find_absent n bd) by assumption.
  rewrite List.flat_map_app, find_app, find_absent_forest by assumption.
  simpl. unfold is_node at 1. simpl. rewrite Nat.eqb_refl. reflexivity.
Qed.

Lemma on_props_created g p m :
  on_props (Node n) g (mkDocument hd bd (dt ++ [El n p []]) m)
  = mkDocument hd bd (dt ++ [El n (g p) []]) m.
Proof.
  unfold on_props. simpl.
  rewrite !update_props_absent by assumption.
  rewrite List.map_app, map_update_props_absent by assumption.
  simpl. rewrite Nat.eqb_refl. reflexivity.
Qed.

Lemma set_innerHTML_created markup p m :
  set_innerHTML n markup (mkDocument hd bd (dt ++ [El n p []]) m)
  = mkDocument hd bd (dt ++ [El n p (List.map (shift m) markup)]) (m + size markup).
Proof.
  unfold set_innerHTML. rewrite lookup_created. unfold on_kids. simpl.
  rewrite !update_kids_absent by assumption.
  rewrite List.map_app, map_update_kids_absent by assumption.
  simpl. rewrite Nat.eqb_refl, List.app_nil_r. reflexivity.
Qed.

Lemma appendChild_Head_created p ks m :
  appendChild Head n (mkDocument hd bd (dt ++ [El n p ks]) m)
  = mkDocument (El (nid_of hd) (props hd) (kids hd ++ [El n p ks])) bd dt m.
Proof.
  unfold appendChild. rewrite lookup_created. unfold unlink, on_kids. simpl.
  rewrite !prune_absent by assumption.
  rewrite prune_forest_app, prune_forest_absent' by assumption.
  simpl. rewrite Nat.eqb_refl. simpl. rewrite List.app_nil_r.
  destruct hd; reflexivity.
Qed.

Lemma appendChild_Body_created p ks m :
  appendChild Body n (mkDocument hd bd (dt ++ [El n p ks]) m)
  = mkDocument hd (El (nid_of bd) (props bd) (kids bd ++ [El n p ks])) dt m.
Proof.
  unfold appendChild. rewrite lookup_created. unfold unlink, on_kids. simpl.
  rewrite !prune_absent by assumption.
  rewrite prune_forest_app, prune_forest_absent' by assumption.
  simpl. rewrite Nat.eqb_refl. simpl. rewrite List.app_nil_r.
  destruct bd; reflexivity.
Qed.

(** The node is found again as the last child of the body. *)
Lemma lookup_last_in_body p ks bp m :
  lookup_node n (mkDocument hd (El (nid_of bd) bp (kids bd ++ [El n p ks])) dt m)
  = Some (El n p ks).
Proof.
  unfold lookup_node, all_nodes, document_order. simpl.
  rewrite !find_app, (find_absent n hd) by assumption.
  destruct bd as [bi bp0 bks]. apply absent_El in Hb. destruct Hb as [Hbi Hbks].
  simpl. unfold is_node at 1. simpl. apply Nat.eqb_neq in Hbi. rewrite Hbi.
  rewrite List.flat_map_app, !find_app, find_absent_forest by assumption.
  simpl. unfold is_node at 1. simpl. rewrite Nat.eqb_refl. reflexivity.
Qed.

End Created.

Lemma new_style_injected marker text d :
  parts_bounded d ->
  appendChild Head (next_id d)
    (on_props (Node (next_id d)) (with_text text)
       (on_props (Node (next_id d)) (with_id marker)
          (fst (createElement "style" d))))
  = mkDocument (El (nid_of (doc_head d)) (props (doc_head d))
                   (kids (doc_head d) ++ [style_node (next_id d) marker text]))
               (doc_body d) (detached d) (S (next_id d)).
Proof.
  destruct d as [hd bd dt m]. intros (Hh & Hb & Hd).
  unfold createElement. cbn [fst doc_head doc_body detached next_id] in *.
  assert (Ah : absent m hd) by (eapply bounded_absent; eauto).
  assert (Ab : absent m bd) by (eapply bounded_absent; eauto).
  assert (Ad : Forall (absent m) dt) by (eapply Forall_bounded_absent; eauto).
  rewrite !on_props_created by assumption.
  rewrite appendChild_Head_created by assumption. reflexivity.
Qed.

Lemma addModalStyles_inject w :
  parts_bounded (document w) ->
  addModalStyles w = (set_document (inject "modal-styles" modal_stylesheet (document w)) w, Ok ()).
Proof.
  intros H. unfold addModalStyles, inject, mbind, M_bind, dom_read.
  destruct (getElementById "modal-styles" (document w)) eqn:E.
  - unfold mret, M_ret. destruct w as [[] ]; reflexivity.
  - unfold dom_new, dom. 
    pose proof (new_style_injected "modal-styles" modal_stylesheet (document w) H) as G.
    destruct w as [d]. cbn [document set_document] in *.
    unfold createElement in *. cbn [fst] in G. unfold add_to_head.
    cbn [document set_document now timers frames listeners observed header_observed
         pageYOffset lastScroll scrolled_to default_prevented uncaught history
         doc_head doc_body detached next_id].
    rewrite G. reflexivity.
Qed.

Lemma overlay_node_bounded nx markup :
  Forall (bounded (size markup)) markup ->
  bounded (S nx + size markup) (overlay_node nx markup).
Proof.
  intros H. apply bounded_El. split; [lia|].
  apply List.Forall_map. eapply List.Forall_impl; [|exact H].
  intros e He. eapply bounded_mono; [apply shift_bounded; exact He | lia].
Qed.

Lemma parts_bounded_with_overlay d markup :
  parts_bounded d -> Forall (bounded (size markup)) markup ->
  parts_bounded (mkDocument (doc_head d) (doc_body d)
                            (detached d ++ [overlay_node (next_id d) markup])
                            (S (next_id d) + size markup)).
Proof.
  intros (Hh & Hb & Hd) Hm. unfold parts_bounded. simpl.
  repeat split.
  - eapply bounded_mono; [exact Hh | lia].
  - eapply bounded_mono; [exact Hb | lia].
  - apply List.Forall_app. split.
    + eapply Forall_bounded_mono; [exact Hd | lia].
    + constructor; [|constructor]. apply overlay_node_bounded. exact Hm.
Qed.

Lemma inject_head_absent marker text d n :
  absent n (doc_head d) -> n < next_id d ->
  absent n (doc_head (inject marker text d)).
Proof.
  intros H Hn. unfold inject. destruct (getElementById marker d); [exact H|].
  simpl. destruct (doc_head d) as [i p ks]. simpl.
  apply absent_El in H. destruct H as [Hi Hks]. apply absent_El. split; [exact Hi|].
  apply List.Forall_app. split; [exact Hks|].
  constructor; [|constructor]. apply absent_El. split; [lia | constructor].
Qed.

Lemma inject_body marker text d : doc_body (inject marker text d) = doc_body d.
Proof. unfold inject. destruct (getElementById marker d); reflexivity. Qed.

Lemma inject_detached marker text d : detached (inject marker text d) = detached d.
Proof. unfold inject. destruct (getElementById marker d); reflexivity. Qed.

Lemma open_steps markup d :
  parts_bounded d -> Forall (bounded (size markup)) markup ->
  on_props Body (style_set "overflow" (Css "hidden"))
    (appendChild Body (next_id d)
       (inject "modal-styles" modal_stylesheet
          (set_innerHTML (next_id d) markup
             (on_props (Node (next_id d)) (with_classList ["modal-overlay"])
                (fst (createElement "div" d))))))
  = opened markup d.
Proof.
  intros Hd Hm. destruct Hd as (Hh & Hb & Hdt).
  assert (Ah : absent (next_id d) (doc_head d)) by (eapply bounded_absent; eauto).
  assert (Ab : absent (next_id d) (doc_body d)) by (eapply bounded_absent; eauto).
  assert (Ad : Forall (absent (next_id d)) (detached d))
    by (eapply Forall_bounded_absent; eauto).
  unfold createElement. cbn [fst].
  rewrite on_props_created, set_innerHTML_created by assumption.
  unfold opened. fold (overlay_node (next_id d) markup).
  set (d0 := mkDocument (doc_head d) (doc_body d)
                        (detached d ++ [overlay_node (next_id d) markup])
                        (S (next_id d) + size markup)).
  set (d1 := inject "modal-styles" modal_stylesheet d0).
  assert (A1 : absent (next_id d) (doc_head d1)).
  { apply inject_head_absent; [exact Ah | simpl; lia]. }
  assert (E : d1 = mkDocument (doc_head d1) (doc_body d) (detached d ++ [overlay_node (next_id d) markup]) (next_id d1)).
  { destruct d1 eqn:E1. simpl.
    pose proof (inject_body "modal-styles" modal_stylesheet d0) as B.
    pose proof (inject_detached "modal-styles" modal_stylesheet d0) as D.
    fold d1 in B, D. rewrite E1 in B, D. simpl in B, D. subst. reflexivity. }
  rewrite E. unfold overlay_node at 1.
  rewrite appendChild_Body_created by assumption.
  unfold on_props. cbn [doc_head doc_body detached next_id]. reflexivity.
Qed.

Lemma query_in_opened markup d sel :
  parts_bounded d ->
  elem_querySelector (next_id d) sel (opened markup d)
  = nid_of <$> List.find (matches sel)
                 (flat_map flatten (List.map (shift (S (next_id d))) markup)).
Proof.
  intros (Hh & Hb & Hdt).
  assert (Ah : absent (next_id d) (doc_head d)) by (eapply bounded_absent; eauto).
  assert (Ab : absent (next_id d) (doc_body d)) by (eapply bounded_absent; eauto).
  assert (Ad : Forall (absent (next_id d)) (detached d))
    by (eapply Forall_bounded_absent; eauto).
  unfold elem_querySelector, opened, overlay_node.
  cbv zeta.
  rewrite lookup_last_in_body; try assumption.
  - reflexivity.
  - apply inject_head_absent; [exact Ah | simpl; lia].
Qed.

Lemma bounded_check m l :
  forallb (fun e => forallb (fun x => nid_of x <? m) (flatten e)) l = true ->
  Forall (bounded m) l.
Proof.
  rewrite List.forallb_forall. intros H. apply List.Forall_forall. intros e He.
  specialize (H e He). rewrite List.forallb_forall in H.
  apply List.Forall_forall. intros x Hx. apply Nat.ltb_lt, H, Hx.
Qed.

Lemma video_markup_bounded : Forall (bounded (size video_modal_html)) video_modal_html.
Proof. apply bounded_check. reflexivity. Qed.

Lemma demo_markup_bounded : Forall (bounded (size demo_modal_html)) demo_modal_html.
Proof. apply bounded_check. reflexivity. Qed.

Lemma showVideoModal_opened w :
  parts_bounded (document w) ->
  showVideoModal w = (opened_world video_modal_html w, Ok ()).
Proof.
  intros H.
  pose proof (open_steps video_modal_html (document w) H video_markup_bounded) as Hopen.
  pose proof (query_in_opened video_modal_html (document w) (ByClass "modal-close") H) as Hq.
  pose proof (parts_bounded_with_overlay (document w) video_modal_html H video_markup_bounded) as Hpb.
  assert (Hin : set_innerHTML (next_id (document w)) video_modal_html
       (on_props (Node (next_id (document w))) (with_classList ["modal-overlay"])
          (fst (createElement "div" (document w))))
     = mkDocument (doc_head (document w)) (doc_body (document w))
         (detached (document w) ++ [overlay_node (next_id (document w)) video_modal_html])
         (S (next_id (document w)) + size video_modal_html)).
  { destruct H as (Hh & Hb & Hdt).
    unfold createElement. cbn [fst].
    rewrite on_props_created, set_innerHTML_created;
      try (eapply bounded_absent; eauto); try (eapply Forall_bounded_absent; eauto).
    reflexivity. }
  unfold showVideoModal, mbind, M_bind.
  unfold dom_new, dom, dom_read, requestAnimationFrame, addEventListener.
  destruct w as [d t tm fr ls ob hob py lsc sc dp un hi].
  world_simpl. cbn [document] in *.
  change (createElement "div" d) with (fst (createElement "div" d), next_id d).
  cbv iota beta. world_simpl.
  rewrite addModalStyles_inject; world_simpl; rewrite Hin; [|exact Hpb].
  rewrite <- Hin, Hopen, Hq.
  change (nid_of <$> List.find (matches (ByClass "modal-close"))
            (flat_map flatten (List.map (shift (S (next_id d))) video_modal_html)))
    with (Some (1 + S (next_id d))).
  unfold deref, mret, M_ret, opened_world. world_simpl.
  rewrite <- List.app_assoc. reflexivity.
Qed.

Lemma showDemoModal_opened w :
  parts_bounded (document w) ->
  showDemoModal w = (opened_world demo_modal_html w, Throw TypeError).
Proof.
  intros H.
  pose proof (open_steps demo_modal_html (document w) H demo_markup_bounded) as Hopen.
  pose proof (query_in_opened demo_modal_html (document w) (ByClass "modal-close") H) as Hq.
  pose proof (query_in_opened demo_modal_html (document w) (ById "demoForm") H) as Hf.
  pose proof (parts_bounded_with_overlay (document w) demo_modal_html H demo_markup_bounded) as Hpb.
  assert (Hin : set_innerHTML (next_id (document w)) demo_modal_html
       (on_props (Node (next_id (document w))) (with_classList ["modal-overlay"])
          (fst (createElement "div" (document w))))
     = mkDocument (doc_head (document w)) (doc_body (document w))
         (detached (document w) ++ [overlay_node (next_id (document w)) demo_modal_html])
         (S (next_id (document w)) + size demo_modal_html)).
  { destruct H as (Hh & Hb & Hdt).
    unfold createElement. cbn [fst].
    rewrite on_props_created, set_innerHTML_created;
      try (eapply bounded_absent; eauto); try (eapply Forall_bounded_absent; eauto).
    reflexivity. }
  unfold showDemoModal, mbind, M_bind.
  unfold dom_new, dom, dom_read, requestAnimationFrame, addEventListener.
  destruct w as [d t tm fr ls ob hob py lsc sc dp un hi].
  world_simpl. cbn [document] in *.
  change (createElement "div" d) with (fst (createElement "div" d), next_id d).
  cbv iota beta. world_simpl.
  rewrite addModalStyles_inject; world_simpl; rewrite Hin; [|exact Hpb].
  rewrite <- Hin, Hopen, Hq.
  change (nid_of <$> List.find (matches (ByClass "modal-close"))
            (flat_map flatten (List.map (shift (S (next_id d))) demo_modal_html)))
    with (Some (1 + S (next_id d))).
  unfold deref at 1. unfold mret, M_ret. world_simpl.
  rewrite Hf.
  change (nid_of <$> List.find (matches (ById "demoForm"))
            (flat_map flatten (List.map (shift (S (next_id d))) demo_modal_html)))
    with (@None nid).
  unfold deref, throw, opened_world. world_simpl.
  rewrite <- List.app_assoc. reflexivity.
Qed.

(** *** A document with an overlay as the last child of the body *)

Lemma opened_with_overlay markup d :
  opened markup d
  = let d1 := inject "modal-styles" modal_stylesheet
                (mkDocument (doc_head d) (doc_body d)
                   (detached d ++ [overlay_node (next_id d) markup])
                   (S (next_id d) + size markup)) in
    with_overlay (doc_head d1) (style_set "overflow" (Css "hidden") (props (doc_body d)))
                 (overlay_node (next_id d) markup) d (next_id d1).
Proof. reflexivity. Qed.

Section WithOverlay.

Variables (H : Elem) (bp op : Props) (oks : list Elem) (d : Document) (n m : nid).

Hypothesis AH : absent n H.

Hypothesis Ab : absent n (doc_body d).

Hypothesis Ad : Forall (absent n) (detached d).

Hypothesis Ak : Forall (absent n) oks.

Lemma body_parts_absent : nid_of (doc_body d) <> n /\ Forall (absent n) (kids (doc_body d)).
Proof. destruct (doc_body d) as [bi bp0 bks]. apply absent_El in Ab. exact Ab. Qed.

Lemma on_props_overlay g :
  on_props (Node n) g (with_overlay H bp (El n op oks) d m)
  = with_overlay H bp (El n (g op) oks) d m.
Proof.
  destruct body_parts_absent as [Hbi Hbks]. apply Nat.eqb_neq in Hbi.
  unfold on_props, with_overlay. cbn [doc_head doc_body detached next_id].
  rewrite update_props_absent, map_update_props_absent by assumption.
  cbn [update_props]. rewrite Hbi, List.map_app, map_update_props_absent by assumption.
  cbn [List.map update_props]. rewrite Nat.eqb_refl, map_update_props_absent by assumption.
  reflexivity.
Qed.

Lemma lookup_overlay :
  lookup_node n (with_overlay H bp (El n op oks) d m) = Some (El n op oks).
Proof. apply lookup_last_in_body; assumption. Qed.

Lemma remove_overlay :
  remove n (with_overlay H bp (El n op oks) d m)
  = mkDocument H (El (nid_of (doc_body d)) bp (kids (doc_body d)))
               (detached d ++ [El n op oks]) m.
Proof.
  destruct body_parts_absent as [Hbi Hbks]. apply Nat.eqb_neq in Hbi.
  unfold remove. rewrite lookup_overlay.
  assert (Hh : is_node n H = false).
  { destruct H as [hi hp hks]. apply absent_El in AH. unfold is_node. simpl.
    apply Nat.eqb_neq. tauto. }
  unfold with_overlay. cbn [doc_head doc_body detached next_id].
  rewrite Hh. unfold is_node at 1. cbn [nid_of]. rewrite Hbi. cbn [orb].
  unfold unlink. cbn [doc_head doc_body detached next_id prune].
  rewrite prune_absent, prune_forest_absent' by assumption.
  fold (prune_forest n (kids (doc_body d) ++ [El n op oks])).
  rewrite prune_forest_app, prune_forest_absent' by assumption.
  unfold prune_forest at 1. cbn [flat_map nid_of]. rewrite Nat.eqb_refl.
  cbn [app]. rewrite List.app_nil_r. reflexivity.
Qed.

End WithOverlay.

Lemma count_in_El sel i p ks :
  count_in sel (El i p ks) = b2n (matches sel (El i p [])) + count_forest sel ks.
Proof.
  unfold count_in, count_forest. cbn [flatten List.filter].
  change (matches sel (El i p ks)) with (matches sel (El i p [])).
  destruct (matches sel (El i p [])); reflexivity.
Qed.

Lemma count_forest_app sel l1 l2 :
  count_forest sel (l1 ++ l2) = count_forest sel l1 + count_forest sel l2.
Proof.
  unfold count_forest. rewrite List.flat_map_app, List.filter_app, List.length_app.
  reflexivity.
Qed.

Lemma count_forest_one sel e : count_forest sel [e] = count_in sel e.
Proof. unfold count_forest, count_in. cbn [flat_map]. rewrite List.app_nil_r. reflexivity. Qed.

Lemma count_matching_parts sel d :
  count_matching sel d = count_in sel (doc_head d) + count_in sel (doc_body d).
Proof.
  unfold count_matching, document_order, count_in.
  rewrite List.filter_app, List.length_app. reflexivity.
Qed.

Lemma count_in_injected_head sel marker text d :
  matches sel (style_node (next_id d) marker text) = false ->
  count_in sel (doc_head (inject marker text d)) = count_in sel (doc_head d).
Proof.
  intros Hs. unfold inject. destruct (getElementById marker d); [reflexivity|].
  cbn [doc_head add_to_head]. destruct (doc_head d) as [i p ks]. cbn [nid_of props kids].
  rewrite !count_in_El, count_forest_app, count_forest_one.
  unfold count_in at 1. unfold style_node in *. cbn [flatten flat_map List.filter app].
  rewrite Hs. cbn [length]. lia.
Qed.


Lemma shift_absent n k l : n < k -> Forall (absent n) (List.map (shift k) l).
Proof.
  intros Hn. apply List.Forall_map. apply List.Forall_forall. intros e _.
  assert (G : forall e, Forall (fun x => k <= nid_of x) (flatten (shift k e))).
  { induction e0 as [i p ks IH] using Elem_ind. cbn [shift flatten].
    constructor; [cbn; lia|]. apply Forall_flat_map, List.Forall_map. exact IH. }
  unfold absent. eapply List.Forall_impl; [|apply G]. cbn. intros x Hx. lia.
Qed.


(** *** What a query sees *)

Lemma collect_cons {A} (F : Props -> option A) e l :
  collect F (e :: l) = match F (props e) with
                       | Some a => a :: collect F l
                       | None => collect F l
                       end.
Proof. reflexivity. Qed.

Lemma collect_app {A} (F : Props -> option A) l1 l2 :
  collect F (l1 ++ l2) = collect F l1 ++ collect F l2.
Proof. unfold collect. apply omap_app. Qed.

Lemma collect_flat_map {A} (F : Props -> option A) (f g : Elem -> list Elem) l :
  Forall (fun e => collect F (f e) = collect F (g e)) l ->
  collect F (flat_map f l) = collect F (flat_map g l).
Proof.
  induction 1 as [|x l Hx _ IH]; cbn [flat_map]; [reflexivity|].
  rewrite !collect_app, Hx, IH. reflexivity.
Qed.

Lemma flat_map_map {A B C} (f : A -> B) (g : B -> list C) l :
  flat_map g (List.map f l) = flat_map (fun x => g (f x)) l.
Proof. induction l as [|x l IH]; cbn; [reflexivity|]. rewrite IH. reflexivity. Qed.

Lemma collect_update_props {A} (F : Props -> option A) n g e :
  (forall p, F (g p) = F p) ->
  collect F (flatten (update_props n g e)) = collect F (flatten e).
Proof.
  intros HF. induction e as [i p ks IH] using Elem_ind.
  cbn [update_props flatten]. rewrite !collect_cons. cbn [props].
  rewrite flat_map_map, (collect_flat_map F _ flatten ks) by exact IH.
  destruct (i =? n); [rewrite HF|]; reflexivity.
Qed.

Lemma collect_update_kids_append {A} (F : Props -> option A) n R e :
  collect F (flatten R) = [] ->
  collect F (flatten (update_kids n (fun ks => ks ++ [R]) e)) = collect F (flatten e).
Proof.
  intros HR. induction e as [i p ks IH] using Elem_ind.
  cbn [update_kids flatten]. rewrite !collect_cons. cbn [props].
  assert (E : collect F (flat_map flatten (List.map (update_kids n (fun ks => ks ++ [R])) ks))
              = collect F (flat_map flatten ks)).
  { rewrite flat_map_map. apply collect_flat_map. exact IH. }
  destruct (i =? n).
  - rewrite List.flat_map_app, collect_app, E. cbn [flat_map].
    rewrite List.app_nil_r, HR, List.app_nil_r. reflexivity.
  - rewrite E. reflexivity.
Qed.


Lemma find_collect sel l :
  List.find (matches sel) l = None <-> collect (if_matches sel) l = [].
Proof.
  induction l as [|x l IH]; [cbn; tauto|].
  cbn [List.find]. rewrite collect_cons. unfold if_matches at 1.
  change (matches sel (El 0 (props x) [])) with (matches sel x).
  destruct (matches sel x); [split; discriminate | exact IH].
Qed.

Lemma bounded_update_props m n g e : bounded m e -> bounded m (update_props n g e).
Proof.
  induction e as [i p ks IH] using Elem_ind. rewrite bounded_El. intros [Hi Hks].
  cbn [update_props]. apply bounded_El. split; [exact Hi|].
  apply List.Forall_map. rewrite List.Forall_forall in *. auto.
Qed.

Lemma bounded_update_kids_append m n R e :
  bounded m R -> bounded m e -> bounded m (update_kids n (fun ks => ks ++ [R]) e).
Proof.
  intros HR. induction e as [i p ks IH] using Elem_ind. rewrite bounded_El. intros [Hi Hks].
  cbn [update_kids]. apply bounded_El. split; [exact Hi|].
  assert (G : Forall (bounded m) (List.map (update_kids n (fun ks => ks ++ [R])) ks)).
  { apply List.Forall_map. rewrite List.Forall_forall in *. auto. }
  destruct (i =? n); [apply List.Forall_app; split; [exact G | repeat constructor; exact HR] | exact G].
Qed.

Lemma absent_update_props r n g e : absent r e -> absent r (update_props n g e).
Proof.
  induction e as [i p ks IH] using Elem_ind. rewrite absent_El. intros [Hi Hks].
  cbn [update_props]. apply absent_El. split; [exact Hi|].
  apply List.Forall_map. rewrite List.Forall_forall in *. auto.
Qed.


(** *** One-time style injection, in general *)

Lemma addModalStyles_unfold : addModalStyles = inject_once "modal-styles" modal_stylesheet.
Proof. reflexivity. Qed.

Lemma inject_once_inject marker text w :
  parts_bounded (document w) ->
  inject_once marker text w = (set_document (inject marker text (document w)) w, Ok ()).
Proof.
  intros H. unfold inject_once, inject, mbind, M_bind, dom_read.
  destruct (getElementById marker (document w)) eqn:E.
  - unfold mret, M_ret. destruct w as [[] ]; reflexivity.
  - unfold dom_new, dom.
    pose proof (new_style_injected marker text (document w) H) as G.
    destruct w as [d]. cbn [document set_document] in *.
    unfold createElement in *. cbn [fst] in G. unfold add_to_head.
    world_simpl. cbn [doc_head doc_body detached next_id].
    rewrite G. reflexivity.
Qed.

Section CreatedUnder.

Variables (hd bd : Elem) (dt : list Elem) (n : nid).

Hypothesis Hh : absent n hd.

Hypothesis Hb : absent n bd.

Hypothesis Hd : Forall (absent n) dt.

Lemma appendChild_Node_created b p ks m :
  appendChild (Node b) n (mkDocument hd bd (dt ++ [El n p ks]) m)
  = let h := fun l => l ++ [El n p ks] in
    mkDocument (update_kids b h hd) (update_kids b h bd)
               (List.map (update_kids b h) dt) m.
Proof.
  unfold appendChild. rewrite lookup_created by assumption.
  unfold unlink, on_kids. cbn [doc_head doc_body detached next_id].
  rewrite !prune_absent by assumption.
  rewrite prune_forest_app, prune_forest_absent' by assumption.
  unfold prune_forest. cbn [flat_map nid_of]. rewrite Nat.eqb_refl. cbn [app].
  rewrite List.app_nil_r. reflexivity.
Qed.

Lemma lookup_before_created b p m m' :
  b <> n ->
  lookup_node b (mkDocument hd bd (dt ++ [El n p []]) m)
  = lookup_node b (mkDocument hd bd dt m').
Proof.
  intros Hbn. unfold lookup_node, all_nodes, document_order.
  cbn [doc_head doc_body detached].
  rewrite List.flat_map_app, !find_app. cbn [flat_map flatten List.find app].
  unfold is_node at 4. cbn [nid_of]. apply Nat.eqb_neq in Hbn. rewrite Nat.eqb_sym, Hbn.
  destruct (List.find (is_node b) (flatten hd)); [reflexivity|].
  destruct (List.find (is_node b) (flatten bd)); [reflexivity|].
  destruct (List.find (is_node b) (flat_map flatten dt)); reflexivity.
Qed.

End CreatedUnder.

Lemma update_props_twice n g1 g2 e :
  update_props n g2 (update_props n g1 e) = update_props n (fun p => g2 (g1 p)) e.
Proof.
  induction e as [i p ks IH] using Elem_ind. cbn [update_props]. f_equal.
  - destruct (i =? n); reflexivity.
  - rewrite List.map_map. apply List.map_ext_Forall. exact IH.
Qed.

Lemma on_props_Node_twice n g1 g2 d :
  on_props (Node n) g2 (on_props (Node n) g1 d) = on_props (Node n) (fun p => g2 (g1 p)) d.
Proof.
  unfold on_props. cbn [doc_head doc_body detached next_id].
  rewrite !update_props_twice, List.map_map. f_equal.
  apply List.map_ext. intros a. apply update_props_twice.
Qed.

Lemma createRipple_unfold event button :
  createRipple event button
  = (ripple ← dom_new (createElement "span");
     r ← getBoundingClientRect button;
     let size := fmax (rect_width r) (rect_height r) in
     let x := fsub (fsub (clientX event) (rect_left r)) (fhalf size) in
     let y := fsub (fsub (clientY event) (rect_top r)) (fhalf size) in
     dom (on_props (Node ripple) (with_style (ripple_style size x y))) ;;
     inject_once "ripple-styles" ripple_keyframes ;;
     dom (on_props (Node button) (style_set "position" (Css "relative"))) ;;
     dom (on_props (Node button) (style_set "overflow" (Css "hidden"))) ;;
     dom (appendChild (Node button) ripple) ;;
     setTimeout (CbRippleRemove ripple) (ofZ 600)).
Proof. reflexivity. Qed.

Lemma createRipple_rippled event b w :
  parts_bounded (document w) -> b < next_id (document w) ->
  createRipple event b w
  = (set_timers (timers w ++ [((now w + 600)%Z, CbRippleRemove (next_id (document w)))])
       (set_document (rippled event b (document w)) w), Ok ()).
Proof.
  intros Hpb Hlt. pose proof Hpb as (Hh & Hb & Hdt).
  set (r := next_id (document w)) in *.
  assert (Ah : absent r (doc_head (document w))) by (eapply bounded_absent; eauto).
  assert (Ab : absent r (doc_body (document w))) by (eapply bounded_absent; eauto).
  assert (Ad : Forall (absent r) (detached (document w)))
    by (eapply Forall_bounded_absent; eauto).
  rewrite createRipple_unfold.
  unfold getBoundingClientRect, node_props.
  unfold mbind, M_bind, dom_new, dom_read, dom, setTimeout, mret, M_ret.
  destruct w as [d t tm fr ls ob hob py lsc sc dp un hi]. cbn [document] in *.
  destruct d as [hd bd dt nx]. cbn [next_id doc_head doc_body detached] in *. subst r.
  unfold createElement. cbn [next_id doc_head doc_body detached]. world_simpl.
  rewrite (lookup_before_created hd bd dt nx b _ (S nx) nx) by lia.
  rewrite on_props_created by assumption.
  rewrite inject_once_inject.
  2:{ world_simpl. unfold parts_bounded. cbn [next_id doc_head doc_body detached].
      split; [|split].
      - eapply bounded_mono; [exact Hh | lia].
      - eapply bounded_mono; [exact Hb | lia].
      - apply List.Forall_app. split; [eapply Forall_bounded_mono; [exact Hdt | lia]|].
        constructor; [|constructor]. apply bounded_El. split; [lia | constructor]. }
  world_simpl.
  change (timer_delay (ofZ 600)) with 600%Z.
  unfold rippled, ripple_node. cbv zeta. cbn [next_id doc_head doc_body detached].
  set (R := El nx _ []).
  set (d0 := mkDocument hd bd (dt ++ [R]) (S nx)).
  set (d1 := inject "ripple-styles" ripple_keyframes d0).
  assert (A1 : absent nx (doc_head d1)).
  { apply inject_head_absent; [exact Ah | cbn; lia]. }
  assert (E : d1 = mkDocument (doc_head d1) bd (dt ++ [R]) (next_id d1)).
  { pose proof (inject_body "ripple-styles" ripple_keyframes d0) as B.
    pose proof (inject_detached "ripple-styles" ripple_keyframes d0) as D.
    fold d1 in B, D. destruct d1. cbn in *. subst. reflexivity. }
  rewrite on_props_Node_twice. fold lit.
  rewrite E at 1. unfold on_props. cbn [next_id doc_head doc_body detached].
  rewrite List.map_app. cbn [List.map].
  assert (ER : update_props b lit R = R).
  { unfold R. cbn [update_props List.map].
    assert (Hne : (nx =? b) = false) by (apply Nat.eqb_neq; lia). rewrite Hne. reflexivity. }
  rewrite ER. unfold R at 1.
  rewrite appendChild_Node_created.
  - cbv zeta. rewrite List.map_map. reflexivity.
  - apply absent_update_props. exact A1.
  - apply absent_update_props. exact Ab.
  - apply List.Forall_map. eapply List.Forall_impl; [|exact Ad].
    intros e He. apply absent_update_props. exact He.
Qed.

End Steps.

(** ** Dialogs, buttons, anchors *)

Module Facts.
Import F64 Dom Browser Script Shapes Trees Steps.
Local Open Scope nat_scope.

Lemma well_formed_bounded d : well_formed d -> parts_bounded d.
Proof. exact (well_formed_parts d). Qed.

Lemma settle_throw m w w' e :
  m w = (w', Throw e) -> settle m w = set_uncaught (uncaught w' ++ [e]) w'.
Proof. unfold settle. intros ->. reflexivity. Qed.





(** The handler that was to be registered, run by hand on the overlay of the
    loaded sample page: the default is suppressed, the confirmation panel and
    a new close control are in place, nothing is scheduled and the overlay
    stays; a click on the Close button of the panel then closes it (twice
    over: the inline handler clicks the close control and, [click()]
    returning [undefined], calls [closeModal] as well). *)
Example submit_handler_on_sample :
  let w := Sample.loaded in
  let o := next_id (document w) in
  let w1 := state showDemoModal w in
  let submit := mkEvent Submit (OnNode o) (ofZ 0) (ofZ 0) "" in
  let w2 := state (run_listener Sample.strict (fun _ => mret tt) (OnDemoSubmit o) submit) w1 in
  let close := mkEvent Click (OnNode 29) (ofZ 0) (ofZ 0) "" in
  default_prevented w2 = true
  /\ overlays (document w2) = 1
  /\ timers w2 = []
  /\ count_matching (ByClass "success-content") (document w2) = 1
  /\ count_matching (ByClass "modal-close") (document w2) = 1
  /\ overlays (document (advance 300 w2)) = 1
  /\ timers (fire Sample.strict close w2)
     = [((now w + 300)%Z, CbCloseFinish o); ((now w + 300)%Z, CbCloseFinish o)]
  /\ overlays (document (advance 300 (fire Sample.strict close w2))) = 0.
Proof. vm_compute. repeat split; reflexivity. Qed.

Lemma markup_has_no_overlay_video : count_forest (ByClass "modal-overlay") video_modal_html = 0.
Proof. reflexivity. Qed.

Lemma markup_has_no_overlay_demo : count_forest (ByClass "modal-overlay") demo_modal_html = 0.
Proof. reflexivity. Qed.

Lemma document_opened_world markup w :
  document (opened_world markup w) = opened markup (document w).
Proof. destruct w. reflexivity. Qed.


Lemma frames_opened_world markup w :
  frames (opened_world markup w) = frames w ++ [CbAddActive (next_id (document w))].
Proof. destruct w. reflexivity. Qed.





(** *** Ripples keep the document well formed and the overlays as they are *)

Lemma seen_parts {A} (F : Props -> option A) d :
  seen F d = collect F (flatten (doc_head d)) ++ collect F (flatten (doc_body d)).
Proof. unfold seen, document_order. apply collect_app. Qed.





Lemma inject_bounded marker text d :
  parts_bounded d -> parts_bounded (inject marker text d).
Proof.
  intros (Hh & Hb & Hd). unfold inject. destruct (getElementById marker d).
  - split; [|split]; assumption.
  - unfold parts_bounded, add_to_head. cbn [doc_head doc_body detached next_id].
    split; [|split].
    + destruct (doc_head d) as [i p ks]. cbn [nid_of props kids].
      apply bounded_El in Hh. destruct Hh as [Hi Hks]. apply bounded_El. split; [lia|].
      apply List.Forall_app. split; [eapply Forall_bounded_mono; [exact Hks | lia]|].
      constructor; [|constructor]. apply bounded_El. split; [lia | constructor].
    + eapply bounded_mono; [exact Hb | lia].
    + eapply Forall_bounded_mono; [exact Hd | lia].
Qed.

Lemma inject_next_id marker text d : next_id d <= next_id (inject marker text d).
Proof. unfold inject. destruct (getElementById marker d); cbn; lia. Qed.

Lemma rippled_bounded event b d :
  parts_bounded d -> parts_bounded (rippled event b d).
Proof.
  intros (Hh & Hb & Hd). unfold rippled. cbv zeta.
  set (R := ripple_node event b d).
  set (d0 := mkDocument (doc_head d) (doc_body d) (detached d ++ [R]) (S (next_id d))).
  assert (HR0 : bounded (S (next_id d)) R).
  { unfold R, ripple_node. cbv zeta. apply bounded_El. split; [lia | constructor]. }
  assert (P0 : parts_bounded d0).
  { unfold parts_bounded, d0. cbn [doc_head doc_body detached next_id]. split; [|split].
    - eapply bounded_mono; [exact Hh | lia].
    - eapply bounded_mono; [exact Hb | lia].
    - apply List.Forall_app. split; [eapply Forall_bounded_mono; [exact Hd | lia]|].
      constructor; [exact HR0 | constructor]. }
  pose proof (inject_bounded "ripple-styles" ripple_keyframes d0 P0) as (Ih & Ib & Id).
  pose proof (inject_next_id "ripple-styles" ripple_keyframes d0) as Hn. cbn [next_id d0] in Hn.
  set (m := next_id (inject "ripple-styles" ripple_keyframes d0)) in *.
  assert (HR : bounded m R) by (eapply bounded_mono; [exact HR0 | lia]).
  unfold parts_bounded. cbn [doc_head doc_body detached next_id].
  split; [|split].
  - apply bounded_update_kids_append; [exact HR|]. apply bounded_update_props. exact Ih.
  - apply bounded_update_kids_append; [exact HR|]. apply bounded_update_props.
    eapply bounded_mono; [exact Hb | lia].
  - apply List.Forall_map. eapply List.Forall_impl; [|exact Hd]. intros e He.
    apply bounded_update_kids_append; [exact HR|]. apply bounded_update_props.
    eapply bounded_mono; [exact He | lia].
Qed.


Lemma cta_click_closed select click e b w :
  parts_bounded (document w) -> b < next_id (document w) ->
  run_listener select click (OnCtaClick b) e w = (cta_clicked e b w, Ok ()).
Proof.
  intros H Hb. cbn [run_listener]. unfold mbind, M_bind.
  rewrite (createRipple_rippled e b w H Hb). unfold setTimeout, cta_clicked.
  change (timer_delay (ofZ 300)) with 300%Z.
  destruct w. world_simpl. rewrite <- List.app_assoc. reflexivity.
Qed.


Lemma cta_modal_after_300 e b w :
  parts_bounded (document w) -> timers w = [] ->
  let w2 := cta_clicked e b w in
  let w3 := advance 300 w2 in
  now w3 = (now w + 300)%Z
  /\ document w3 = opened demo_modal_html (rippled e b (document w))
  /\ history w3 = history w ++ [((now w + 300)%Z, CbShowDemoModal)]
  /\ uncaught w3 = uncaught w ++ [TypeError]
  /\ timers w3 = [((now w + 600)%Z, CbRippleRemove (next_id (document w)))].
Proof.
  intros H Ht w2 w3. subst w3 w2. unfold cta_clicked, advance.
  destruct w as [d t tm fr ls ob hob py lsc sc dp un hi]. cbn [timers document now] in *.
  subst tm. world_simpl. cbn [app List.filter fst].
  change (Z.max 0 300) with 300%Z.
  assert (E1 : (t + 600 <=? t + 300)%Z = false) by (apply Z.leb_gt; lia).
  rewrite E1, Z.leb_refl. cbn [negb].
  unfold firing_order. cbn [List.fold_left insert_timer]. unfold run_timer. world_simpl.
  rewrite (Z.max_r t (t + 300)) by lia.
  cbn [run_callback].
  match goal with
  | |- context [settle showDemoModal ?W] =>
      rewrite (settle_throw showDemoModal W _ _ (showDemoModal_opened W ltac:(apply rippled_bounded; exact H)))
  end.
  unfold opened_world. world_simpl. repeat split; reflexivity.
Qed.


(** Claim C1 (no entry point lets an exception out) does not hold of the
    code.  From any well-formed document, opening the information-request
    dialog ends in a [TypeError]: its markup has no [#demoForm], so
    [overlay.querySelector('#demoForm')] is [null] and the call of
    [addEventListener] on it throws.  Run as a timer callback the error is
    uncaught, and that is how every call-to-action button runs it, 300 time
    units after a click.  The scroll handler throws too when the page has no
    [#header]: [header.style] is read with no presence check. *)
Theorem info_request_open_throws
    (select : string -> Document -> Completion (option nid)) (click : nid -> M unit)
    (e : Event) (b : nid) (w : World) :
  well_formed (document w) -> timers w = [] -> (b < next_id (document w))%nat ->
  completion showDemoModal w = Throw TypeError
  /\ uncaught (settle showDemoModal w) = uncaught w ++ [TypeError]
  /\ uncaught (advance 300 (state (run_listener select click (OnCtaClick b) e) w))
     = uncaught w ++ [TypeError]
  /\ completion (header_scroll None) w = Throw TypeError.
Proof.
  intros H Ht Hb. apply well_formed_bounded in H.
  pose proof (showDemoModal_opened w H) as E.
  split; [|split; [|split]].
  - unfold completion. rewrite E. reflexivity.
  - rewrite (settle_throw _ _ _ _ E). destruct w. reflexivity.
  - unfold state. rewrite (cta_click_closed select click e b w H Hb). cbn [fst].
    destruct (cta_modal_after_300 e b w H Ht) as (_ & _ & _ & U & _). exact U.
  - unfold completion, header_scroll, mbind, M_bind, window_pageYOffset.
    destruct (fgt (pageYOffset w) (ofZ 50)); reflexivity.
Qed.

Lemma info_request_open_throws_on_sample :
  let w := Sample.loaded in
  let e := mkEvent Click (OnNode 6%nat) (ofZ 50) (ofZ 30) "" in
  (well_formed (document w) /\ timers w = [] /\ (6 < next_id (document w))%nat)
  /\ completion showDemoModal w = Throw TypeError
  /\ uncaught (settle showDemoModal w) = uncaught w ++ [TypeError]
  /\ uncaught (advance 300 (state (run_listener Sample.strict (fun _ => mret tt) (OnCtaClick 6%nat) e) w))
     = uncaught w ++ [TypeError]
  /\ completion (header_scroll None) w = Throw TypeError.
Proof.
  assert (H : well_formed (document Sample.loaded)) by (vm_compute; reflexivity).
  assert (Hb : (6 < next_id (document Sample.loaded))%nat) by (vm_compute; lia).
  split; [split; [exact H | split; [reflexivity | exact Hb]]|].
  apply (info_request_open_throws Sample.strict (fun _ => mret tt) _ 6%nat Sample.loaded H eq_refl Hb).
Defined.





(** *** Style injection *)

Lemma getElementById_seen marker d :
  getElementById marker d = None <-> seen (if_matches (ById marker)) d = [].
Proof.
  unfold getElementById, querySelector, seen.
  rewrite <- find_collect. destruct (List.find _ _); cbn; split; congruence.
Qed.

Lemma style_node_seen marker text n :
  collect (if_matches (ById marker)) (flatten (style_node n marker text)) = [tt].
Proof.
  unfold style_node. cbn [flatten flat_map]. rewrite collect_cons.
  unfold if_matches. cbn [matches props elem_id with_text with_id].
  rewrite String.eqb_refl. reflexivity.
Qed.

Lemma inject_found marker text d : getElementById marker (inject marker text d) <> None.
Proof.
  unfold inject. destruct (getElementById marker d) eqn:E; [congruence|].
  rewrite getElementById_seen, seen_parts. unfold add_to_head.
  cbn [doc_head doc_body detached next_id].
  destruct (doc_head d) as [i p ks]. cbn [nid_of props kids flatten].
  rewrite collect_cons, List.flat_map_app, collect_app. cbn [flat_map].
  rewrite List.app_nil_r, style_node_seen. intros Hnil. cbn [props] in Hnil.
  destruct (if_matches (ById marker) p); [discriminate|].
  apply List.app_eq_nil in Hnil. destruct Hnil as [Hnil _].
  apply List.app_eq_nil in Hnil. destruct Hnil as [_ Hnil]. discriminate.
Qed.

Lemma inject_idempotent marker text text' d :
  inject marker text' (inject marker text d) = inject marker text d.
Proof.
  pose proof (inject_found marker text d) as H.
  unfold inject at 1. destruct (getElementById marker (inject marker text d)); congruence.
Qed.

Lemma getElementById_rippled marker event b d :
  getElementById marker d <> None \/ marker = "ripple-styles" ->
  getElementById marker (rippled event b d) <> None.
Proof.
  intros H. rewrite getElementById_seen. unfold rippled. cbv zeta.
  rewrite seen_parts. cbn [doc_head doc_body].
  assert (HR : collect (if_matches (ById marker)) (flatten (ripple_node event b d)) = []) by reflexivity.
  rewrite !collect_update_kids_append by exact HR.
  rewrite !collect_update_props by (intros p; reflexivity).
  set (d0 := mkDocument (doc_head d) (doc_body d) (detached d ++ [ripple_node event b d])
                        (S (next_id d))).
  change (doc_body d) with (doc_body d0).
  rewrite <- (inject_body "ripple-styles" ripple_keyframes d0), <- seen_parts,
    <- getElementById_seen.
  destruct H as [H | ->].
  - unfold inject. destruct (getElementById "ripple-styles" d0); [exact H|].
    intros Hn. apply H. rewrite getElementById_seen in *. rewrite seen_parts in *.
    unfold add_to_head in Hn. cbn [doc_head doc_body d0] in *.
    destruct (doc_head d) as [i p ks]. cbn [nid_of props kids flatten] in *.
    rewrite collect_cons in *. rewrite List.flat_map_app, collect_app in Hn.
    cbn [props] in *.
    destruct (if_matches (ById marker) p); [discriminate|].
    apply List.app_eq_nil in Hn. destruct Hn as [Hn Hb].
    apply List.app_eq_nil in Hn. destruct Hn as [Hn _].
    rewrite Hn, Hb. reflexivity.
  - apply inject_found.
Qed.

Lemma injected_styles_rippled_found event b d :
  getElementById "ripple-styles" d <> None ->
  injected_styles (rippled event b d) = injected_styles d.
Proof.
  intros H. unfold injected_styles, rippled. cbv zeta.
  rewrite !seen_parts. cbn [doc_head doc_body].
  rewrite !collect_update_kids_append by reflexivity.
  rewrite !collect_update_props by (intros p; reflexivity).
  unfold inject.
  change (getElementById "ripple-styles"
            (mkDocument (doc_head d) (doc_body d) (detached d ++ [ripple_node event b d])
                        (S (next_id d))))
    with (getElementById "ripple-styles" d).
  destruct (getElementById "ripple-styles" d); [reflexivity | congruence].
Qed.

Lemma next_id_rippled event b d : next_id d <= next_id (rippled event b d).
Proof.
  unfold rippled. cbv zeta. cbn [next_id].
  pose proof (inject_next_id "ripple-styles" ripple_keyframes
                (mkDocument (doc_head d) (doc_body d)
                            (detached d ++ [ripple_node event b d]) (S (next_id d)))) as Hn.
  cbn [next_id] in Hn. lia.
Qed.

Lemma document_createRipple event b w :
  parts_bounded (document w) -> b < next_id (document w) ->
  document (state (createRipple event b) w) = rippled event b (document w).
Proof.
  intros Hp Hb. unfold state. rewrite createRipple_rippled by assumption.
  destruct w. reflexivity.
Qed.

Lemma addModalStyles_found w :
  getElementById "modal-styles" (document w) <> None -> addModalStyles w = (w, Ok ()).
Proof.
  intros G. unfold addModalStyles, mbind, M_bind, dom_read.
  destruct (getElementById "modal-styles" (document w)); [reflexivity | congruence].
Qed.

(** Once both markers are in the document, no sequence of further uses adds
    or removes a style element. *)
Lemma style_uses_settled us : forall w m,
  parts_bounded (document w) -> m <= next_id (document w) ->
  getElementById "modal-styles" (document w) <> None ->
  getElementById "ripple-styles" (document w) <> None ->
  Forall (button_below m) us ->
  injected_styles (document (style_uses us w)) = injected_styles (document w).
Proof.
  induction us as [|u us IH]; intros w m Hp Hm Gm Gr Hu; [reflexivity|].
  apply List.Forall_cons_iff in Hu. destruct Hu as [Hu1 Hu2].
  change (style_uses (u :: us) w) with (style_uses us (state (style_use u) w)).
  destruct u as [|e b]; cbn [style_use button_below] in *.
  - unfold state. rewrite (addModalStyles_found w Gm). cbn [fst]. eapply IH; eassumption.
  - assert (Hb : b < next_id (document w)) by lia.
    pose proof (document_createRipple e b w Hp Hb) as D.
    pose proof (next_id_rippled e b (document w)) as Hn.
    rewrite (IH _ m); rewrite ?D.
    + apply injected_styles_rippled_found. exact Gr.
    + apply rippled_bounded. exact Hp.
    + lia.
    + apply getElementById_rippled. left. exact Gm.
    + apply getElementById_rippled. left. exact Gr.
    + exact Hu2.
Qed.

(** Claim C7.  After a first [addModalStyles] the element [#modal-styles]
    exists and a further call changes nothing at all; after a first
    [createRipple] the element [#ripple-styles] exists and a further
    [createRipple], on any button, leaves the marker ids of the style
    elements of the document as they are and completes normally.  Once both
    have run, any sequence of further calls of the two, in any order, leaves
    the style elements of the document as they are. *)
Theorem style_injection_is_idempotent (w : World) (e1 e2 : Event) (b1 b2 : nid) :
  well_formed (document w) ->
  b1 < next_id (document w) ->
  b2 < next_id (document (state (createRipple e1 b1) w)) ->
  let w1 := state addModalStyles w in
  let r1 := state (createRipple e1 b1) w in
  let both := state (createRipple e1 b1) w1 in
  getElementById "modal-styles" (document w1) <> None
  /\ addModalStyles w1 = (w1, Ok ())
  /\ getElementById "ripple-styles" (document r1) <> None
  /\ injected_styles (document (state (createRipple e2 b2) r1)) = injected_styles (document r1)
  /\ completion (createRipple e2 b2) r1 = Ok ()
  /\ (forall us, Forall (button_below (next_id (document w))) us ->
        injected_styles (document (style_uses us both)) = injected_styles (document both)).
Proof.
  intros H Hb1 Hb2 w1 r1 both. pose proof (well_formed_bounded _ H) as Hp.
  assert (E1 : w1 = set_document (inject "modal-styles" modal_stylesheet (document w)) w).
  { subst w1. unfold state. rewrite addModalStyles_unfold, inject_once_inject by exact Hp.
    reflexivity. }
  assert (D0 : document w1 = inject "modal-styles" modal_stylesheet (document w)).
  { rewrite E1. destruct w. reflexivity. }
  assert (F1 : getElementById "modal-styles" (document w1) <> None).
  { rewrite D0. apply inject_found. }
  assert (D1 : document r1 = rippled e1 b1 (document w)).
  { apply document_createRipple; assumption. }
  assert (P1 : parts_bounded (document r1)).
  { rewrite D1. apply rippled_bounded. exact Hp. }
  assert (G1 : getElementById "ripple-styles" (document r1) <> None).
  { rewrite D1. apply getElementById_rippled. right. reflexivity. }
  split; [exact F1 | split; [|split; [exact G1 | split; [|split]]]].
  - apply addModalStyles_found. exact F1.
  - rewrite (document_createRipple e2 b2 r1 P1 Hb2).
    apply injected_styles_rippled_found. exact G1.
  - unfold completion. rewrite (createRipple_rippled e2 b2 r1 P1 Hb2). reflexivity.
  - intros us Hus.
    assert (P0 : parts_bounded (document w1)).
    { rewrite D0. apply inject_bounded. exact Hp. }
    pose proof (inject_next_id "modal-styles" modal_stylesheet (document w)) as N0.
    rewrite <- D0 in N0.
    assert (Hb0 : b1 < next_id (document w1)) by lia.
    pose proof (document_createRipple e1 b1 w1 P0 Hb0) as D2. fold both in D2.
    pose proof (next_id_rippled e1 b1 (document w1)) as N2. rewrite <- D2 in N2.
    apply (style_uses_settled us both (next_id (document w))).
    + rewrite D2. apply rippled_bounded. exact P0.
    + lia.
    + rewrite D2. apply getElementById_rippled. left. exact F1.
    + rewrite D2. apply getElementById_rippled. right. reflexivity.
    + exact Hus.
Qed.

Lemma style_injection_on_sample :
  let w := Sample.loaded in
  let e := mkEvent Click (OnNode 6%nat) (ofZ 50) (ofZ 30) "" in
  let w1 := state addModalStyles w in
  let r1 := state (createRipple e 6%nat) w in
  let both := state (createRipple e 6%nat) w1 in
  let us := [UseRipple e 14%nat; UseModalStyles; UseRipple e 6%nat] in
  (well_formed (document w) /\ (6 < next_id (document w))%nat
   /\ (14 < next_id (document r1))%nat)
  /\ addModalStyles w1 = (w1, Ok tt)
  /\ injected_styles (document (state (createRipple e 14%nat) r1)) = injected_styles (document r1)
  /\ injected_styles (document (style_uses us both)) = injected_styles (document both)
  /\ injected_styles (document both) = [Some "modal-styles"; Some "ripple-styles"].
Proof.
  intros w e w1 r1 both us.
  assert (H : well_formed (document w)) by (vm_compute; reflexivity).
  assert (H1 : (6 < next_id (document w))%nat) by (vm_compute; lia).
  assert (H2 : (14 < next_id (document (state (createRipple e 6%nat) w)))%nat)
    by (vm_compute; lia).
  split; [split; [exact H | split; [exact H1 | exact H2]]|].
  destruct (style_injection_is_idempotent w e e 6%nat 14%nat H H1 H2) as (_ & A & _ & B & _ & C).
  split; [exact A | split; [exact B | split; [|reflexivity]]].
  apply C. repeat constructor; vm_compute; lia.
Defined.

(** *** Escape *)


Lemma closeModal_closing o w : closeModal o w = (closing o w, Ok ()).
Proof.
  unfold closeModal, closing, mbind, M_bind, dom, setTimeout.
  change (timer_delay (ofZ 300)) with 300%Z. destruct w. reflexivity.
Qed.




(** *** The ripple and its button *)



Lemma flatten_update_props n g e :
  flatten (update_props n g e) = List.map (update_props n g) (flatten e).
Proof.
  induction e as [i p ks IH] using Elem_ind. cbn [update_props flatten List.map]. f_equal.
  induction IH as [|k ks Hk _ IHks]; [reflexivity|].
  cbn [List.map flat_map]. rewrite List.map_app, Hk, IHks. reflexivity.
Qed.

Lemma find_map_same {A} (f : A -> bool) (h : A -> A) l :
  (forall a, f (h a) = f a) -> List.find f (List.map h l) = h <$> List.find f l.
Proof.
  intros Hf. induction l as [|a l IH]; [reflexivity|]. cbn [List.map List.find].
  rewrite Hf. destruct (f a); [reflexivity | exact IH].
Qed.










(** *** Integers as doubles *)

Local Open Scope Z_scope.

Lemma Qred_integer z : Qred (Qmake z 1) = Qmake z 1.
Proof.
  unfold Qred.
  pose proof (Z.ggcd_gcd z 1) as Hg. pose proof (Z.ggcd_correct_divisors z 1) as Hd.
  destruct (Z.ggcd z 1) as (g & a & b). cbn [fst snd] in *.
  rewrite Z.gcd_1_r in Hg. subst g. destruct Hd as [Ha Hb].
  rewrite Z.mul_1_l in Ha, Hb. subst a b. reflexivity.
Qed.

Lemma round_integer z : Z.abs z < 2 ^ 53 -> round (Qmake z 1) = Fin (Qmake z 1).
Proof.
  intros H. unfold round. cbn [Qnum Qden]. apply Z.ltb_lt in H.
  change two53 with (2 ^ 53). rewrite H. reflexivity.
Qed.

Lemma ofZ_integer z : Z.abs z < 2 ^ 53 -> ofZ z = Fin (Qmake z 1).
Proof. apply round_integer. Qed.

Lemma fadd_integers a b :
  Z.abs a < 2 ^ 53 -> Z.abs b < 2 ^ 53 -> Z.abs (a + b) < 2 ^ 53 ->
  fadd (ofZ a) (ofZ b) = ofZ (a + b).
Proof.
  intros Ha Hb Hab. rewrite !ofZ_integer by assumption. unfold fadd, Qplus.
  cbn [Qnum Qden Pos.mul]. rewrite !Z.mul_1_r, Qred_integer. apply round_integer. exact Hab.
Qed.

Lemma fsub_integers a b :
  Z.abs a < 2 ^ 53 -> Z.abs b < 2 ^ 53 -> Z.abs (a - b) < 2 ^ 53 ->
  fsub (ofZ a) (ofZ b) = ofZ (a - b).
Proof.
  intros Ha Hb Hab. rewrite !ofZ_integer by assumption. unfold fsub, fneg, fadd, Qplus, Qopp.
  cbn [Qnum Qden Pos.mul]. rewrite !Z.mul_1_r, Qred_integer.
  replace (a + - b) with (a - b) by lia. apply round_integer. exact Hab.
Qed.




(** *** Anchors *)

Lemma document_querySelector_selected select h w :
  document_querySelector select h w = (w, selected select h (document w)).
Proof.
  unfold document_querySelector, selected.
  destruct h as [|c name]; [reflexivity|].
  destruct c as [[] [] [] [] [] [] [] []]; try reflexivity.
  destruct (css_ident name); reflexivity.
Qed.

(** Claim C5, without the bound on the destination.  A click on an anchor
    link always suppresses the default.  For the href [#] nothing else
    happens; for another href, nothing else happens when the selector matches
    no element, the exception of a rejected selector propagates, and for a
    match one scroll is requested, to the top of the target's bounding box
    plus the vertical offset of the window minus 80.  An href [#name] with
    [name] an identifier selects the element with that id.  On integers
    below 2^51 in magnitude the destination is exactly [top + y - 80]; it is
    passed on as computed, with no clamping. *)
Theorem anchor_click_requests_offset_scroll
    (select : string -> Document -> Completion (option nid)) (link : nid) (w : World) :
  let w0 := set_default_prevented true w in
  let h := href_of link w in
  default_prevented (state (anchor_click select link) w) = true
  /\ (h = "#" -> anchor_click select link w = (w0, Ok ()))
  /\ (h <> "#" ->
      match selected select h (document w) with
      | Ok None => anchor_click select link w = (w0, Ok ())
      | Throw err => anchor_click select link w = (w0, Throw err)
      | Ok (Some t) =>
          anchor_click select link w
          = (set_scrolled_to (scrolled_to w ++ [destination t w]) w0, Ok ())
      end)
  /\ (forall name, css_ident name = true ->
        selected select (String "#"%char name) (document w) = Ok (getElementById name (document w)))
  /\ (forall t top y,
        top_of t w = ofZ top -> pageYOffset w = ofZ y ->
        Z.abs top < 2 ^ 51 -> Z.abs y < 2 ^ 51 ->
        destination t w = ofZ (top + y - 80)).
Proof.
  intros w0 h.
  assert (E : anchor_click select link w
              = if String.eqb h "#" then (w0, Ok ())
                else match selected select h (document w) with
                     | Ok None => (w0, Ok ())
                     | Throw err => (w0, Throw err)
                     | Ok (Some t) =>
                         (set_scrolled_to (scrolled_to w ++ [destination t w]) w0, Ok ())
                     end).
  { unfold anchor_click, getAttribute_href, node_props.
    unfold mbind, M_bind, preventDefault, dom_read, mret, M_ret.
    change (document (set_default_prevented true w)) with (document w).
    fold (href_of link w). fold h. fold w0.
    destruct (String.eqb h "#"); [reflexivity|].
    rewrite document_querySelector_selected.
    change (document w0) with (document w).
    destruct (selected select h (document w)) as [[t|]|err]; reflexivity. }
  split; [|split; [|split; [|split]]].
  - unfold state. rewrite E. destruct (String.eqb h "#"); [reflexivity|].
    destruct (selected select h (document w)) as [[t|]|err]; reflexivity.
  - intros Hh. rewrite E, Hh. reflexivity.
  - intros Hh. apply String.eqb_neq in Hh. rewrite E, Hh.
    destruct (selected select h (document w)) as [[t|]|err]; reflexivity.
  - intros name Hn. unfold selected. rewrite Hn. reflexivity.
  - intros t top y Ht Hy Htop Hyb. unfold destination. rewrite Ht, Hy.
    rewrite fadd_integers by lia. rewrite fsub_integers by lia. reflexivity.
Qed.

Lemma anchor_on_sample :
  let w := Sample.loaded in
  href_of 3%nat w = "#features"
  /\ anchor_click Sample.strict 3%nat w
     = (set_scrolled_to [ofZ (30 + 0 - 80)] (set_default_prevented true w), Ok tt)
  /\ href_of 4%nat w = "#"
  /\ anchor_click Sample.strict 4%nat w = (set_default_prevented true w, Ok tt).
Proof.
  intros w.
  destruct (anchor_click_requests_offset_scroll Sample.strict 3%nat w) as (_ & _ & A & _).
  destruct (anchor_click_requests_offset_scroll Sample.strict 4%nat w) as (_ & B & _).
  split; [reflexivity|]. split; [|split; [reflexivity | apply B; reflexivity]].
  assert (Hne : href_of 3%nat w <> "#") by (vm_compute; discriminate).
  specialize (A Hne).
  change (selected Sample.strict (href_of 3%nat w) (document w)) with (Ok (Some 8%nat)) in A.
  rewrite A. vm_compute. reflexivity.
Defined.

(** On the loaded sample page the target [#features] is 30 units below the
    top of the viewport and the window is not scrolled: the click on its link
    requests a scroll to -50. *)
Lemma anchor_destination_can_be_negative :
  let click := mkEvent Click (OnNode 3%nat) (ofZ 0) (ofZ 0) "" in
  href_of 3%nat Sample.loaded = "#features"
  /\ scrolled_to (fire Sample.strict click Sample.loaded) = [ofZ (-50)]
  /\ fgt (ofZ 0) (ofZ (-50)) = true.
Proof. vm_compute. repeat split; reflexivity. Qed.

End Facts.

(** ** Scroll-triggered reveals *)

Module Reveals.
Import F64 Dom Browser Script Shapes Trees Steps Facts.
Local Open Scope Z_scope.
















(** *** Timers that fire *)






Lemma all_nodes_on_props x g d :
  all_nodes (on_props (Node x) g d) = List.map (update_props x g) (all_nodes d).
Proof.
  unfold all_nodes, document_order, on_props. cbn [doc_head doc_body detached].
  rewrite !List.map_app, !flatten_update_props. f_equal. f_equal.
  induction (detached d) as [|k l IH]; [reflexivity|].
  cbn [List.map flat_map]. rewrite List.map_app, flatten_update_props, IH. reflexivity.
Qed.

Lemma props_lookup_on_props e x g d :
  props <$> lookup_node e (on_props (Node x) g d)
  = (if (x =? e)%nat then g else fun p => p) <$> (props <$> lookup_node e d).
Proof.
  unfold lookup_node. rewrite all_nodes_on_props.
  rewrite (find_map_same (is_node e) (update_props x g)) by (intros [i p ks]; reflexivity).
  destruct (List.find (is_node e) (all_nodes d)) as [[i p ks]|] eqn:E; [|reflexivity].
  apply List.find_some in E. destruct E as [_ E]. unfold is_node in E. cbn in E.
  apply Nat.eqb_eq in E. subst i. cbn. rewrite Nat.eqb_sym.
  destruct (x =? e)%nat; reflexivity.
Qed.








(** *** The life of an observed element *)







(** *** The delay *)











End Reveals.

(** ** Page load, header shadow, section headers *)

Module Page.
Import F64 Dom Browser Script Shapes Scenes Trees Steps Facts Reveals.
Local Open Scope nat_scope.

Lemma fgt_integers a b :
  (Z.abs a < 2 ^ 53)%Z -> (Z.abs b < 2 ^ 53)%Z -> fgt (ofZ a) (ofZ b) = (b <? a)%Z.
Proof.
  intros Ha Hb. rewrite !ofZ_integer by assumption. unfold fgt, Qltb. cbn [Qnum Qden].
  rewrite !Z.mul_1_r. reflexivity.
Qed.

Lemma style_set_twice k v v' p : style_set k v' (style_set k v p) = style_set k v' p.
Proof.
  unfold style_set, with_style. cbn [style tagName elem_id classList href dataset_delay rect onclick textContent].
  rewrite insert_insert_eq. reflexivity.
Qed.

Lemma update_props_ext n g g' e :
  (forall p, g p = g' p) -> update_props n g e = update_props n g' e.
Proof.
  intros H. induction e as [i p ks IH] using Elem_ind. cbn [update_props]. f_equal.
  - destruct (i =? n); [apply H | reflexivity].
  - apply List.map_ext_Forall. exact IH.
Qed.

Lemma on_props_Node_ext n g g' d :
  (forall p, g p = g' p) -> on_props (Node n) g d = on_props (Node n) g' d.
Proof.
  intros H. unfold on_props. f_equal; try (apply update_props_ext; exact H).
  apply List.map_ext. intros a. apply update_props_ext. exact H.
Qed.

(** The scroll handler with the header in place. *)
Lemma header_shadow_follows_offset (h : nid) (y : Z) (w : World) :
  (Z.abs y < 2 ^ 53)%Z -> pageYOffset w = ofZ y ->
  let w1 := state (header_scroll (Some h)) w in
  let v := if (50 <? y)%Z then Css "0 4px 30px rgba(0, 0, 0, 0.1)" else Css "none" in
  header_scroll (Some h) w
  = (set_lastScroll (ofZ y) (set_document (on_props (Node h) (style_set "box-shadow" v) (document w)) w),
     Ok ())
  /\ (forall e, props_of e w1
                = (if (h =? e) then style_set "box-shadow" v else fun p => p) <$> props_of e w)
  /\ lastScroll w1 = ofZ y
  /\ header_scroll (Some h) w1 = (w1, Ok ()).
Proof.
  intros Hy Hp w1 v.
  assert (G : fgt (ofZ y) (ofZ 50) = (50 <? y)%Z) by (apply fgt_integers; [exact Hy | reflexivity]).
  assert (E : header_scroll (Some h) w
              = (set_lastScroll (ofZ y)
                   (set_document (on_props (Node h) (style_set "box-shadow" v) (document w)) w), Ok ())).
  { unfold header_scroll, mbind, M_bind, window_pageYOffset. rewrite Hp, G. subst v.
    destruct (50 <? y)%Z; reflexivity. }
  split; [exact E|]. subst w1. unfold state. rewrite E. cbn [fst].
  split; [|split; [reflexivity|]].
  - intros e. unfold props_of. destruct w. cbn [document set_lastScroll set_document].
    apply props_lookup_on_props.
  - unfold header_scroll, mbind, M_bind, window_pageYOffset.
    destruct w as [d t tm fr ls ob hob py lsc sc dp un hi]. cbn [pageYOffset] in Hp. subst py.
    cbn [pageYOffset set_lastScroll set_document document now timers frames listeners observed
         header_observed lastScroll scrolled_to default_prevented uncaught history].
    rewrite G. subst v.
    destruct (50 <? y)%Z; cbn [deref]; unfold mret, M_ret, dom, assign_lastScroll;
      cbn [pageYOffset set_lastScroll set_document document now timers frames listeners observed
         header_observed lastScroll scrolled_to default_prevented uncaught history];
      rewrite on_props_Node_twice;
      (rewrite (on_props_Node_ext h _ (style_set "box-shadow" _) d (fun p => style_set_twice _ _ _ p)));
      reflexivity.
Qed.

Lemma no_listener_for_filter t ty ls :
  forallb (fun r : EventTarget * EventType * Listener => negb (same_type (snd (fst r)) ty)) ls = true ->
  List.filter (fun r : EventTarget * EventType * Listener =>
                 same_target (fst (fst r)) t && same_type (snd (fst r)) ty) ls = [].
Proof.
  induction ls as [|r l IH]; [reflexivity|]. cbn [forallb List.filter]. intros H.
  apply andb_prop in H. destruct H as [Hr Hl]. apply Bool.negb_true_iff in Hr.
  rewrite Hr, Bool.andb_false_r. apply IH. exact Hl.
Qed.

(** X1.  [initHeaderScroll] leaves the document as it is and registers one
    scroll listener.  With the header present, no other scroll listener and
    the page at the integer offset [y], a scroll event writes the header's
    inline [box-shadow]: the shadow value when [y > 50], [none] when
    [y <= 50] (50 itself gives [none]); every other element and every other
    property of the header stay as they were, [lastScroll] becomes [y], no
    error is recorded and no timer is set.  A second scroll event at the
    same offset changes nothing. *)
Theorem scroll_sets_header_shadow
    (select : string -> Document -> Completion (option nid)) (h : nid) (y : Z) (w : World) :
  (Z.abs y < 2 ^ 53)%Z -> pageYOffset w = ofZ y ->
  getElementById "header" (document w) = Some h ->
  no_listener_for Scroll w = true ->
  let v := if (50 <? y)%Z then Css "0 4px 30px rgba(0, 0, 0, 0.1)" else Css "none" in
  let w0 := state initHeaderScroll w in
  let w1 := fire select scroll_event w0 in
  document w0 = document w
  /\ document w1 = on_props (Node h) (style_set "box-shadow" v) (document w)
  /\ (forall e, props_of e w1
                = (if (h =? e) then style_set "box-shadow" v else fun p => p) <$> props_of e w)
  /\ lastScroll w1 = ofZ y
  /\ uncaught w1 = uncaught w /\ timers w1 = timers w
  /\ fire select scroll_event w1 = w1.
Proof.
  intros Hy Hp Hh Hn v w0 w1.
  assert (E0 : w0 = set_listeners (listeners w ++ [(OnWindow, Scroll, OnHeaderScroll (Some h))]) w).
  { subst w0. unfold state, initHeaderScroll, mbind, M_bind, dom_read. rewrite Hh. reflexivity. }
  assert (F : forall x, pageYOffset x = ofZ y ->
              listeners x = listeners w ++ [(OnWindow, Scroll, OnHeaderScroll (Some h))] ->
              fire select scroll_event x
              = state (header_scroll (Some h)) (set_default_prevented false x)).
  { intros x Hx Hl. unfold fire, stack_limit. cbn [dispatch].
    cbn [scroll_event ev_type ev_target event_path along].
    unfold listeners_on. cbn [inline_listeners app].
    change (listeners (set_default_prevented false x)) with (listeners x). rewrite Hl.
    rewrite List.filter_app, (no_listener_for_filter OnWindow Scroll _ Hn).
    cbn [List.filter same_target same_type fst snd andb app List.map invoke_all run_listener].
    unfold settle, state.
    destruct (header_shadow_follows_offset h y (set_default_prevented false x) Hy Hx) as (E & _).
    rewrite E. reflexivity. }
  assert (Hp0 : pageYOffset (set_default_prevented false w0) = ofZ y) by (rewrite E0; exact Hp).
  destruct (header_shadow_follows_offset h y (set_default_prevented false w0) Hy Hp0)
    as (E & P & L & I).
  assert (E1 : w1 = state (header_scroll (Some h)) (set_default_prevented false w0)).
  { apply F; rewrite E0; [exact Hp | reflexivity]. }
  cbv zeta in P, L, I. rewrite <- E1 in P, L, I.
  assert (E2 : w1 = set_lastScroll (ofZ y)
                      (set_document (on_props (Node h) (style_set "box-shadow" v) (document w))
                         (set_default_prevented false w0))).
  { rewrite E1. unfold state. rewrite E. rewrite E0. reflexivity. }
  split; [rewrite E0; reflexivity|].
  split; [rewrite E2; reflexivity|].
  split; [intros e; rewrite (P e), E0; reflexivity|].
  split; [exact L|].
  split; [rewrite E2, E0; reflexivity|].
  split; [rewrite E2, E0; reflexivity|].
  rewrite F.
  - assert (D : set_default_prevented false w1 = w1) by (rewrite E2; reflexivity).
    rewrite D. unfold state. rewrite I. reflexivity.
  - rewrite E2, E0. exact Hp.
  - rewrite E2, E0. reflexivity.
Qed.

Lemma scroll_on_sample :
  let after := fun y =>
    fire Sample.strict scroll_event (state initHeaderScroll (at_offset (ofZ y) Sample.page)) in
  (style <$> props_of 2 (after 51%Z)) = Some {[ "box-shadow" := Css "0 4px 30px rgba(0, 0, 0, 0.1)" ]}
  /\ (style <$> props_of 2 (after 50%Z)) = Some {[ "box-shadow" := Css "none" ]}
  /\ lastScroll (after 51%Z) = ofZ 51.
Proof.
  intros after.
  pose proof (scroll_sets_header_shadow Sample.strict 2 51 (at_offset (ofZ 51) Sample.page)
                eq_refl eq_refl eq_refl eq_refl) as (_ & _ & P & L & _).
  pose proof (scroll_sets_header_shadow Sample.strict 2 50 (at_offset (ofZ 50) Sample.page)
                eq_refl eq_refl eq_refl eq_refl) as (_ & _ & Q & _).
  split; [|split].
  - unfold after. rewrite (P 2). reflexivity.
  - unfold after. rewrite (Q 2). reflexivity.
  - exact L.
Defined.

Lemma set_observed_same w : set_observed (observed w) w = w.
Proof. destruct w. reflexivity. Qed.

Lemma set_listeners_same w : set_listeners (listeners w) w = w.
Proof. destruct w. reflexivity. Qed.

Lemma observe_loop l : forall w,
  for_each l observe w = (set_observed (List.fold_left watch l (observed w)) w, Ok ()).
Proof.
  induction l as [|n l IH]; intros w.
  - cbn [for_each List.fold_left]. rewrite set_observed_same. reflexivity.
  - cbn [for_each List.fold_left]. unfold mbind, M_bind. unfold observe at 1.
    assert (W : watch (observed w) n
                = if mem n (observed w) then observed w else observed w ++ [n]) by reflexivity.
    destruct (mem n (observed w)); rewrite IH, W; reflexivity.
Qed.

Lemma headers_loop l : forall w,
  for_each l (fun header =>
    dom (on_props (Node header) (style_set "opacity" (Css "0"))) ;;
    dom (on_props (Node header) (style_set "transform" (Css "translateY(30px)"))) ;;
    dom (on_props (Node header) (style_set "transition" (Css "all 0.6s ease"))) ;;
    header_observe header) w
  = (set_header_observed (List.fold_left watch l (header_observed w))
       (set_document (hidden l (document w)) w), Ok ()).
Proof.
  induction l as [|h l IH]; intros w.
  - cbn [for_each List.fold_left hidden]. destruct w. reflexivity.
  - cbn [for_each]. unfold mbind at 1, M_bind at 1.
    unfold mbind, M_bind, dom, header_observe. world_simpl.
    rewrite !on_props_Node_twice. fold (hide).
    change (fun p => style_set "transition" (Css "all 0.6s ease")
                       (style_set "transform" (Css "translateY(30px)")
                          (style_set "opacity" (Css "0") p))) with hide.
    unfold hidden. cbn [List.fold_left].
    assert (W : watch (header_observed w) h
                = if mem h (header_observed w) then header_observed w
                  else header_observed w ++ [h]) by reflexivity.
    destruct (mem h (header_observed w)); rewrite IH, W; world_simpl; reflexivity.
Qed.

Lemma listen_loop {A} (T : A -> EventTarget) ty (L : A -> Listener) l : forall w,
  for_each l (fun x => addEventListener (T x) ty (L x)) w
  = (set_listeners (listeners w ++ List.map (fun x => (T x, ty, L x)) l) w, Ok ()).
Proof.
  induction l as [|x l IH]; intros w.
  - cbn [for_each List.map]. rewrite List.app_nil_r, set_listeners_same. reflexivity.
  - cbn [for_each List.map]. unfold mbind, M_bind. unfold addEventListener at 1.
    rewrite IH. world_simpl. rewrite <- List.app_assoc. reflexivity.
Qed.

Lemma watch_all l : forall acc n,
  In n (List.fold_left watch l acc) <-> In n acc \/ In n l.
Proof.
  induction l as [|x l IH]; intros acc n; cbn [List.fold_left In]; [tauto|].
  rewrite IH. unfold watch. destruct (mem x acc) eqn:E.
  - unfold mem in E. apply List.existsb_exists in E. destruct E as (y & Hy & Exy).
    apply Nat.eqb_eq in Exy. subst y. intuition (subst; auto).
  - rewrite List.in_app_iff. cbn [In]. tauto.
Qed.

Lemma watch_NoDup l : forall acc, List.NoDup acc -> List.NoDup (List.fold_left watch l acc).
Proof.
  induction l as [|x l IH]; intros acc H; cbn [List.fold_left]; [exact H|].
  apply IH. unfold watch. destruct (mem x acc) eqn:E; [exact H|].
  apply List.NoDup_app; [exact H | repeat constructor; intros [] | ].
  intros y Hy [<-|[]]. assert (F : mem x acc = true); [|congruence].
  unfold mem. apply List.existsb_exists. exists x. split; [exact Hy | apply Nat.eqb_refl].
Qed.

(** *** Writes to inline styles leave the selectors alone *)

Lemma style_set_only k v : style_only (style_set k v).
Proof. intros p. reflexivity. Qed.

Lemma hide_only : style_only hide.
Proof. intros p. reflexivity. Qed.

Lemma matches_styled sel x g a :
  style_only g -> matches sel (update_props x g a) = matches sel a.
Proof.
  intros H. destruct a as [i p ks]. cbn [update_props]. destruct (i =? x); [|reflexivity].
  pose proof (H p) as E. unfold with_style in E. injection E as E1 E2 E3 E4 E5 E6 E7 E8.
  unfold matches, has_class. cbn [props]. rewrite E1, E2, E3, E4. reflexivity.
Qed.

Lemma nid_of_update_props x g a : nid_of (update_props x g a) = nid_of a.
Proof. destruct a. reflexivity. Qed.

Lemma document_order_on_props x g d :
  document_order (on_props (Node x) g d) = List.map (update_props x g) (document_order d).
Proof.
  unfold document_order, on_props. cbn [doc_head doc_body].
  rewrite List.map_app, !flatten_update_props. reflexivity.
Qed.

Lemma filter_map_same {A} (f : A -> bool) (h : A -> A) l :
  (forall a, f (h a) = f a) -> List.filter f (List.map h l) = List.map h (List.filter f l).
Proof.
  intros H. induction l as [|a l IH]; [reflexivity|]. cbn [List.map List.filter].
  rewrite H. destruct (f a); cbn [List.map]; rewrite IH; reflexivity.
Qed.

Lemma querySelectorAll_styled sel x g d :
  style_only g -> querySelectorAll sel (on_props (Node x) g d) = querySelectorAll sel d.
Proof.
  intros H. unfold querySelectorAll. rewrite document_order_on_props.
  rewrite (filter_map_same (matches sel) (update_props x g))
    by (intros a; apply matches_styled; exact H).
  rewrite List.map_map. apply List.map_ext. intros a. apply nid_of_update_props.
Qed.

Lemma querySelector_styled sel x g d :
  style_only g -> querySelector sel (on_props (Node x) g d) = querySelector sel d.
Proof.
  intros H. unfold querySelector. rewrite document_order_on_props.
  rewrite (find_map_same (matches sel) (update_props x g))
    by (intros a; apply matches_styled; exact H).
  destruct (List.find (matches sel) (document_order d)); [|reflexivity].
  cbn. rewrite nid_of_update_props. reflexivity.
Qed.

Lemma unstyled_update_props x g e : style_only g -> unstyled (update_props x g e) = unstyled e.
Proof.
  intros H. induction e as [i p ks IH] using Elem_ind. cbn [update_props unstyled]. f_equal.
  - destruct (i =? x); [apply H | reflexivity].
  - rewrite List.map_map. apply List.map_ext_Forall. exact IH.
Qed.

Lemma hidden_queries l : forall d,
  (forall sel, querySelectorAll sel (hidden l d) = querySelectorAll sel d)
  /\ (forall sel, querySelector sel (hidden l d) = querySelector sel d)
  /\ unstyled (doc_head (hidden l d)) = unstyled (doc_head d)
  /\ unstyled (doc_body (hidden l d)) = unstyled (doc_body d)
  /\ next_id (hidden l d) = next_id d.
Proof.
  induction l as [|h l IH]; intros d; [repeat split; reflexivity|].
  unfold hidden. cbn [List.fold_left]. fold (hidden l (on_props (Node h) hide d)).
  destruct (IH (on_props (Node h) hide d)) as (A & B & C & D & E).
  split; [intros sel; rewrite A; apply querySelectorAll_styled, hide_only|].
  split; [intros sel; rewrite B; apply querySelector_styled, hide_only|].
  split; [rewrite C; cbn [on_props doc_head]; apply unstyled_update_props, hide_only|].
  split; [rewrite D; cbn [on_props doc_body]; apply unstyled_update_props, hide_only|].
  rewrite E. reflexivity.
Qed.

Lemma initSmoothScroll_wires w :
  initSmoothScroll w
  = (set_listeners
       (listeners w ++ List.map (fun l => (OnNode l, Click, OnAnchorClick l))
                                (querySelectorAll (AnchorHrefPrefix "#") (document w))) w, Ok ()).
Proof.
  unfold initSmoothScroll, mbind, M_bind, dom_read.
  apply (listen_loop OnNode Click OnAnchorClick).
Qed.

Lemma initScrollAnimations_closed w :
  let d := document w in
  let animated := querySelectorAll (ByClass "workflow-card") d
                  ++ querySelectorAll (ByClass "config-item") d
                  ++ querySelectorAll (ByClass "feature-item") d in
  let headers := querySelectorAll (ByClass "section-header") d in
  initScrollAnimations w
  = (set_header_observed (List.fold_left watch headers (header_observed w))
       (set_document (hidden headers d)
          (set_observed (List.fold_left watch animated (observed w)) w)), Ok ()).
Proof.
  intros d animated headers. unfold initScrollAnimations, mbind, M_bind, dom_read.
  fold d. fold animated. rewrite observe_loop. world_simpl. fold d. fold headers.
  rewrite headers_loop. reflexivity.
Qed.

Lemma initButtonInteractions_wires w :
  let d := document w in
  initButtonInteractions w
  = (set_listeners
       (listeners w
        ++ flat_map cta_wiring [getElementById "heroCta" d; getElementById "ctaButton" d;
                                querySelector (ByClass "header-cta") d]
        ++ video_wiring (querySelector (ByClass "btn-secondary") d)) w, Ok ()).
Proof.
  intros d. unfold initButtonInteractions. unfold mbind, M_bind, dom_read. fold d.
  cbn [for_each]. unfold mbind, M_bind, mret, M_ret, addEventListener.
  destruct w as [d0 t tm fr ls ob hob py lsc sc dp un hi]. cbn [document] in d. subst d.
  destruct (getElementById "heroCta" d0); destruct (getElementById "ctaButton" d0);
    destruct (querySelector (ByClass "header-cta") d0); world_simpl;
    destruct (querySelector (ByClass "btn-secondary") d0); world_simpl;
    cbn [flat_map cta_wiring video_wiring app]; rewrite <- ?List.app_assoc, ?List.app_nil_r;
    reflexivity.
Qed.

(** What the four initialisers wire, and what they leave alone. *)
Lemma page_load_wires_and_never_throws
    (select : string -> Document -> Completion (option nid)) (click : nid -> M unit)
    (e : Event) (w : World) :
  let d := document w in
  let m := run_listener select click OnReady e in
  let w1 := state m w in
  completion m w = Ok ()
  /\ listeners w1
     = listeners w
       ++ List.map (fun l => (OnNode l, Click, OnAnchorClick l))
                   (querySelectorAll (AnchorHrefPrefix "#") d)
       ++ flat_map cta_wiring [getElementById "heroCta" d; getElementById "ctaButton" d;
                               querySelector (ByClass "header-cta") d]
       ++ video_wiring (querySelector (ByClass "btn-secondary") d)
       ++ [(OnWindow, Scroll, OnHeaderScroll (getElementById "header" d))]
  /\ timers w1 = timers w /\ frames w1 = frames w /\ uncaught w1 = uncaught w
  /\ scrolled_to w1 = scrolled_to w
  /\ unstyled (doc_head (document w1)) = unstyled (doc_head d)
  /\ unstyled (doc_body (document w1)) = unstyled (doc_body d)
  /\ next_id (document w1) = next_id d.
Proof.
  intros d m w1.
  set (headers := querySelectorAll (ByClass "section-header") d).
  destruct (hidden_queries headers d) as (A & B & C & D & E).
  assert (R : exists ob hob,
    m w = (set_listeners
             (listeners w
              ++ List.map (fun l => (OnNode l, Click, OnAnchorClick l))
                          (querySelectorAll (AnchorHrefPrefix "#") d)
              ++ flat_map cta_wiring [getElementById "heroCta" d; getElementById "ctaButton" d;
                                      querySelector (ByClass "header-cta") d]
              ++ video_wiring (querySelector (ByClass "btn-secondary") d)
              ++ [(OnWindow, Scroll, OnHeaderScroll (getElementById "header" d))])
             (set_header_observed hob (set_document (hidden headers d) (set_observed ob w))),
           Ok ())).
  { subst m. cbn [run_listener].
    unfold mbind at 1, M_bind at 1. rewrite initSmoothScroll_wires.
    unfold mbind at 1, M_bind at 1. rewrite initScrollAnimations_closed. cbv zeta. world_simpl.
    fold d. fold headers.
    unfold mbind at 1, M_bind at 1. rewrite initButtonInteractions_wires. cbv zeta. world_simpl.
    unfold initHeaderScroll, mbind, M_bind, dom_read, addEventListener. world_simpl.
    unfold getElementById. rewrite !B. rewrite <- !List.app_assoc.
    eexists _, _. reflexivity. }
  destruct R as (ob & hob & R). subst w1. unfold state, completion. rewrite R. world_simpl.
  repeat split; assumption.
Qed.

Lemma dispatch_step select fuel e w :
  dispatch select (S fuel) e w
  = along (fun l => run_listener select (nested_click select fuel) l e) (ev_type e)
          (event_path (ev_target e) (document w)) w.
Proof. reflexivity. Qed.

Lemma fire_step select e w :
  fire select e w
  = along (fun l => run_listener select (nested_click select 63) l e) (ev_type e)
          (event_path (ev_target e) (document w)) (set_default_prevented false w).
Proof. reflexivity. Qed.

Lemma settle_script w :
  settle script w
  = set_listeners (listeners w ++ [(OnDocument, DOMContentLoaded, OnReady);
                                   (OnDocument, Keydown, OnKeydown)]) w.
Proof.
  unfold settle, script, mbind, M_bind, addEventListener. world_simpl.
  rewrite <- List.app_assoc. reflexivity.
Qed.

Lemma filter_wiring_other t ty (l : list nid) o1 o2 o3 ov h :
  same_type Click ty = false -> same_target OnWindow t && same_type Scroll ty = false ->
  List.filter (fun r : EventTarget * EventType * Listener =>
                 same_target (fst (fst r)) t && same_type (snd (fst r)) ty)
    (List.map (fun l => (OnNode l, Click, OnAnchorClick l)) l
     ++ flat_map cta_wiring [o1; o2; o3] ++ video_wiring ov
     ++ [(OnWindow, Scroll, OnHeaderScroll h)]) = [].
Proof.
  intros Hc Hs. rewrite !List.filter_app.
  assert (Z1 : List.filter (fun r : EventTarget * EventType * Listener =>
                 same_target (fst (fst r)) t && same_type (snd (fst r)) ty)
                 (List.map (fun l => (OnNode l, Click, OnAnchorClick l)) l) = []).
  { induction l as [|x l IH]; [reflexivity|]. cbn [List.map List.filter fst snd].
    rewrite Hc, Bool.andb_false_r. exact IH. }
  assert (Z2 : forall o, List.filter (fun r : EventTarget * EventType * Listener =>
                 same_target (fst (fst r)) t && same_type (snd (fst r)) ty)
                 (cta_wiring o) = []).
  { intros [b|]; [|reflexivity]. cbn [cta_wiring List.filter fst snd].
    rewrite Hc, Bool.andb_false_r. reflexivity. }
  assert (Z3 : forall o, List.filter (fun r : EventTarget * EventType * Listener =>
                 same_target (fst (fst r)) t && same_type (snd (fst r)) ty)
                 (video_wiring o) = []).
  { intros [b|]; [|reflexivity]. cbn [video_wiring List.filter fst snd].
    rewrite Hc, Bool.andb_false_r. reflexivity. }
  cbn [flat_map]. rewrite !List.filter_app, Z1, !Z2, Z3. cbn [List.filter fst snd app].
  rewrite Hs. reflexivity.
Qed.

Lemma fire_ready select w :
  no_listener_for DOMContentLoaded w = true ->
  fire select Sample.ready (settle script w)
  = state (run_listener select (nested_click select 63) OnReady Sample.ready)
      (set_default_prevented false (settle script w)).
Proof.
  intros Hn. rewrite fire_step.
  cbn [Sample.ready ev_type ev_target event_path along].
  unfold listeners_on. cbn [inline_listeners app].
  rewrite settle_script. world_simpl.
  rewrite !List.filter_app, !(no_listener_for_filter _ DOMContentLoaded _ Hn).
  cbn [List.filter same_target same_type fst snd andb app List.map invoke_all].
  set (w0 := set_default_prevented false _).
  destruct (page_load_wires_and_never_throws select (nested_click select 63)
              Sample.ready w0) as (Hc & Hl & _).
  cbv zeta in Hc, Hl. unfold completion in Hc. unfold state in *.
  cbn [run_listener] in *.
  unfold settle.
  destruct ((initSmoothScroll ;; initScrollAnimations ;; initButtonInteractions ;; initHeaderScroll) w0)
    as [w' c] eqn:Em.
  cbn [snd fst] in *. subst c.
  rewrite Hl. subst w0. world_simpl.
  rewrite (List.filter_app _ (listeners w ++ _)).
  rewrite filter_wiring_other by reflexivity.
  rewrite List.filter_app, (no_listener_for_filter _ DOMContentLoaded _ Hn).
  reflexivity.
Qed.

(** X2.  The script run on a page and then the [DOMContentLoaded] event:
    the listeners registered are, in order, the ready and keydown listeners
    on the document, one anchor-click listener for each [a[href^="#"]] link
    in document order, a call-to-action listener for each of [#heroCta],
    [#ctaButton] and the first [.header-cta] that exists, the video listener
    on the first [.btn-secondary] if there is one, and the header scroll
    listener on the window.  The four initialisers throw nothing, set no
    timer, request no frame and no scroll, create no node, and change the
    document in inline styles only. *)
Theorem page_load_wires_handlers_and_throws_nothing
    (select : string -> Document -> Completion (option nid)) (w : World) :
  no_listener_for DOMContentLoaded w = true ->
  let d := document w in
  let w1 := fire select Sample.ready (settle script w) in
  listeners w1
  = listeners w
    ++ [(OnDocument, DOMContentLoaded, OnReady); (OnDocument, Keydown, OnKeydown)]
    ++ List.map (fun l => (OnNode l, Click, OnAnchorClick l))
                (querySelectorAll (AnchorHrefPrefix "#") d)
    ++ flat_map cta_wiring [getElementById "heroCta" d; getElementById "ctaButton" d;
                            querySelector (ByClass "header-cta") d]
    ++ video_wiring (querySelector (ByClass "btn-secondary") d)
    ++ [(OnWindow, Scroll, OnHeaderScroll (getElementById "header" d))]
  /\ uncaught w1 = uncaught w /\ timers w1 = timers w /\ frames w1 = frames w
  /\ scrolled_to w1 = scrolled_to w
  /\ unstyled (doc_head (document w1)) = unstyled (doc_head d)
  /\ unstyled (doc_body (document w1)) = unstyled (doc_body d)
  /\ next_id (document w1) = next_id d.
Proof.
  intros Hn d w1. subst w1. rewrite (fire_ready select w Hn).
  destruct (page_load_wires_and_never_throws select (nested_click select 63) Sample.ready
              (set_default_prevented false (settle script w)))
    as (_ & L & T & F & U & S & H & B & N).
  cbv zeta in *. rewrite L, T, F, U, S, H, B, N. rewrite settle_script. world_simpl.
  rewrite <- !List.app_assoc. repeat split; reflexivity.
Qed.

Lemma page_load_on_sample :
  no_listener_for DOMContentLoaded Sample.page = true
  /\ listeners Sample.loaded
     = [(OnDocument, DOMContentLoaded, OnReady); (OnDocument, Keydown, OnKeydown);
        (OnNode 3, Click, OnAnchorClick 3); (OnNode 4, Click, OnAnchorClick 4);
        (OnNode 6, Click, OnCtaClick 6); (OnNode 14, Click, OnCtaClick 14);
        (OnNode 5, Click, OnCtaClick 5); (OnNode 7, Click, OnVideoClick);
        (OnWindow, Scroll, OnHeaderScroll (Some 2))]
  /\ uncaught Sample.loaded = [].
Proof.
  split; [reflexivity|].
  destruct (page_load_wires_handlers_and_throws_nothing Sample.strict Sample.page eq_refl)
    as (L & U & _).
  split; [exact L | exact U].
Defined.

Lemma props_eq_style p q :
  with_style ∅ p = with_style ∅ q -> style p = style q -> p = q.
Proof.
  destruct p, q. unfold with_style. cbn. intros E S. injection E as -> -> -> -> -> -> -> ->.
  subst. reflexivity.
Qed.

Lemma hide_twice p : hide (hide p) = hide p.
Proof.
  apply props_eq_style; [reflexivity|].
  unfold hide, style_set, with_style. cbn [style].
  apply map_eq. intros k.
  destruct (decide (k = "transition")) as [->|H1]; [rewrite !lookup_insert_eq; reflexivity|].
  rewrite !(lookup_insert_ne _ "transition") by congruence.
  destruct (decide (k = "transform")) as [->|H2]; [rewrite !lookup_insert_eq; reflexivity|].
  rewrite !(lookup_insert_ne _ "transform") by congruence.
  destruct (decide (k = "opacity")) as [->|H3]; [rewrite !lookup_insert_eq; reflexivity|].
  rewrite !lookup_insert_ne by congruence.
  reflexivity.
Qed.

Lemma show_twice p : show (show p) = show p.
Proof.
  apply props_eq_style; [reflexivity|].
  unfold show, style_set, with_style. cbn [style].
  apply map_eq. intros k.
  destruct (decide (k = "transform")) as [->|H2]; [rewrite !lookup_insert_eq; reflexivity|].
  rewrite !(lookup_insert_ne _ "transform") by congruence.
  destruct (decide (k = "opacity")) as [->|H3]; [rewrite !lookup_insert_eq; reflexivity|].
  rewrite !lookup_insert_ne by congruence.
  reflexivity.
Qed.

Lemma mem_cons n x l : mem n (x :: l) = (n =? x) || mem n l.
Proof. reflexivity. Qed.

Lemma props_of_hidden e l : forall d,
  props <$> lookup_node e (hidden l d)
  = (if mem e l then hide else fun p => p) <$> (props <$> lookup_node e d).
Proof.
  induction l as [|h l IH]; intros d.
  - cbn. destruct (lookup_node e d); reflexivity.
  - unfold hidden. cbn [List.fold_left]. fold (hidden l (on_props (Node h) hide d)).
    rewrite IH, props_lookup_on_props, mem_cons, (Nat.eqb_sym e h).
    destruct (props <$> lookup_node e d) as [p|]; [|destruct (mem e l), (h =? e); reflexivity].
    destruct (h =? e), (mem e l); cbn; try reflexivity. rewrite hide_twice. reflexivity.
Qed.

Lemma mem_In n l : mem n l = true <-> In n l.
Proof.
  unfold mem. rewrite List.existsb_exists. split.
  - intros (x & Hx & E). apply Nat.eqb_eq in E. subst. exact Hx.
  - intros H. exists n. split; [exact H | apply Nat.eqb_refl].
Qed.

(** X3.  [initScrollAnimations] returns normally.  The first observer
    watches what it watched plus every [.workflow-card], [.config-item] and
    [.feature-item] element, the second what it watched plus every
    [.section-header], neither one twice.  Every section header gets the
    three inline styles [opacity: 0], [transform: translateY(30px)] and
    [transition: all 0.6s ease], and nothing else in the document changes;
    no timer is set, no listener registered, no error recorded. *)
Theorem scroll_animations_registered (w : World) :
  let d := document w in
  let animated := querySelectorAll (ByClass "workflow-card") d
                  ++ querySelectorAll (ByClass "config-item") d
                  ++ querySelectorAll (ByClass "feature-item") d in
  let headers := querySelectorAll (ByClass "section-header") d in
  let w1 := state initScrollAnimations w in
  completion initScrollAnimations w = Ok ()
  /\ (forall n, In n (observed w1) <-> In n (observed w) \/ In n animated)
  /\ (List.NoDup (observed w) -> List.NoDup (observed w1))
  /\ (forall n, In n (header_observed w1) <-> In n (header_observed w) \/ In n headers)
  /\ (List.NoDup (header_observed w) -> List.NoDup (header_observed w1))
  /\ (forall e, props_of e w1 = (if mem e headers then hide else fun p => p) <$> props_of e w)
  /\ (forall p, style (hide p)
                = <["transition" := Css "all 0.6s ease"]>
                    (<["transform" := Css "translateY(30px)"]>
                       (<["opacity" := Css "0"]> (style p))))
  /\ timers w1 = timers w /\ listeners w1 = listeners w /\ uncaught w1 = uncaught w.
Proof.
  intros d animated headers w1. subst w1. unfold state, completion.
  rewrite initScrollAnimations_closed. cbv zeta. world_simpl. fold d. fold animated. fold headers.
  split; [reflexivity|].
  split; [intros n; apply watch_all|].
  split; [apply watch_NoDup|].
  split; [intros n; apply watch_all|].
  split; [apply watch_NoDup|].
  split; [intros e; unfold props_of; world_simpl; apply props_of_hidden|].
  repeat split; reflexivity.
Qed.

(** *** Section headers coming into view *)

Lemma header_entry_shown x w : header_entry x w = (shown_entry x w, Ok ()).
Proof.
  unfold header_entry, shown_entry. destruct (isIntersecting x); [|reflexivity].
  unfold mbind, M_bind, dom, header_unobserve. world_simpl.
  rewrite on_props_Node_twice. reflexivity.
Qed.

Lemma header_callback_shown l : forall w,
  header_callback l w = (List.fold_left (fun w x => shown_entry x w) l w, Ok ()).
Proof.
  unfold header_callback. induction l as [|x l IH]; intros w; [reflexivity|].
  cbn [for_each List.fold_left]. unfold mbind, M_bind. rewrite header_entry_shown. apply IH.
Qed.

Lemma mem_filter_other n t l :
  mem n (List.filter (fun y => negb (t =? y)) l) = mem n l && negb (t =? n).
Proof.
  unfold mem. induction l as [|y r IHr]; [reflexivity|].
  cbn [List.filter existsb]. destruct (t =? y) eqn:Exy; cbn [negb existsb].
  - rewrite IHr. apply Nat.eqb_eq in Exy. subst y.
    destruct (n =? t) eqn:En.
    + rewrite (Nat.eqb_sym t n), En. cbn. rewrite Bool.andb_false_r. reflexivity.
    + reflexivity.
  - rewrite IHr. destruct (n =? y) eqn:En; [|reflexivity].
    apply Nat.eqb_eq in En. subst y. rewrite Exy. reflexivity.
Qed.

Lemma shown_entry_frame x w :
  timers (shown_entry x w) = timers w /\ uncaught (shown_entry x w) = uncaught w
  /\ observed (shown_entry x w) = observed w /\ frames (shown_entry x w) = frames w
  /\ listeners (shown_entry x w) = listeners w.
Proof. unfold shown_entry. destruct (isIntersecting x); repeat split; reflexivity. Qed.

Lemma shown_entry_props e x w :
  props_of e (shown_entry x w)
  = (if (target x =? e) && isIntersecting x then show else fun p => p) <$> props_of e w.
Proof.
  unfold shown_entry. destruct (isIntersecting x).
  - rewrite Bool.andb_true_r. unfold props_of. world_simpl. apply props_lookup_on_props.
  - rewrite Bool.andb_false_r. destruct (props_of e w); reflexivity.
Qed.

Lemma shown_entry_mem n x w :
  mem n (header_observed (shown_entry x w))
  = mem n (header_observed w) && negb ((target x =? n) && isIntersecting x).
Proof.
  unfold shown_entry. destruct (isIntersecting x); world_simpl.
  - rewrite Bool.andb_true_r. apply mem_filter_other.
  - rewrite Bool.andb_false_r, Bool.andb_true_r. reflexivity.
Qed.

Lemma shown_fold e l : forall w,
  let w' := List.fold_left (fun w x => shown_entry x w) l w in
  props_of e w' = (if reports e l then show else fun p => p) <$> props_of e w
  /\ (forall n, mem n (header_observed w')
                = mem n (header_observed w) && negb (reports n l))
  /\ timers w' = timers w /\ uncaught w' = uncaught w /\ observed w' = observed w
  /\ frames w' = frames w /\ listeners w' = listeners w.
Proof.
  induction l as [|x l IH]; intros w; cbn [List.fold_left]; cbv zeta.
  - split; [destruct (props_of e w); reflexivity|].
    split; [intros n; cbn; rewrite Bool.andb_true_r; reflexivity|]. repeat split; reflexivity.
  - destruct (IH (shown_entry x w)) as (P & M & T & U & O & F & L). cbv zeta in *.
    destruct (shown_entry_frame x w) as (T0 & U0 & O0 & F0 & L0).
    rewrite P, T, U, O, F, L, T0, U0, O0, F0, L0. clear P T U O F L.
    split; [|split; [|repeat split; reflexivity]].
    + rewrite shown_entry_props. unfold reports. cbn [existsb].
      destruct (props_of e w) as [p|];
        [|destruct (existsb _ l), ((target x =? e) && isIntersecting x); reflexivity].
      destruct ((target x =? e) && isIntersecting x), (existsb _ l); cbn; try reflexivity.
      rewrite show_twice. reflexivity.
    + intros n. rewrite M, shown_entry_mem. unfold reports. cbn [existsb].
      rewrite Bool.negb_orb, Bool.andb_assoc. reflexivity.
Qed.

Lemma reports_observed e obs b :
  reports e (List.filter (fun x => mem (target x) obs) b) = mem e obs && reports e b.
Proof.
  unfold reports. induction b as [|x b IH]; [rewrite Bool.andb_false_r; reflexivity|].
  cbn [List.filter existsb]. destruct (mem (target x) obs) eqn:Em; cbn [existsb]; rewrite IH.
  - destruct (target x =? e) eqn:Et; cbn [andb orb].
    + apply Nat.eqb_eq in Et. subst e. rewrite Em. cbn [andb].
      destruct (isIntersecting x); reflexivity.
    + reflexivity.
  - destruct (target x =? e) eqn:Et; cbn [andb orb]; [|reflexivity].
    apply Nat.eqb_eq in Et. subst e. rewrite Em. reflexivity.
Qed.

Lemma notify_headers_shown b w :
  notify_headers b w
  = List.fold_left (fun w x => shown_entry x w)
      (List.filter (fun x => mem (target x) (header_observed w)) b) w.
Proof. unfold notify_headers, settle. rewrite header_callback_shown. reflexivity. Qed.

(** X4.  The section-header observer: the first notification that reports
    an observed header [h] as intersecting writes [opacity: 1] and
    [transform: translateY(0)] into its inline style at once, with no timer,
    and stops observing it, so that no later notification touches [h]
    again.  An element that is not observed, or not reported as
    intersecting, keeps its properties and its observation. *)
Theorem section_header_shown_once (h : nid) (b b' : list Entry) (w : World) :
  mem h (header_observed w) = true -> reports h b = true ->
  let w1 := notify_headers b w in
  let w2 := notify_headers b' w1 in
  props_of h w1 = show <$> props_of h w
  /\ (forall p, style (show p)
                = <["transform" := Css "translateY(0)"]> (<["opacity" := Css "1"]> (style p)))
  /\ mem h (header_observed w1) = false
  /\ props_of h w2 = props_of h w1
  /\ timers w1 = timers w /\ uncaught w1 = uncaught w
  /\ (forall e, mem e (header_observed w) = false \/ reports e b = false ->
                props_of e w1 = props_of e w
                /\ mem e (header_observed w1) = mem e (header_observed w)).
Proof.
  intros Hm Hr w1 w2.
  destruct (shown_fold h (List.filter (fun x => mem (target x) (header_observed w)) b) w)
    as (P & M & T & U & _).
  cbv zeta in P, M, T, U. rewrite <- notify_headers_shown in P, M, T, U. fold w1 in P, M, T, U.
  rewrite reports_observed, Hm, Hr in P. cbn [andb] in P.
  assert (M1 : mem h (header_observed w1) = false).
  { rewrite M, reports_observed, Hm, Hr. reflexivity. }
  split; [exact P|]. split; [reflexivity|]. split; [exact M1|].
  split; [|split; [exact T | split; [exact U|]]].
  - destruct (shown_fold h (List.filter (fun x => mem (target x) (header_observed w1)) b') w1)
      as (P2 & _).
    cbv zeta in P2. rewrite <- notify_headers_shown in P2. fold w2 in P2.
    rewrite reports_observed, M1 in P2. cbn [andb] in P2.
    rewrite P2. destruct (props_of h w1); reflexivity.
  - intros e He.
    destruct (shown_fold e (List.filter (fun x => mem (target x) (header_observed w)) b) w)
      as (Pe & Me & _).
    cbv zeta in Pe, Me. rewrite <- notify_headers_shown in Pe, Me. fold w1 in Pe, Me.
    rewrite reports_observed in Pe. rewrite Me, reports_observed.
    destruct He as [He | He]; rewrite He in *; cbn [andb negb] in *.
    + split; [rewrite Pe; destruct (props_of e w); reflexivity | reflexivity].
    + rewrite Bool.andb_false_r in *. cbn [negb].
      split; [rewrite Pe; destruct (props_of e w); reflexivity | apply Bool.andb_true_r].
Qed.

Lemma section_header_on_sample :
  let w := Sample.loaded in
  let w1 := notify_headers [mkEntry 9 true; mkEntry 8 true] w in
  (mem 9 (header_observed w) = true /\ reports 9 [mkEntry 9 true; mkEntry 8 true] = true)
  /\ (style <$> props_of 9 w)
     = Some (<["transition" := Css "all 0.6s ease"]>
               (<["transform" := Css "translateY(30px)"]> {[ "opacity" := Css "0" ]}))
  /\ props_of 9 w1 = show <$> props_of 9 w
  /\ props_of 9 (notify_headers [mkEntry 9 true] w1) = props_of 9 w1
  /\ props_of 8 w1 = props_of 8 w.
Proof.
  intros w w1. split; [split; reflexivity|].
  destruct (section_header_shown_once 9 [mkEntry 9 true; mkEntry 8 true] [mkEntry 9 true] w
              eq_refl eq_refl) as (A & _ & _ & B & _ & _ & C).
  split; [vm_compute; reflexivity|].
  split; [exact A | split; [exact B|]].
  apply (C 8). left. reflexivity.
Defined.

Lemma scroll_animations_on_sample :
  let w := Sample.page in
  observed (state initScrollAnimations w) = [10; 13; 11; 12]
  /\ header_observed (state initScrollAnimations w) = [9].
Proof. split; reflexivity. Qed.

End Page.

(** ** Closing a dialog, the confirmation panel *)

Module Dialogs.
Import F64 Dom Browser Script Shapes Scenes Trees Steps Facts Reveals Page.
Local Open Scope nat_scope.

(** *** Paths *)

Lemma fold_path_none n l :
  Forall (fun k => path_in n k = None) l ->
  List.fold_right (fun k acc => match path_in n k with Some l => Some l | None => acc end)
                  None l = None.
Proof.
  induction 1 as [|k l Hk _ IH]; [reflexivity|]. cbn [List.fold_right]. rewrite Hk. exact IH.
Qed.

Lemma path_in_absent n e : absent n e -> path_in n e = None.
Proof.
  induction e as [i p ks IH] using Elem_ind. intros H. apply absent_El in H.
  destruct H as [Hi Hk]. cbn [path_in]. apply Nat.eqb_neq in Hi. rewrite Hi.
  rewrite fold_path_none; [reflexivity|].
  rewrite List.Forall_forall in *. intros k Hin. apply IH; [exact Hin | apply Hk; exact Hin].
Qed.

Lemma fold_path_app n l1 l2 :
  Forall (absent n) l1 ->
  List.fold_right (fun k acc => match path_in n k with Some l => Some l | None => acc end)
                  None (l1 ++ l2)
  = List.fold_right (fun k acc => match path_in n k with Some l => Some l | None => acc end)
                    None l2.
Proof.
  induction 1 as [|k l Hk _ IH]; [reflexivity|]. cbn [List.fold_right app].
  rewrite (path_in_absent n k Hk). exact IH.
Qed.

Section InOverlay.

Variables (H : Elem) (bp : Props) (O : Elem) (d : Document) (m n : nid) (path : list nid).

Hypothesis AH : absent n H.
Hypothesis Ab : absent n (doc_body d).
Hypothesis HO : path_in n O = Some path.

Let D := with_overlay H bp O d m.

Lemma ancestors_in_overlay : ancestors n D = path ++ [nid_of (doc_body d)].
Proof.
  unfold ancestors, first_path, D, with_overlay. cbn [doc_head doc_body detached List.fold_right].
  rewrite (path_in_absent n H AH).
  destruct (doc_body d) as [bi bq ks] eqn:Eb. apply absent_El in Ab. destruct Ab as [Hi Hk].
  cbn [nid_of kids path_in]. apply Nat.eqb_neq in Hi. rewrite Hi.
  rewrite (fold_path_app n ks [O] Hk). cbn [List.fold_right]. rewrite HO. reflexivity.
Qed.

Lemma path_in_found e l : path_in n e = Some l -> existsb (is_node n) (flatten e) = true.
Proof.
  revert l. induction e as [i p ks IH] using Elem_ind. intros l. cbn [path_in flatten existsb].
  unfold is_node at 1. cbn [nid_of]. destruct (i =? n); [reflexivity|]. cbn [orb].
  intros E. induction ks as [|k ks IHk]; [discriminate|].
  cbn [flat_map List.fold_right] in *. rewrite List.existsb_app.
  apply List.Forall_cons_iff in IH. destruct IH as [IH1 IH2].
  destruct (path_in n k) as [lk|] eqn:Ek.
  - rewrite (IH1 lk eq_refl). reflexivity.
  - rewrite (IHk IH2 E). apply Bool.orb_true_r.
Qed.

Lemma in_document_in_overlay : in_document n D = true.
Proof.
  unfold in_document, document_order, D, with_overlay. cbn [doc_head doc_body].
  rewrite List.existsb_app. cbn [flatten existsb].
  rewrite List.flat_map_app, List.existsb_app. cbn [flat_map]. rewrite List.app_nil_r.
  rewrite (path_in_found O path HO). rewrite !Bool.orb_true_r. reflexivity.
Qed.

Lemma event_path_in_overlay :
  event_path (OnNode n) D
  = List.map OnNode path ++ [OnNode (nid_of (doc_body d)); OnDocument; OnWindow].
Proof.
  unfold event_path. rewrite ancestors_in_overlay, in_document_in_overlay.
  rewrite List.map_app, <- List.app_assoc. reflexivity.
Qed.

End InOverlay.

(** *** Listeners *)



Lemma clicks_elsewhere m body ls t :
  clicks_on_elements m body ls = true ->
  match t with OnNode n => m <= n \/ n = body | _ => True end ->
  List.filter (fun r : EventTarget * EventType * Listener =>
                 same_target (fst (fst r)) t && same_type (snd (fst r)) Click) ls = [].
Proof.
  intros Hc Ht. induction ls as [|r ls IH]; [reflexivity|].
  cbn [clicks_on_elements forallb] in Hc. apply andb_prop in Hc. destruct Hc as [Hr Hl].
  cbn [List.filter]. rewrite (IH Hl). destruct r as [[t0 ty] l]. cbn [fst snd] in *.
  destruct ty; cbn [same_type]; rewrite ?Bool.andb_false_r; try reflexivity.
  destruct t0 as [x| |]; try discriminate. apply andb_prop in Hr. destruct Hr as [H1 H2].
  apply Nat.ltb_lt in H1. apply Bool.negb_true_iff, Nat.eqb_neq in H2.
  destruct t as [n| |]; cbn [same_target]; try reflexivity.
  assert (E : (x =? n) = false) by (apply Nat.eqb_neq; lia). rewrite E. reflexivity.
Qed.

Lemma along_quiet run ty path w :
  Forall (fun t => listeners_on t ty w = []) path -> along run ty path w = w.
Proof.
  induction 1 as [|t path Ht _ IH]; [reflexivity|]. cbn [along]. rewrite Ht. exact IH.
Qed.

Lemma along_cons run ty t r w :
  along run ty (t :: r) w = along run ty r (invoke_all run (listeners_on t ty w) w).
Proof. reflexivity. Qed.

Ltac eqb_lia :=
  repeat match goal with
         | |- context [?a =? ?b] =>
             first [rewrite (proj2 (Nat.eqb_neq a b)) by lia
                   | rewrite (proj2 (Nat.eqb_eq a b)) by lia]
         end.







Section DialogClicks.

Variable select : string -> Document -> Completion (option nid).
Variables (W : World) (H : Elem) (bp op : Props) (oks : list Elem) (d : Document) (m o : nid).
Variable L : list (EventTarget * EventType * Listener).

Hypothesis HD : document W = with_overlay H bp (El o op oks) d m.
Hypothesis HN : no_inline (document W) = true.
Hypothesis HL : listeners W = L ++ [(OnNode (2 + o), Click, OnCloseClick o);
                                    (OnNode o, Click, OnBackdropClick o)].
Hypothesis HC : clicks_on_elements o (nid_of (doc_body d)) L = true.
Hypothesis AH : forall n, o <= n -> n <= 2 + o -> absent n H.
Hypothesis Ab : forall n, o <= n -> absent n (doc_body d).
Hypothesis HPc : path_in (2 + o) (El o op oks) = Some [2 + o; 1 + o; o].
Hypothesis HPp : path_in (1 + o) (El o op oks) = Some [1 + o; o].


Let W0 := set_default_prevented false W.









End DialogClicks.

(** *** The overlay a dialog has just opened *)

Lemma forallb_flatten_shift (P : Props -> bool) k e :
  forallb (fun x => P (props x)) (flatten (shift k e))
  = forallb (fun x => P (props x)) (flatten e).
Proof.
  induction e as [i p ks IH] using Elem_ind. cbn [shift flatten forallb props]. f_equal.
  induction ks as [|a ks IHk]; [reflexivity|]. cbn [List.map flat_map].
  apply List.Forall_cons_iff in IH. destruct IH as [Ha Hk].
  rewrite !List.forallb_app, Ha, (IHk Hk). reflexivity.
Qed.

Lemma forallb_forest_shift (P : Props -> bool) k l :
  forallb (fun x => P (props x)) (flat_map flatten (List.map (shift k) l))
  = forallb (fun x => P (props x)) (flat_map flatten l).
Proof.
  induction l as [|a l IH]; [reflexivity|]. cbn [List.map flat_map].
  rewrite !List.forallb_app, forallb_flatten_shift, IH. reflexivity.
Qed.

Lemma no_inline_opened markup d :
  forallb (fun x => match onclick (props x) with None => true | Some _ => false end)
          (flat_map flatten markup) = true ->
  no_inline d = true -> no_inline (opened markup d) = true.
Proof.
  intros Hm Hd. unfold no_inline in *. unfold all_nodes, document_order in *.
  set (P := fun x : Elem => match onclick (props x) with None => true | Some _ => false end) in *.
  rewrite !List.forallb_app in Hd. apply andb_prop in Hd. destruct Hd as [Hd Hdt].
  apply andb_prop in Hd. destruct Hd as [Hh Hb].
  unfold opened. cbv zeta. cbn [doc_head doc_body detached].
  rewrite !List.forallb_app, Hdt, Bool.andb_true_r. apply andb_true_intro. split.
  - unfold inject. destruct (getElementById _ _); cbn [doc_head add_to_head]; [exact Hh|].
    destruct (doc_head d) as [hi hp hks]. cbn [nid_of props kids flatten forallb] in *.
    apply andb_prop in Hh. destruct Hh as [Hh1 Hh2].
    rewrite List.flat_map_app, List.forallb_app, Hh2.
    unfold P in *. cbn [props] in *. rewrite Hh1. reflexivity.
  - destruct (doc_body d) as [bi bq bks]. cbn [nid_of props kids flatten forallb] in *.
    apply andb_prop in Hb. destruct Hb as [Hb1 Hb2].
    rewrite List.flat_map_app, List.forallb_app, Hb2. cbn [andb flat_map].
    rewrite List.app_nil_r. unfold overlay_node. cbn [flatten forallb].
    apply andb_true_intro. split; [unfold P in *; cbn [props] in *; exact Hb1|].
    unfold P at 1. cbn [props onclick with_classList blank andb].
    exact (eq_trans (forallb_forest_shift (fun p => match onclick p with None => true | Some _ => false end) _ markup) Hm).
Qed.

Section Opened.

Variable select : string -> Document -> Completion (option nid).
Variables (markup : list Elem) (w : World) (framed : bool).

Let o := next_id (document w).
Let W := shown framed (opened_world markup w).

Hypothesis Hwf : parts_bounded (document w).
Hypothesis Hni : no_inline (document w) = true.
Hypothesis Hcl :
  clicks_on_elements (next_id (document w)) (nid_of (doc_body (document w))) (listeners w) = true.
Hypothesis Hfr : frames w = [].
Hypothesis Hmk : markup = video_modal_html \/ markup = demo_modal_html.




End Opened.






Section Removed.

Variables (hd bd : Elem) (dt : list Elem) (n : nid).
Hypothesis Hh : absent n hd.
Hypothesis Hb : absent n bd.
Hypothesis Hd : Forall (absent n) dt.

Lemma absent_root e : absent n e -> is_node n e = false.
Proof.
  destruct e as [i p ks]. intros A. apply absent_El in A. unfold is_node. cbn [nid_of].
  apply Nat.eqb_neq. tauto.
Qed.

(** Removing a node that is already out of the tree changes nothing. *)
Lemma remove_detached_last p ks m :
  remove n (mkDocument hd bd (dt ++ [El n p ks]) m) = mkDocument hd bd (dt ++ [El n p ks]) m.
Proof.
  unfold remove. rewrite lookup_created by assumption. cbn [doc_head doc_body].
  rewrite !absent_root by assumption. cbn [orb].
  unfold unlink. cbn [doc_head doc_body detached next_id].
  rewrite !prune_absent by assumption.
  rewrite prune_forest_app, prune_forest_absent' by assumption.
  unfold prune_forest. cbn [flat_map nid_of]. rewrite Nat.eqb_refl. cbn [app].
  rewrite List.app_nil_r. reflexivity.
Qed.

End Removed.

Lemma style_clear_twice k p : style_clear k (style_clear k p) = style_clear k p.
Proof.
  apply props_eq_style; [reflexivity|]. unfold style_clear, with_style. cbn [style].
  apply map_eq. intros j. destruct (decide (j = k)) as [->|Hj].
  - rewrite !lookup_delete_eq. reflexivity.
  - rewrite !lookup_delete_ne by congruence. reflexivity.
Qed.

Section TwoCloses.

Variables (X : World) (H : Elem) (bp op : Props) (oks : list Elem) (d : Document) (m o : nid).
Hypothesis HD : document X = with_overlay H bp (El o op oks) d m.
Hypothesis AH : absent o H.
Hypothesis Ab : absent o (doc_body d).
Hypothesis Ad : Forall (absent o) (detached d).
Hypothesis Ak : Forall (absent o) oks.
Hypothesis HT : timers X = [((now X + 300)%Z, CbCloseFinish o); ((now X + 300)%Z, CbCloseFinish o)].

Lemma advance_two_closes :
  document (advance 300 X)
  = mkDocument H (El (nid_of (doc_body d)) (style_clear "overflow" bp) (kids (doc_body d)))
               (detached d ++ [El o op oks]) m
  /\ uncaught (advance 300 X) = uncaught X
  /\ timers (advance 300 X) = []
  /\ now (advance 300 X) = (now X + 300)%Z.
Proof.
  unfold advance. rewrite HT. cbn [List.filter fst]. change (Z.max 0 300) with 300%Z.
  rewrite Z.leb_refl. cbn [negb List.filter].
  unfold firing_order. cbn [List.fold_left insert_timer fst]. rewrite Z.ltb_irrefl.
  cbn [insert_timer List.fold_left].
  unfold run_timer. world_simpl. unfold settle, run_callback, mbind, M_bind, dom. world_simpl.
  rewrite HD. rewrite remove_overlay by assumption.
  assert (Ab' : absent o (El (nid_of (doc_body d)) bp (kids (doc_body d)))).
  { destruct (doc_body d) as [bi bq bks]. apply absent_El in Ab. apply absent_El. exact Ab. }
  cbn [on_props doc_head doc_body detached next_id].
  rewrite remove_detached_last.
  - cbn [on_props doc_head doc_body detached next_id]. rewrite style_clear_twice.
    repeat split; reflexivity.
  - exact AH.
  - apply absent_El. apply absent_El in Ab'. exact Ab'.
  - exact Ad.
Qed.

End TwoCloses.

Lemma remove_class_keeps_onclick c p : onclick (remove_class c p) = onclick p.
Proof. reflexivity. Qed.

Lemma has_class_remove_other c c' p :
  c <> c' -> has_class c (remove_class c' p) = has_class c p.
Proof.
  intros Hne. unfold has_class, remove_class. cbn [classList with_classList].
  induction (classList p) as [|x l IH]; [reflexivity|]. cbn [List.filter existsb].
  destruct (String.eqb c' x) eqn:E; cbn [negb existsb]; rewrite IH; [|reflexivity].
  apply String.eqb_eq in E. subst x.
  assert (F : String.eqb c c' = false) by (apply String.eqb_neq; exact Hne).
  rewrite F. reflexivity.
Qed.



Section Panel.

Variables (H : Elem) (bi : nid) (bp : Props) (ks : list Elem).
Variables (o : nid) (op : Props) (c : nid) (cp : Props).

Hypothesis Ao_H : absent o H.
Hypothesis Ao_b : bi <> o.
Hypothesis Ao_k : Forall (absent o) ks.
Hypothesis Ac_H : absent c H.
Hypothesis Ac_b : bi <> c.
Hypothesis Ac_k : Forall (absent c) ks.
Hypothesis Ac_o : o <> c.

Lemma lookup_overlay_panel cks dt m :
  lookup_node o (with_panel H bi bp ks o op c cp cks dt m) = Some (El o op [El c cp cks]).
Proof.
  unfold lookup_node, all_nodes, document_order, with_panel. cbn [doc_head doc_body detached].
  rewrite !find_app, (find_absent o H Ao_H). cbn [flatten List.find].
  unfold is_node at 1. cbn [nid_of]. apply Nat.eqb_neq in Ao_b. rewrite Ao_b.
  rewrite List.flat_map_app, find_app, (find_absent_forest o ks Ao_k).
  cbn [flat_map flatten List.find app]. unfold is_node at 1. cbn [nid_of].
  rewrite Nat.eqb_refl. reflexivity.
Qed.

Lemma lookup_panel cks dt m :
  lookup_node c (with_panel H bi bp ks o op c cp cks dt m) = Some (El c cp cks).
Proof.
  unfold lookup_node, all_nodes, document_order, with_panel. cbn [doc_head doc_body detached].
  rewrite !find_app, (find_absent c H Ac_H). cbn [flatten List.find].
  unfold is_node at 1. cbn [nid_of]. apply Nat.eqb_neq in Ac_b. rewrite Ac_b.
  rewrite List.flat_map_app, find_app, (find_absent_forest c ks Ac_k).
  cbn [flat_map flatten List.find app]. unfold is_node at 1 2. cbn [nid_of].
  apply Nat.eqb_neq in Ac_o. rewrite Ac_o, Nat.eqb_refl. reflexivity.
Qed.

Lemma on_kids_panel h cks dt m :
  Forall (absent c) cks -> Forall (absent c) dt ->
  on_kids (Node c) h (with_panel H bi bp ks o op c cp cks dt m)
  = with_panel H bi bp ks o op c cp (h cks) dt m.
Proof.
  intros Hc Hd. unfold on_kids, with_panel. cbn [doc_head doc_body detached next_id].
  rewrite (update_kids_absent c h H Ac_H), (map_update_kids_absent c h dt Hd).
  cbn [update_kids]. apply Nat.eqb_neq in Ac_b, Ac_o. rewrite Ac_b.
  rewrite List.map_app, (map_update_kids_absent c h ks Ac_k).
  cbn [List.map update_kids]. rewrite Ac_o, Nat.eqb_refl.
  rewrite (map_update_kids_absent c h cks Hc). reflexivity.
Qed.

Lemma set_innerHTML_panel markup cks dt m :
  Forall (absent c) cks -> Forall (absent c) dt ->
  set_innerHTML c markup (with_panel H bi bp ks o op c cp cks dt m)
  = with_panel H bi bp ks o op c cp (List.map (shift m) markup) (dt ++ cks) (m + size markup).
Proof.
  intros Hc Hd. unfold set_innerHTML. rewrite lookup_panel.
  cbn [with_panel next_id]. fold (with_panel H bi bp ks o op c cp cks dt m).
  rewrite on_kids_panel by assumption. reflexivity.
Qed.

Lemma prependChild_panel n p cks dt m :
  absent n H -> bi <> n -> Forall (absent n) ks -> o <> n -> c <> n ->
  Forall (absent n) cks -> Forall (absent n) dt ->
  Forall (absent c) cks -> Forall (absent c) dt ->
  prependChild (Node c) n (with_panel H bi bp ks o op c cp cks (dt ++ [El n p []]) m)
  = with_panel H bi bp ks o op c cp (El n p [] :: cks) dt m.
Proof.
  intros An_H An_b An_k An_o An_c An_ck An_d Hc Hd.
  assert (An_body : absent n (El bi bp (ks ++ [El o op [El c cp cks]]))).
  { apply absent_El. split; [exact An_b|]. apply List.Forall_app. split; [exact An_k|].
    constructor; [|constructor]. apply absent_El. split; [exact An_o|].
    constructor; [|constructor]. apply absent_El. split; [exact An_c | exact An_ck]. }
  unfold prependChild. unfold with_panel at 1.
  rewrite (lookup_created H _ dt n An_H An_body An_d).
  unfold unlink. cbn [with_panel doc_head doc_body detached next_id].
  rewrite (prune_absent n H An_H), (prune_absent n _ An_body).
  rewrite prune_forest_app, (prune_forest_absent' n dt An_d).
  unfold prune_forest at 1. cbn [flat_map nid_of]. rewrite Nat.eqb_refl. cbn [app].
  rewrite List.app_nil_r.
  fold (with_panel H bi bp ks o op c cp cks dt m).
  apply on_kids_panel; assumption.
Qed.

End Panel.

Lemma success_markup_bounded : Forall (bounded (size success_html)) success_html.
Proof. apply bounded_check. reflexivity. Qed.

Lemma shifted_bounded k markup :
  Forall (bounded (size markup)) markup ->
  Forall (bounded (size markup + k)) (List.map (shift k) markup).
Proof.
  intros H. apply List.Forall_map. eapply List.Forall_impl; [|exact H].
  intros e He. apply shift_bounded. exact He.
Qed.

Section Success.

Variables (H : Elem) (bi : nid) (bp : Props) (ks : list Elem).
Variables (o : nid) (op : Props) (c : nid) (cp : Props) (cks dt : list Elem) (m : nid).
Variable X : World.

Hypothesis Ao_H : absent o H.
Hypothesis Ao_b : bi <> o.
Hypothesis Ao_k : Forall (absent o) ks.
Hypothesis Ac_H : absent c H.
Hypothesis Ac_b : bi <> c.
Hypothesis Ac_k : Forall (absent c) ks.
Hypothesis Ac_o : o <> c.
Hypothesis Ac_ck : Forall (absent c) cks.
Hypothesis Ac_d : Forall (absent c) dt.
Hypothesis Bm_H : bounded m H.
Hypothesis Bm_b : bi < m.
Hypothesis Bm_k : Forall (bounded m) ks.
Hypothesis Bm_o : o < m.
Hypothesis Bm_c : c < m.
Hypothesis Bm_ck : Forall (bounded m) cks.
Hypothesis Bm_d : Forall (bounded m) dt.
Hypothesis Hcontent : has_class "modal-content" cp = true.
Hypothesis HX : document X = with_panel H bi bp ks o op c cp cks dt m.

Lemma showSuccessMessage_panel :
  showSuccessMessage o X
  = (set_listeners (listeners X ++ [(OnNode (m + 5), Click, OnCloseClick o)])
       (set_document
          (with_panel H bi bp ks o op c cp
             (new_close_control (m + 5) :: List.map (shift m) success_html)
             (dt ++ cks) (S (m + 5))) X), Ok ()).
Proof.
  set (n := m + 5).
  assert (Fr : Forall (bounded n) (List.map (shift m) success_html)).
  { eapply Forall_bounded_mono; [apply shifted_bounded, success_markup_bounded|].
    subst n. cbn. lia. }
  assert (Fc : Forall (absent c) (List.map (shift m) success_html))
    by (apply shift_absent; exact Bm_c).
  assert (An_H : absent n H) by (eapply bounded_absent; [exact Bm_H | subst n; lia]).
  assert (An_k : Forall (absent n) ks) by (eapply Forall_bounded_absent; [exact Bm_k | subst n; lia]).
  assert (An_ck : Forall (absent n) cks)
    by (eapply Forall_bounded_absent; [exact Bm_ck | subst n; lia]).
  assert (An_d : Forall (absent n) dt) by (eapply Forall_bounded_absent; [exact Bm_d | subst n; lia]).
  assert (An_f : Forall (absent n) (List.map (shift m) success_html))
    by (eapply Forall_bounded_absent; [exact Fr | lia]).
  assert (An_dd : Forall (absent n) (dt ++ cks)) by (apply List.Forall_app; split; assumption).
  assert (Ac_dd : Forall (absent c) (dt ++ cks)) by (apply List.Forall_app; split; assumption).
  assert (An_body : absent n (El bi bp (ks ++ [El o op [El c cp (List.map (shift m) success_html)]]))).
  { apply absent_El. split; [subst n; lia|]. apply List.Forall_app. split; [exact An_k|].
    constructor; [|constructor]. apply absent_El. split; [subst n; lia|].
    constructor; [|constructor]. apply absent_El. split; [subst n; lia | exact An_f]. }
  unfold showSuccessMessage, mbind, M_bind, dom_read.
  unfold elem_querySelector. rewrite HX, lookup_overlay_panel by assumption.
  cbn [descendants kids flat_map flatten app List.find matches props]. rewrite Hcontent.
  cbn [fmap option_fmap option_map nid_of deref]. unfold mret at 1, M_ret at 1.
  unfold dom at 1. world_simpl. rewrite HX.
  rewrite set_innerHTML_panel by assumption.
  unfold dom_new, createElement. world_simpl.
  cbn [with_panel doc_head doc_body detached next_id].
  change (m + size success_html) with n.
  unfold dom at 1. world_simpl.
  rewrite (on_props_created H _ (dt ++ cks) n An_H An_body An_dd).
  unfold dom at 1. world_simpl.
  rewrite (on_props_created H _ (dt ++ cks) n An_H An_body An_dd).
  unfold addEventListener. world_simpl. unfold dom. world_simpl.
  fold (with_panel H bi bp ks o op c cp (List.map (shift m) success_html)
          ((dt ++ cks) ++ [El n (with_text "&times;" (with_classList ["modal-close"] (blank "button"))) []])
          (S n)).
  rewrite prependChild_panel; try assumption; try (subst n; lia).
  reflexivity.
Qed.

End Success.

Lemma props_flatten_shift k e :
  List.map props (flatten (shift k e)) = List.map props (flatten e).
Proof.
  induction e as [i p ks IH] using Elem_ind. cbn [shift flatten List.map props]. f_equal.
  induction ks as [|a ks IHk]; [reflexivity|]. cbn [List.map flat_map].
  apply List.Forall_cons_iff in IH. destruct IH as [Ha Hk].
  rewrite !List.map_app, Ha, (IHk Hk). reflexivity.
Qed.

Lemma filter_matches_props sel l l' :
  List.map props l = List.map props l' ->
  length (List.filter (matches sel) l) = length (List.filter (matches sel) l').
Proof.
  revert l'. induction l as [|a l IH]; intros [|a' l'] E; try discriminate; [reflexivity|].
  cbn [List.map] in E. injection E as Ea El. cbn [List.filter].
  assert (M : matches sel a = matches sel a').
  { destruct a, a'. cbn [props] in Ea. subst. reflexivity. }
  rewrite M. destruct (matches sel a'); cbn [length]; rewrite (IH l' El); reflexivity.
Qed.

Lemma count_forest_shift sel k l :
  count_forest sel (List.map (shift k) l) = count_forest sel l.
Proof.
  unfold count_forest. apply filter_matches_props.
  induction l as [|a l IH]; [reflexivity|]. cbn [List.map flat_map].
  rewrite !List.map_app, props_flatten_shift, IH. reflexivity.
Qed.

Lemma count_matching_panel sel H bi bp ks o op c cp cks dt m :
  count_matching sel (with_panel H bi bp ks o op c cp cks dt m)
  = count_in sel H
    + (b2n (matches sel (El 0 bp [])) + (count_forest sel ks
       + (b2n (matches sel (El 0 op [])) + (b2n (matches sel (El 0 cp []))
          + count_forest sel cks)))).
Proof.
  rewrite count_matching_parts. unfold with_panel. cbn [doc_head doc_body].
  rewrite count_in_El, count_forest_app, count_forest_one, count_in_El, count_forest_one,
    count_in_El. reflexivity.
Qed.

Lemma parts_bounded_opened markup d :
  parts_bounded d -> Forall (bounded (size markup)) markup ->
  parts_bounded (opened markup d).
Proof.
  intros Hp Hm.
  pose proof (inject_bounded "modal-styles" modal_stylesheet _
                (parts_bounded_with_overlay d markup Hp Hm)) as (Bh & Bb & Bd).
  rewrite inject_body in Bb. rewrite inject_detached in Bd.
  cbn [doc_body detached] in Bb, Bd. apply List.Forall_app in Bd. destruct Bd as [Bd BO].
  apply List.Forall_cons_iff in BO. destruct BO as [BO _].
  unfold opened. cbv zeta. split; [|split]; cbn [doc_head doc_body detached next_id].
  - exact Bh.
  - destruct (doc_body d) as [bi bq bks]. cbn [nid_of props kids]. apply bounded_El in Bb.
    destruct Bb as [Bi Bk]. apply bounded_El. split; [exact Bi|].
    apply List.Forall_app. split; [exact Bk | constructor; [exact BO | constructor]].
  - exact Bd.
Qed.

Lemma opened_demo_is_panel d :
  opened demo_modal_html d
  = with_panel (doc_head (opened demo_modal_html d)) (nid_of (doc_body d))
      (style_set "overflow" (Css "hidden") (props (doc_body d))) (kids (doc_body d))
      (next_id d) (with_classList ["modal-overlay"] (blank "div"))
      (S (next_id d)) (tagged "div" ["modal-content"] "")
      (List.map (shift (S (next_id d))) demo_panel_children)
      (detached d) (next_id (opened demo_modal_html d)).
Proof. reflexivity. Qed.

Lemma opened_head_absent markup d x :
  parts_bounded d -> next_id d <= x -> x <= next_id d + size markup ->
  absent x (doc_head (opened markup d)).
Proof.
  intros (Hh & _) H1 H2. unfold opened. cbv zeta. cbn [doc_head].
  apply inject_head_absent.
  - cbn [doc_head]. eapply bounded_absent; [exact Hh | exact H1].
  - cbn [next_id]. lia.
Qed.

Lemma submit_closed_form select click e w :
  parts_bounded (document w) ->
  let o := next_id (document w) in
  let W := opened_world demo_modal_html w in
  let m := next_id (document W) in
  run_listener select click (OnDemoSubmit o) e W
  = (set_listeners (listeners W ++ [(OnNode (m + 5), Click, OnCloseClick o)])
       (set_document (confirmed (document w)) (set_default_prevented true W)), Ok ()).
Proof.
  intros Hp o W m. pose proof Hp as (Hh & Hb & Hd).
  set (d := document w) in *.
  assert (ED : document (set_default_prevented true W)
               = with_panel (doc_head (opened demo_modal_html d)) (nid_of (doc_body d))
                   (style_set "overflow" (Css "hidden") (props (doc_body d))) (kids (doc_body d))
                   o (with_classList ["modal-overlay"] (blank "div"))
                   (S o) (tagged "div" ["modal-content"] "")
                   (List.map (shift (S o)) demo_panel_children) (detached d) m).
  { subst m W. cbn [document set_default_prevented]. rewrite document_opened_world.
    apply opened_demo_is_panel. }
  assert (PB : parts_bounded (opened demo_modal_html d))
    by (apply parts_bounded_opened; [exact Hp | exact demo_markup_bounded]).
  rewrite (opened_demo_is_panel d) in PB. fold o in PB.
  assert (Em : m = next_id (opened demo_modal_html d)).
  { subst m W. rewrite document_opened_world. reflexivity. }
  rewrite <- Em in PB.
  destruct PB as (BH & BB & BD). cbn [with_panel doc_head doc_body detached next_id] in BH, BB, BD.
  apply bounded_El in BB. destruct BB as [Bbi BB]. apply List.Forall_app in BB.
  destruct BB as [Bks BO]. apply List.Forall_cons_iff in BO. destruct BO as [BO _].
  apply bounded_El in BO. destruct BO as [Bo BO]. apply List.Forall_cons_iff in BO.
  destruct BO as [BC _]. apply bounded_El in BC. destruct BC as [Bc Bcks].
  assert (AoH : forall n, o <= n -> n <= S o -> absent n (doc_head (opened demo_modal_html d))).
  { intros n H1 H2. apply opened_head_absent; [exact Hp | exact H1 | cbn; fold o; lia]. }
  assert (Abi : nid_of (doc_body d) < o).
  { destruct (doc_body d) as [bi bq bks]. apply bounded_El in Hb. cbn [nid_of]. tauto. }
  assert (Aks : forall n, o <= n -> Forall (absent n) (kids (doc_body d))).
  { intros n Hn. destruct (doc_body d) as [bi bq bks]. apply bounded_El in Hb.
    destruct Hb as [_ Hk]. cbn [kids]. eapply Forall_bounded_absent; [exact Hk | exact Hn]. }
  assert (Acks : Forall (absent (S o)) (List.map (shift (S o)) demo_panel_children)).
  { cbn [demo_panel_children demo_modal_html List.map shift Nat.add].
    repeat constructor; cbn [nid_of]; lia. }
  assert (Adt : Forall (absent (S o)) (detached d))
    by (eapply Forall_bounded_absent; [exact Hd | lia]).
  cbn [run_listener]. unfold mbind, M_bind, preventDefault.
  rewrite (showSuccessMessage_panel (doc_head (opened demo_modal_html d)) (nid_of (doc_body d))
             (style_set "overflow" (Css "hidden") (props (doc_body d))) (kids (doc_body d))
             o (with_classList ["modal-overlay"] (blank "div")) (S o)
             (tagged "div" ["modal-content"] "")
             (List.map (shift (S o)) demo_panel_children) (detached d) m
             (set_default_prevented true W)
             (AoH o ltac:(lia) ltac:(lia)) ltac:(lia) (Aks o ltac:(lia))
             (AoH (S o) ltac:(lia) ltac:(lia)) ltac:(lia) (Aks (S o) ltac:(lia))
             ltac:(lia) Acks Adt BH Bbi Bks Bo Bc Bcks BD eq_refl ED).
  unfold confirmed, confirmation. cbv zeta. fold d o. rewrite <- Em. reflexivity.
Qed.

(** X7.  The body of the submit handler ([preventDefault], then
    [showSuccessMessage]) run on the open information-request dialog
    returns normally with the default action prevented.  The panel
    [.modal-content] keeps its identity and properties; its children are
    replaced by a new [.modal-close] button, first, followed by the
    confirmation markup.  One click listener is registered, on the new
    button; no timer is set and no frame requested; the document has the
    same number of overlays and of [.modal-close] elements as before and one
    more [.success-content].  On an overlay with no [.modal-content]
    descendant [showSuccessMessage] throws a [TypeError] and changes
    nothing. *)
Theorem submit_handler_shows_confirmation
    (select : string -> Document -> Completion (option nid)) (click : nid -> M unit)
    (e : Event) (w : World) :
  well_formed (document w) ->
  let o := next_id (document w) in
  let W := state showDemoModal w in
  let m := next_id (document W) in
  let handler := run_listener select click (OnDemoSubmit o) e in
  let W1 := state handler W in
  completion handler W = Ok ()
  /\ default_prevented W1 = true
  /\ lookup_node (S o) (document W1)
     = Some (El (S o) (tagged "div" ["modal-content"] "")
                (new_close_control (m + 5) :: List.map (shift m) success_html))
  /\ listeners W1 = listeners W ++ [(OnNode (m + 5), Click, OnCloseClick o)]
  /\ timers W1 = timers W /\ frames W1 = frames W /\ uncaught W1 = uncaught W
  /\ overlays (document W1) = overlays (document W)
  /\ count_matching (ByClass "modal-close") (document W1)
     = count_matching (ByClass "modal-close") (document W)
  /\ count_matching (ByClass "success-content") (document W1)
     = S (count_matching (ByClass "success-content") (document W))
  /\ (forall n X, elem_querySelector n (ByClass "modal-content") (document X) = None ->
                  showSuccessMessage n X = (X, Throw TypeError)).
Proof.
  intros Hwf o W m handler W1. pose proof (well_formed_bounded _ Hwf) as Hp.
  pose proof Hp as (Hh & Hb & Hd).
  assert (EW : W = opened_world demo_modal_html w).
  { subst W. unfold state. rewrite (showDemoModal_opened w Hp). reflexivity. }
  pose proof (submit_closed_form select click e w Hp) as EH. cbv zeta in EH.
  rewrite <- EW in EH. fold o m in EH. fold handler in EH.
  subst W1. unfold state, completion. rewrite EH. world_simpl.
  split; [reflexivity|]. split; [reflexivity|].
  split.
  { unfold confirmed. cbv zeta. fold o. rewrite <- document_opened_world, <- EW. fold m.
    apply lookup_panel; try lia.
    - rewrite EW, document_opened_world.
      apply opened_head_absent; [exact Hp | fold o; lia | cbn; fold o; lia].
    - destruct (doc_body (document w)) as [bi bq bks]. apply bounded_El in Hb. cbn [nid_of].
      fold o in Hb. lia.
    - destruct (doc_body (document w)) as [bi bq bks]. apply bounded_El in Hb.
      destruct Hb as [_ Hk]. cbn [kids]. eapply Forall_bounded_absent; [exact Hk | fold o; lia]. }
  split; [reflexivity|]. split; [reflexivity|]. split; [reflexivity|]. split; [reflexivity|].
  unfold overlays. rewrite EW, document_opened_world, (opened_demo_is_panel (document w)).
  unfold confirmed. cbv zeta. rewrite !count_matching_panel.
  unfold confirmation.
  change (new_close_control ?x :: List.map (shift ?k) success_html)
    with ([new_close_control x] ++ List.map (shift k) success_html).
  rewrite !count_forest_app, !count_forest_shift.
  split; [reflexivity|]. split; [reflexivity|]. split.
  { cbn [count_forest flat_map flatten new_close_control List.filter matches props has_class
         classList with_text with_classList blank existsb String.eqb Ascii.eqb Bool.eqb
         orb andb app length success_html demo_modal_html demo_panel_children tagged
         with_onclick]. lia. }
  intros n X Hn. unfold showSuccessMessage, mbind, M_bind, dom_read. rewrite Hn. reflexivity.
Qed.

Lemma submit_handler_on_open_dialog :
  let w := Sample.loaded in
  let W := state showDemoModal w in
  let submit := mkEvent Submit (OnNode 15) (ofZ 0) (ofZ 0) "" in
  let W1 := state (run_listener Sample.strict (fun _ => mret tt) (OnDemoSubmit 15) submit) W in
  well_formed (document w)
  /\ default_prevented W1 = true
  /\ overlays (document W1) = 1
  /\ timers W1 = []
  /\ count_matching (ByClass "success-content") (document W1) = 1.
Proof.
  intros w W submit W1.
  assert (Hwf : well_formed (document w)) by (vm_compute; reflexivity).
  split; [exact Hwf|].
  pose proof (submit_handler_shows_confirmation Sample.strict (fun _ => mret tt) submit w Hwf)
    as P.
  cbv zeta in P. change (next_id (document w)) with 15 in P. fold W in P. fold W1 in P.
  destruct P as (_ & A & _ & _ & T & _ & _ & O & _ & S & _).
  split; [exact A | split; [rewrite O; reflexivity | split; [rewrite T; reflexivity|]]].
  rewrite S. reflexivity.
Defined.

Lemma props_of_overlay_opened markup w :
  parts_bounded (document w) ->
  props_of (next_id (document w)) (opened_world markup w)
  = Some (with_classList ["modal-overlay"] (blank "div")).
Proof.
  intros (Hh & Hb & Hd). unfold props_of. rewrite document_opened_world, opened_with_overlay.
  cbv zeta. unfold overlay_node. rewrite lookup_overlay; [reflexivity | |].
  - apply inject_head_absent; [|cbn; lia].
    cbn [doc_head]. eapply bounded_absent; [exact Hh | lia].
  - eapply bounded_absent; [exact Hb | lia].
Qed.

Lemma animation_frame_opened markup w :
  frames w = [] ->
  animation_frame (opened_world markup w)
  = set_document (on_props (Node (next_id (document w))) (add_class "active")
                    (document (opened_world markup w)))
      (set_frames [] (opened_world markup w)).
Proof.
  intros Hf. unfold animation_frame, opened_world. world_simpl. rewrite Hf. reflexivity.
Qed.

(** X8.  The [active] class over the life of a dialog.  The overlay is
    appended with the class [modal-overlay] only and one frame callback
    pending; the next animation frame adds [active], and later frames
    change nothing.  [closeModal] after that frame removes [active] at once,
    300 time units before the overlay is removed.  [closeModal] before the
    frame is undone by it: the frame callback still runs, the overlay is
    [active] again while its removal is pending, and no error is
    recorded. *)
Theorem overlay_is_active_from_the_frame_to_the_close (w W0 : World) :
  well_formed (document w) -> frames w = [] ->
  W0 = state showVideoModal w \/ W0 = state showDemoModal w ->
  let o := next_id (document w) in
  let plain := with_classList ["modal-overlay"] (blank "div") in
  let active := with_classList ["modal-overlay"; "active"] (blank "div") in
  props_of o W0 = Some plain
  /\ frames W0 = [CbAddActive o]
  /\ props_of o (animation_frame W0) = Some active
  /\ frames (animation_frame W0) = []
  /\ animation_frame (animation_frame W0) = animation_frame W0
  /\ props_of o (state (closeModal o) (animation_frame W0)) = Some plain
  /\ props_of o (animation_frame (state (closeModal o) W0)) = Some active
  /\ uncaught (animation_frame (state (closeModal o) W0)) = uncaught W0.
Proof.
  intros Hwf Hf HW o plain active. pose proof (well_formed_bounded _ Hwf) as Hp.
  assert (E : exists markup, W0 = opened_world markup w).
  { destruct HW as [-> | ->]; unfold state.
    - exists video_modal_html. rewrite (showVideoModal_opened w Hp). reflexivity.
    - exists demo_modal_html. rewrite (showDemoModal_opened w Hp). reflexivity. }
  clear HW. destruct E as (markup & ->).
  pose proof (props_of_overlay_opened markup w Hp) as P0. fold o plain in P0.
  pose proof (animation_frame_opened markup w Hf) as AF. fold o in AF.
  assert (P1 : props_of o (animation_frame (opened_world markup w)) = Some active).
  { rewrite AF. unfold props_of in *. world_simpl. rewrite props_lookup_on_props, P0.
    rewrite Nat.eqb_refl. reflexivity. }
  split; [exact P0|].
  split; [unfold opened_world; world_simpl; rewrite Hf; reflexivity|].
  split; [exact P1|].
  split; [rewrite AF; reflexivity|].
  split; [rewrite AF; reflexivity|].
  split.
  { unfold state. rewrite closeModal_closing. cbn [fst]. unfold closing, props_of in *.
    world_simpl. rewrite props_lookup_on_props, P1, Nat.eqb_refl. reflexivity. }
  unfold state. rewrite closeModal_closing. cbn [fst].
  assert (AF2 : animation_frame (closing o (opened_world markup w))
                = set_document (on_props (Node o) (add_class "active")
                                  (document (closing o (opened_world markup w))))
                    (set_frames [] (closing o (opened_world markup w)))).
  { unfold animation_frame, closing, opened_world. world_simpl. rewrite Hf. reflexivity. }
  rewrite AF2. split; [|reflexivity].
  unfold props_of in *. world_simpl. rewrite props_lookup_on_props, Nat.eqb_refl.
  unfold closing. world_simpl. rewrite props_lookup_on_props, Nat.eqb_refl, P0. reflexivity.
Qed.

Lemma overlay_active_on_sample :
  let w := Sample.loaded in
  let W0 := state showVideoModal w in
  (well_formed (document w) /\ frames w = [])
  /\ (classList <$> props_of 15 W0) = Some ["modal-overlay"]
  /\ (classList <$> props_of 15 (animation_frame W0)) = Some ["modal-overlay"; "active"]
  /\ (classList <$> props_of 15 (state (closeModal 15) (animation_frame W0)))
     = Some ["modal-overlay"].
Proof.
  intros w W0.
  assert (Hwf : well_formed (document w)) by (vm_compute; reflexivity).
  split; [split; [exact Hwf | reflexivity]|].
  destruct (overlay_is_active_from_the_frame_to_the_close w W0 Hwf eq_refl (or_introl eq_refl))
    as (A & _ & B & _ & _ & C & _).
  change (next_id (document w)) with 15 in A, B, C.
  rewrite A, B, C. repeat split; reflexivity.
Defined.

Lemma with_panel_overlay H bi bp ks o op c cp cks dt m q x :
  with_panel H bi bp ks o op c cp cks dt m
  = with_overlay H bp (El o op [El c cp cks]) (mkDocument x (El bi q ks) dt 0) m.
Proof. reflexivity. Qed.

Lemma find_forallb {A} (f P : A -> bool) l a :
  forallb P l = true -> List.find f l = Some a -> P a = true.
Proof.
  intros H E. apply List.find_some in E. destruct E as [Hin _].
  rewrite List.forallb_forall in H. apply H. exact Hin.
Qed.

Section Confirmed.

Variable select : string -> Document -> Completion (option nid).
Variables (H : Elem) (bi : nid) (bp : Props) (ks : list Elem) (o c : nid) (cp : Props).
Variables (dt : list Elem) (m n top old : nid).
Variable L : list (EventTarget * EventType * Listener).

Hypothesis IH : forallb no_handler (flatten H) = true.
Hypothesis Ibp : onclick bp = None.
Hypothesis Icp : onclick cp = None.
Hypothesis Ccp : has_class "modal-overlay" cp = false /\ has_class "modal-close" cp = false.
Hypothesis BH : forall x, x = o \/ x = c \/ m <= x <= n -> absent x H.
Hypothesis Bb : bi < o.
Hypothesis Bk : Forall (bounded o) ks.
Hypothesis Boc : o < c.
Hypothesis Bcm : c < m.
Hypothesis Bmn : 4 + m < n.
Hypothesis HC : clicks_on_elements o bi L = true.
Hypothesis Hold : o < old /\ old < m /\ old <> c.
Hypothesis Bdt : Forall (absent o) dt.

(** The worlds the dispatch goes through: the overlay's own properties
    change, the rest stays. *)
Let confirmed_world (op : Props) (X : World) : Prop :=
  document X = with_panel H bi bp ks o op c cp (confirmation m n) dt top
  /\ has_class "modal-overlay" op = true /\ onclick op = None
  /\ listeners X = L ++ [(OnNode old, Click, OnCloseClick o);
                         (OnNode o, Click, OnBackdropClick o);
                         (OnNode n, Click, OnCloseClick o)].

Lemma absent_here x :
  x = o \/ x = c \/ m <= x <= n -> absent x H /\ bi <> x /\ Forall (absent x) ks.
Proof.
  intros H1. split; [apply BH; assumption|]. split; [lia|].
  eapply Forall_bounded_absent; [exact Bk | lia].
Qed.

Lemma lookup_in_panel op X x :
  confirmed_world op X -> x = o \/ x = c \/ m <= x <= n ->
  lookup_node x (document X)
  = match List.find (is_node x) (flatten (El o op [El c cp (confirmation m n)])) with
    | Some e => Some e
    | None => List.find (is_node x) (flat_map flatten dt)
    end.
Proof.
  intros (HD & _) H1. destruct (absent_here x H1) as (A1 & A2 & A3).
  rewrite HD. unfold lookup_node, all_nodes, document_order, with_panel.
  cbn [doc_head doc_body detached].
  rewrite !find_app, (find_absent x H A1).
  change (flatten (El bi bp (ks ++ [El o op [El c cp (confirmation m n)]])))
    with (El bi bp (ks ++ [El o op [El c cp (confirmation m n)]])
          :: flat_map flatten (ks ++ [El o op [El c cp (confirmation m n)]])).
  cbn [List.find]. unfold is_node at 1. cbn [nid_of]. apply Nat.eqb_neq in A2. rewrite A2.
  rewrite List.flat_map_app, find_app, (find_absent_forest x ks A3).
  cbn [flat_map]. rewrite List.app_nil_r. reflexivity.
Qed.

Ltac find_simpl :=
  cbn [confirmation new_close_control success_html List.map shift Nat.add flatten flat_map app
       List.find];
  repeat (unfold is_node at 1; cbn [nid_of]; eqb_lia; cbn [List.find]).

Lemma inline_on_button op X :
  confirmed_world op X ->
  inline_listeners (OnNode (4 + m)) Click X = [OnInline (4 + m) CloseNearestOverlay].
Proof.
  intros HX. cbn [inline_listeners]. rewrite (lookup_in_panel op X (4 + m) HX) by lia.
  find_simpl. reflexivity.
Qed.

Lemma inline_quiet op X x :
  confirmed_world op X -> In x [m; c; o; n] ->
  inline_listeners (OnNode x) Click X = [].
Proof.
  intros HX Hin. pose proof HX as (_ & _ & Iop & _). cbn [inline_listeners].
  cbn [In] in Hin.
  destruct Hin as [<- | [<- | [<- | [<- | []]]]];
    rewrite (lookup_in_panel op X _ HX) by lia; find_simpl;
    cbn [props onclick tagged with_text with_classList blank]; rewrite ?Iop, ?Icp; reflexivity.
Qed.

Lemma inline_body op X : confirmed_world op X -> inline_listeners (OnNode bi) Click X = [].
Proof.
  intros (HD & _). cbn [inline_listeners]. rewrite HD.
  unfold lookup_node, all_nodes, document_order, with_panel. cbn [doc_head doc_body detached].
  rewrite !find_app.
  destruct (List.find (is_node bi) (flatten H)) as [e|] eqn:E.
  - pose proof (find_forallb _ _ _ _ IH E) as P. unfold no_handler in P.
    destruct (onclick (props e)); [discriminate | reflexivity].
  - cbn [flatten List.find]. unfold is_node at 1. cbn [nid_of]. rewrite Nat.eqb_refl.
    cbn [props]. rewrite Ibp. reflexivity.
Qed.

Lemma registered_here op X t :
  confirmed_world op X ->
  match t with OnNode x => o <= x \/ x = bi | _ => True end ->
  List.map snd (List.filter (fun r => same_target (fst (fst r)) t && same_type (snd (fst r)) Click)
                            (listeners X))
  = List.map snd (List.filter (on_target t)
                    [(OnNode old, Click, OnCloseClick o);
                     (OnNode o, Click, OnBackdropClick o);
                     (OnNode n, Click, OnCloseClick o)]).
Proof.
  intros (_ & _ & _ & HL) Ht. rewrite HL, List.filter_app.
  rewrite (clicks_elsewhere o bi L t HC Ht). reflexivity.
Qed.

Ltac pick2 :=
  unfold on_target; cbn [List.filter same_target same_type fst snd]; eqb_lia;
  cbn [andb List.filter List.map snd app invoke_all run_listener].

Lemma listeners_quiet op X t :
  confirmed_world op X ->
  In t [OnNode m; OnNode c; OnNode bi; OnDocument; OnWindow] ->
  listeners_on t Click X = [].
Proof.
  intros HX Hin. unfold listeners_on. destruct Hold as (O1 & O2 & O3).
  cbn [In] in Hin. destruct Hin as [<- | [<- | [<- | [<- | [<- | []]]]]].
  - rewrite (inline_quiet op X m HX) by (cbn; auto).
    rewrite (registered_here op X _ HX) by (left; lia). pick2. reflexivity.
  - rewrite (inline_quiet op X c HX) by (cbn; auto).
    rewrite (registered_here op X _ HX) by (left; lia). pick2. reflexivity.
  - rewrite (inline_body op X HX).
    rewrite (registered_here op X _ HX) by (right; reflexivity). pick2. reflexivity.
  - rewrite (registered_here op X _ HX) by exact I. reflexivity.
  - rewrite (registered_here op X _ HX) by exact I. reflexivity.
Qed.

Lemma listeners_on_overlay op X :
  confirmed_world op X -> listeners_on (OnNode o) Click X = [OnBackdropClick o].
Proof.
  intros HX. unfold listeners_on. destruct Hold as (O1 & O2 & O3).
  rewrite (inline_quiet op X o HX) by (cbn; auto).
  rewrite (registered_here op X _ HX) by (left; lia). pick2. reflexivity.
Qed.

Lemma listeners_on_control op X :
  confirmed_world op X -> listeners_on (OnNode n) Click X = [OnCloseClick o].
Proof.
  intros HX. unfold listeners_on. destruct Hold as (O1 & O2 & O3).
  rewrite (inline_quiet op X n HX) by (cbn; auto).
  rewrite (registered_here op X _ HX) by (left; lia). pick2. reflexivity.
Qed.

Lemma listeners_on_button op X :
  confirmed_world op X ->
  listeners_on (OnNode (4 + m)) Click X = [OnInline (4 + m) CloseNearestOverlay].
Proof.
  intros HX. unfold listeners_on. destruct Hold as (O1 & O2 & O3).
  rewrite (inline_on_button op X HX).
  rewrite (registered_here op X _ HX) by (left; lia). pick2. reflexivity.
Qed.

Lemma overlay_kids_absent : Forall (absent o) [El c cp (confirmation m n)].
Proof.
  constructor; [|constructor]. unfold absent.
  cbn [confirmation new_close_control success_html List.map shift Nat.add flatten flat_map app].
  repeat constructor; cbn [nid_of]; lia.
Qed.

Lemma closing_confirmed op X :
  confirmed_world op X -> confirmed_world (remove_class "active" op) (closing o X).
Proof.
  intros (HD & Hop & Iop & HL). unfold confirmed_world, closing. world_simpl.
  destruct (absent_here o ltac:(lia)) as (A1 & A2 & A3).
  split; [|split; [|split; [exact Iop | exact HL]]].
  - rewrite HD. rewrite (with_panel_overlay _ _ _ _ _ _ _ _ _ _ _ bp H).
    rewrite on_props_overlay.
    + reflexivity.
    + exact A1.
    + cbn [doc_body]. apply absent_El. split; [exact A2 | exact A3].
    + exact Bdt.
    + exact overlay_kids_absent.
  - rewrite has_class_remove_other by discriminate. exact Hop.
Qed.

Lemma unprevented_confirmed op X b :
  confirmed_world op X -> confirmed_world op (set_default_prevented b X).
Proof. intros HX. exact HX. Qed.

Ltac path_simpl2 :=
  repeat (cbn [path_in confirmation new_close_control success_html List.map shift
               List.fold_right Nat.add app]; eqb_lia).

Lemma path_button op :
  path_in (4 + m) (El o op [El c cp (confirmation m n)]) = Some [4 + m; m; c; o].
Proof. path_simpl2. reflexivity. Qed.

Lemma path_control op :
  path_in n (El o op [El c cp (confirmation m n)]) = Some [n; c; o].
Proof. path_simpl2. reflexivity. Qed.

Lemma event_path_here op X x path :
  confirmed_world op X -> x = o \/ x = c \/ m <= x <= n ->
  path_in x (El o op [El c cp (confirmation m n)]) = Some path ->
  event_path (OnNode x) (document X)
  = List.map OnNode path ++ [OnNode bi; OnDocument; OnWindow]
  /\ ancestors x (document X) = path ++ [bi].
Proof.
  intros (HD & _) H1 HP. destruct (absent_here x H1) as (A1 & A2 & A3).
  rewrite HD, (with_panel_overlay _ _ _ _ _ _ _ _ _ _ _ bp H).
  assert (Ab : absent x (doc_body (mkDocument H (El bi bp ks) dt 0))).
  { cbn [doc_body]. apply absent_El. split; assumption. }
  split.
  - apply (event_path_in_overlay H bp _ _ top x path A1 Ab HP).
  - apply (ancestors_in_overlay H bp _ _ top x path A1 Ab HP).
Qed.

Lemma closest_overlay op X :
  confirmed_world op X ->
  closest (4 + m) (ByClass "modal-overlay") (document X) = Some o.
Proof.
  intros HX. pose proof HX as (_ & Hop & _). destruct Ccp as [C1 C2].
  unfold closest.
  destruct (event_path_here op X (4 + m) _ HX ltac:(lia) (path_button op)) as [_ A].
  rewrite A. cbn [app List.find].
  rewrite (lookup_in_panel op X (4 + m) HX) by lia. find_simpl.
  cbn [matches props has_class classList tagged with_onclick with_text with_classList blank
       existsb String.eqb Ascii.eqb Bool.eqb orb].
  rewrite (lookup_in_panel op X m HX) by lia. find_simpl.
  cbn [matches props has_class classList tagged with_onclick with_text with_classList blank
       existsb String.eqb Ascii.eqb Bool.eqb orb].
  rewrite (lookup_in_panel op X c HX) by lia. find_simpl.
  cbn [matches props]. rewrite C1.
  rewrite (lookup_in_panel op X o HX) by lia. find_simpl.
  cbn [matches props]. rewrite Hop. reflexivity.
Qed.

Lemma query_close_control op X :
  confirmed_world op X ->
  elem_querySelector o (ByClass "modal-close") (document X) = Some n.
Proof.
  intros HX. destruct Ccp as [C1 C2]. unfold elem_querySelector.
  rewrite (lookup_in_panel op X o HX) by lia. find_simpl.
  cbn [descendants kids flat_map flatten app List.find matches props]. rewrite C2.
  cbn [confirmation new_close_control flat_map flatten app List.find matches props has_class
       classList with_text with_classList blank existsb String.eqb Ascii.eqb Bool.eqb orb].
  reflexivity.
Qed.

Lemma quiet_tail run op X :
  confirmed_world op X -> along run Click [OnNode bi; OnDocument; OnWindow] X = X.
Proof.
  intros HX. apply along_quiet.
  repeat constructor; apply (listeners_quiet op X _ HX); cbn; auto 10.
Qed.

(** The [click()] on the new close control, from inside the inline handler. *)
Lemma click_on_new_control fuel op X :
  confirmed_world op X ->
  dispatch select (S fuel) (click_event n) X = closing o X.
Proof.
  intros HX. pose proof (closing_confirmed op X HX) as HX1.
  rewrite dispatch_step. cbn [click_event ev_type ev_target].
  destruct (event_path_here op X n _ HX ltac:(lia) (path_control op)) as [P _].
  rewrite P. cbn [List.map app].
  rewrite along_cons, (listeners_on_control op X HX).
  cbn [invoke_all run_listener]. unfold settle at 1. rewrite closeModal_closing.
  rewrite along_cons, (listeners_quiet _ _ (OnNode c) HX1) by (cbn; auto).
  cbn [invoke_all].
  rewrite along_cons, (listeners_on_overlay _ _ HX1).
  cbn [invoke_all run_listener]. unfold target_is. cbn [ev_target click_event]. eqb_lia.
  unfold settle, mret, M_ret.
  apply (quiet_tail _ _ _ HX1).
Qed.

Lemma inline_close_closes_twice fuel op X :
  confirmed_world op X ->
  inline_close (nested_click select (S fuel)) (4 + m) X
  = (closing o (set_default_prevented (default_prevented X)
                  (closing o (set_default_prevented false X))), Ok ()).
Proof.
  intros HX. unfold inline_close, mbind, M_bind, dom_read.
  rewrite (closest_overlay op X HX). cbn [deref]. unfold mret at 1, M_ret at 1.
  rewrite (query_close_control op X HX).
  unfold nested_click at 1.
  rewrite (click_on_new_control fuel op (set_default_prevented false X)
             (unprevented_confirmed op X false HX)).
  pose proof (closing_confirmed op _ (unprevented_confirmed op X false HX)) as HX1.
  pose proof (unprevented_confirmed _ _ (default_prevented X) HX1) as HX2.
  rewrite (closest_overlay _ _ HX2). cbn [deref]. unfold mret, M_ret.
  apply closeModal_closing.
Qed.

(** A click on the Close button of the confirmation panel. *)
Lemma click_on_confirmation_button op Y :
  confirmed_world op Y ->
  fire select (click_event (4 + m)) Y
  = closing o (closing o (set_default_prevented false Y)).
Proof.
  intros HY. pose proof (unprevented_confirmed op Y false HY) as HY0.
  rewrite fire_step. cbn [click_event ev_type ev_target].
  change (document (set_default_prevented false Y)) with (document Y).
  destruct (event_path_here op Y (4 + m) _ HY ltac:(lia) (path_button op)) as [P _].
  rewrite P. cbn [List.map app].
  rewrite along_cons, (listeners_on_button op _ HY0).
  cbn [invoke_all run_listener]. unfold settle at 1.
  rewrite (inline_close_closes_twice 62 op _ HY0).
  change (default_prevented (set_default_prevented false Y)) with false.
  set (Y1 := closing o (set_default_prevented false (set_default_prevented false Y))).
  assert (HY1 : confirmed_world (remove_class "active" op) Y1)
    by (apply closing_confirmed; exact HY0).
  assert (E1 : set_default_prevented false Y1 = Y1) by reflexivity.
  rewrite E1.
  pose proof (closing_confirmed _ _ HY1) as HY2.
  rewrite along_cons, (listeners_quiet _ _ (OnNode m) HY2) by (cbn; auto).
  cbn [invoke_all].
  rewrite along_cons, (listeners_quiet _ _ (OnNode c) HY2) by (cbn; auto 10).
  cbn [invoke_all].
  rewrite along_cons, (listeners_on_overlay _ _ HY2).
  cbn [invoke_all run_listener]. unfold target_is. cbn [ev_target click_event]. eqb_lia.
  unfold settle, mret, M_ret.
  rewrite (quiet_tail _ _ _ HY2). reflexivity.
Qed.

Lemma button_props op X :
  confirmed_world op X ->
  (props <$> lookup_node (4 + m) (document X))
  = Some (with_onclick CloseNearestOverlay (tagged "button" ["modal-submit"] "Close")).
Proof.
  intros HX. rewrite (lookup_in_panel op X (4 + m) HX) by lia. find_simpl. reflexivity.
Qed.

End Confirmed.

Lemma no_inline_parts d :
  no_inline d = true ->
  forallb no_handler (flatten (doc_head d)) = true
  /\ onclick (props (doc_body d)) = None.
Proof.
  unfold no_inline, all_nodes, document_order. rewrite !List.forallb_app. intros Hn.
  apply andb_prop in Hn. destruct Hn as [Hn _]. apply andb_prop in Hn. destruct Hn as [Hh Hb].
  split; [exact Hh|]. destruct (doc_body d) as [bi bp ks]. cbn [flatten forallb props] in *.
  apply andb_prop in Hb. destruct Hb as [Hb _]. destruct (onclick bp); [discriminate | reflexivity].
Qed.

(** X11.  The Close button of the confirmation panel carries an inline
    click handler.  One click on it runs [closeModal] twice on the overlay:
    once through the click it sends to the new [.modal-close] button, whose
    [click()] returns [undefined], and once through the right-hand side of
    the [||].  Two removals are scheduled for the same time; at 300 the
    overlay is out of the document, the body's [overflow] style is cleared,
    no timer is left and no error has been recorded. *)
Theorem confirmation_close_button_closes_twice
    (select : string -> Document -> Completion (option nid)) (click : nid -> M unit)
    (w : World) :
  well_formed (document w) -> no_inline (document w) = true ->
  clicks_on_elements (next_id (document w)) (nid_of (doc_body (document w))) (listeners w) = true ->
  timers w = [] ->
  let o := next_id (document w) in
  let W := state showDemoModal w in
  let m := next_id (document W) in
  let W1 := state (run_listener select click (OnDemoSubmit o) (submit_event o)) W in
  let W2 := fire select (click_event (4 + m)) W1 in
  (props <$> lookup_node (4 + m) (document W1))
  = Some (with_onclick CloseNearestOverlay (tagged "button" ["modal-submit"] "Close"))
  /\ W2 = closing o (closing o (set_default_prevented false W1))
  /\ timers W2 = [((now w + 300)%Z, CbCloseFinish o); ((now w + 300)%Z, CbCloseFinish o)]
  /\ overlays (document (advance 300 W2)) = overlays (document w)
  /\ style (props (doc_body (document (advance 300 W2)))) !! "overflow" = None
  /\ uncaught (advance 300 W2) = uncaught W1
  /\ timers (advance 300 W2) = [].
Proof.
  intros Hwf Hni Hcl Ht o W m W1 W2. pose proof (well_formed_bounded _ Hwf) as Hp.
  pose proof Hp as (Hh & Hb & Hd).
  assert (EW : W = opened_world demo_modal_html w).
  { subst W. unfold state. rewrite (showDemoModal_opened w Hp). reflexivity. }
  pose proof (submit_closed_form select click (submit_event o) w Hp) as EH. cbv zeta in EH.
  rewrite <- EW in EH. fold o m in EH.
  assert (E1 : W1 = set_listeners (listeners W ++ [(OnNode (m + 5), Click, OnCloseClick o)])
                      (set_document (confirmed (document w)) (set_default_prevented true W))).
  { subst W1. unfold state. rewrite EH. reflexivity. }
  set (d := document w) in *.
  set (H := doc_head (opened demo_modal_html d)).
  set (bp := style_set "overflow" (Css "hidden") (props (doc_body d))).
  set (op := with_classList ["modal-overlay"] (blank "div")).
  set (cp := tagged "div" ["modal-content"] "").
  set (dt := detached d ++ List.map (shift (S o)) demo_panel_children).
  assert (Em : m = next_id (opened demo_modal_html d)).
  { subst m. rewrite EW, document_opened_world. reflexivity. }
  assert (PB : parts_bounded (opened demo_modal_html d))
    by (apply parts_bounded_opened; [exact Hp | exact demo_markup_bounded]).
  destruct PB as (BH & _). fold H in BH. rewrite <- Em in BH.
  assert (Bm : o + 9 <= m).
  { rewrite Em. unfold opened. cbv zeta. cbn [next_id].
    match goal with
    | |- _ <= next_id (inject ?a ?b ?x) => pose proof (inject_next_id a b x) as N
    end.
    cbn [next_id] in N. change (size demo_modal_html) with 8 in N |- *. unfold o. lia. }
  destruct (no_inline_parts _ (no_inline_opened demo_modal_html d eq_refl Hni)) as [IH _].
  fold H in IH.
  destruct (no_inline_parts d Hni) as [_ Ibp0].
  assert (Ibp : onclick bp = None) by exact Ibp0.
  assert (AH : forall x, x = o \/ x = S o \/ m <= x <= m + 5 -> absent x H).
  { intros x [-> | [-> | Hx]].
    - apply opened_head_absent; [exact Hp | fold o; lia | fold o; lia].
    - apply opened_head_absent; [exact Hp | fold o; lia | fold o; cbn; lia].
    - eapply bounded_absent; [exact BH | lia]. }
  assert (Bb : nid_of (doc_body d) < o).
  { destruct (doc_body d) as [bi bq bks]. apply bounded_El in Hb. cbn [nid_of]. tauto. }
  assert (Bk : Forall (bounded o) (kids (doc_body d))).
  { destruct (doc_body d) as [bi bq bks]. apply bounded_El in Hb. cbn [kids]. tauto. }
  assert (Bdt : Forall (absent o) dt).
  { apply List.Forall_app. split; [eapply Forall_bounded_absent; [exact Hd | lia]|].
    apply shift_absent. lia. }
  assert (HW1 : document W1
                = with_panel H (nid_of (doc_body d)) bp (kids (doc_body d)) o op (S o) cp
                    (confirmation m (m + 5)) dt (S (m + 5))
                /\ has_class "modal-overlay" op = true /\ onclick op = None
                /\ listeners W1 = listeners w ++ [(OnNode (2 + o), Click, OnCloseClick o);
                                                  (OnNode o, Click, OnBackdropClick o);
                                                  (OnNode (m + 5), Click, OnCloseClick o)]).
  { rewrite E1. world_simpl. split; [|split; [reflexivity | split; [reflexivity|]]].
    - unfold confirmed. cbv zeta. fold d o H. rewrite <- Em. reflexivity.
    - rewrite EW. unfold opened_world. world_simpl. rewrite <- List.app_assoc. reflexivity. }
  pose proof (click_on_confirmation_button select H (nid_of (doc_body d)) bp (kids (doc_body d))
                o (S o) cp dt m (m + 5) (S (m + 5)) (2 + o) (listeners w)
                IH Ibp eq_refl (conj eq_refl eq_refl) AH Bb Bk ltac:(lia) ltac:(lia) ltac:(lia)
                Hcl ltac:(lia) Bdt op W1 HW1) as C.
  fold W2 in C.
  split.
  { exact (button_props H (nid_of (doc_body d)) bp (kids (doc_body d)) o (S o) cp dt m
             (m + 5) (S (m + 5)) (2 + o) (listeners w) AH Bb Bk ltac:(lia) ltac:(lia)
             ltac:(lia) ltac:(lia) op W1 HW1). }
  split; [exact C|].
  pose proof (closing_confirmed H (nid_of (doc_body d)) bp (kids (doc_body d)) o (S o) cp dt m
                (m + 5) (S (m + 5)) (2 + o) (listeners w) AH Bb Bk ltac:(lia) ltac:(lia)
                ltac:(lia) ltac:(lia) Bdt) as CC.
  pose proof (CC _ _ (CC op (set_default_prevented false W1) HW1)) as (HD2 & _).
  rewrite <- C in HD2.
  rewrite (with_panel_overlay _ _ _ _ _ _ _ _ _ _ _ bp H) in HD2.
  assert (HT2 : timers W2 = [((now W2 + 300)%Z, CbCloseFinish o);
                             ((now W2 + 300)%Z, CbCloseFinish o)]).
  { rewrite C. unfold closing. world_simpl. rewrite E1. world_simpl. rewrite EW.
    unfold opened_world. world_simpl. rewrite Ht. reflexivity. }
  assert (HN2 : now W2 = now w).
  { rewrite C. unfold closing. world_simpl. rewrite E1, EW. reflexivity. }
  assert (HU2 : uncaught W2 = uncaught W1) by (rewrite C; reflexivity).
  assert (Ab : absent o (doc_body (mkDocument H (El (nid_of (doc_body d)) bp (kids (doc_body d))) dt 0))).
  { cbn [doc_body]. apply absent_El. split; [lia|].
    eapply Forall_bounded_absent; [exact Bk | lia]. }
  destruct (advance_two_closes W2 H bp _ _ _ (S (m + 5)) o HD2 (AH o ltac:(lia)) Ab Bdt HT2)
    as (D & U & T & _).
  split; [rewrite HT2, HN2; reflexivity|].
  split.
  { rewrite D. unfold overlays. rewrite !count_matching_parts.
    cbn [doc_head doc_body nid_of kids].
    unfold H, opened. cbv zeta. cbn [doc_head]. rewrite count_in_injected_head by reflexivity.
    cbn [doc_head]. fold d. destruct (doc_body d) as [bi bq bks]. cbn [nid_of props kids].
    rewrite !count_in_El. reflexivity. }
  split.
  { rewrite D. cbn [doc_body props]. unfold style_clear, with_style. cbn [style].
    apply lookup_delete_eq. }
  split; [rewrite U; exact HU2 | exact T].
Qed.

Lemma confirmation_close_on_sample :
  let w := Sample.loaded in
  let W := state showDemoModal w in
  let W1 := state (run_listener Sample.strict (fun _ => mret tt) (OnDemoSubmit 15)
                     (submit_event 15)) W in
  let W2 := fire Sample.strict (click_event (4 + next_id (document W))) W1 in
  (well_formed (document w) /\ no_inline (document w) = true
   /\ clicks_on_elements (next_id (document w)) (nid_of (doc_body (document w))) (listeners w) = true
   /\ timers w = [])
  /\ length (timers W2) = 2
  /\ overlays (document (advance 300 W2)) = 0
  /\ uncaught (advance 300 W2) = uncaught W1
  /\ timers (advance 300 W2) = [].
Proof.
  intros w W W1 W2.
  assert (Hwf : well_formed (document w)) by (vm_compute; reflexivity).
  split; [split; [exact Hwf | repeat split; reflexivity]|].
  pose proof (confirmation_close_button_closes_twice Sample.strict (fun _ => mret tt) w
                Hwf eq_refl eq_refl eq_refl) as P.
  cbv zeta in P. change (next_id (document w)) with 15 in P. fold W in P. fold W1 in P.
  fold W2 in P.
  destruct P as (_ & _ & T & O & _ & U & TT).
  split; [rewrite T; reflexivity | split; [rewrite O; reflexivity | split; [exact U | exact TT]]].
Defined.









End Dialogs.

(** ** debounce *)

Module DebounceFacts.
Import F64 Dom Browser Script Debounce.

Section Trailing.

Context {A St : Type}.
Variable func : A -> St -> St.
Variable wait : float64.

Lemma use_stands_for u st x :
  stands_for st x -> stands_for (use func wait u st) (trailing_use func wait u x).
Proof.
  destruct x as [[t slot] s]. intros (Hc & Hu & Hp). destruct u as [a | dt].
  - cbn [use trailing_use stands_for]. unfold executedFunction, set_later.
    assert (E : pending_laters (clearTimeout (timeout st) st) = []).
    { destruct slot as [[due a0]|].
      - destruct Hp as (id & Hp & Ht). rewrite Ht. cbn [clearTimeout pending_laters].
        rewrite Hp. cbn [List.filter later_id]. rewrite Nat.eqb_refl. reflexivity.
      - destruct (timeout st); cbn [clearTimeout pending_laters]; rewrite ?Hp; reflexivity. }
    assert (F : clock (clearTimeout (timeout st) st) = clock st
                /\ user (clearTimeout (timeout st) st) = user st
                /\ next_timer (clearTimeout (timeout st) st) = next_timer st).
    { destruct (timeout st); repeat split; reflexivity. }
    destruct F as (F1 & F2 & F3). cbn [clock user pending_laters timeout].
    rewrite E, F1, F2, F3, Hc, Hu. cbn [app].
    split; [reflexivity | split; [reflexivity|]]. eexists. split; reflexivity.
  - cbn [use trailing_use]. unfold elapse. destruct slot as [[due a0]|].
    + destruct Hp as (id & Hp & Ht). rewrite Hp. cbn [length fire_due].
      unfold next_due. rewrite Hp, Hc. cbn [List.filter later_due].
      destruct (due <=? t + Z.max 0 dt) eqn:Ed.
      * cbn [earliest later_args later_id]. unfold later.
        cbn [clock pending_laters next_timer timeout user].
        cbn [List.filter later_id]. rewrite Nat.eqb_refl. cbn [negb].
        rewrite Ht. cbn [clearTimeout pending_laters List.filter clock next_timer timeout user].
        cbn [stands_for clock user pending_laters]. rewrite Hu. repeat split; reflexivity.
      * cbn [earliest stands_for clock user pending_laters timeout].
        split; [reflexivity | split; [exact Hu|]]. exists id. split; assumption.
    + rewrite Hp. cbn [length fire_due stands_for clock user pending_laters].
      rewrite Hc. repeat split; assumption.
Qed.

Lemma uses_stand_for us : forall st x,
  stands_for st x ->
  stands_for (uses func wait us st) (List.fold_left (fun x u => trailing_use func wait u x) us x).
Proof.
  induction us as [|u us IH]; intros st x H; [exact H|].
  cbn [uses List.fold_left]. apply IH, use_stands_for, H.
Qed.

(** X9.  [debounce(func, wait)]: over any sequence of calls and waits the
    closure and its timers behave as one slot that holds the latest call's
    arguments and due time; a call replaces what the slot holds, and [func]
    runs when the delay has passed since the latest call, once, with the
    arguments of that call.  At most one timer is ever pending. *)
Theorem debounce_is_trailing_edge (us : list (@Use A)) (t : Z) (s : St) :
  let st := uses func wait us (debounce t s) in
  stands_for st (trailing func wait us t s)
  /\ (length (pending_laters st) <= 1)%nat.
Proof.
  intros st.
  assert (H : stands_for st (trailing func wait us t s)).
  { apply uses_stand_for. cbn. repeat split; reflexivity. }
  split; [exact H|].
  destruct (trailing func wait us t s) as [[t' slot] s']. destruct H as (_ & _ & Hp).
  destruct slot as [[due a]|].
  - destruct Hp as (id & Hp & _). rewrite Hp. cbn. lia.
  - rewrite Hp. cbn. lia.
Qed.

Lemma delay_nonneg : 0 <= (timer_delay wait).
Proof. unfold timer_delay. lia. Qed.

Lemma burst_keeps_user calls : forall x,
  Forall (fun c : A * Z => 0 <= snd c < (timer_delay wait)) calls ->
  snd (List.fold_left (fun x u => trailing_use func wait u x)
         (flat_map (fun c => [Call (fst c); Idle (snd c)]) calls) x) = snd x.
Proof.
  induction calls as [|[a gap] calls IH]; intros [[t slot] s] H; [reflexivity|].
  apply List.Forall_cons_iff in H. destruct H as [Hg Hr]. cbn [fst snd] in Hg.
  cbn [flat_map app List.fold_left fst snd trailing_use].
  pose proof delay_nonneg as Hd.
  assert (E : (t + (timer_delay wait) <=? t + Z.max 0 gap) = false) by (apply Z.leb_gt; lia).
  rewrite E. rewrite (IH _ Hr). reflexivity.
Qed.

(** X10.  A burst of calls of a debounced function, each less than the
    delay after the one before, and then quiet: [func] has not run during
    the burst, does not run before the delay has passed since the last
    call, and runs exactly once when it has, with the arguments of the last
    call; nothing is pending after that and more waiting runs nothing. *)
Theorem debounced_burst_fires_once_with_last_arguments
    (calls : list (A * Z)) (last : A) (t : Z) (s : St) :
  Forall (fun c : A * Z => 0 <= snd c < (timer_delay wait)) calls ->
  let burst := flat_map (fun c => [Call (fst c); Idle (snd c)]) calls ++ [Call last] in
  let st := uses func wait burst (debounce t s) in
  user st = s
  /\ (forall dt, 0 <= dt < (timer_delay wait) -> user (elapse func dt st) = s)
  /\ (forall dt, (timer_delay wait) <= dt ->
        user (elapse func dt st) = func last s
        /\ pending_laters (elapse func dt st) = []
        /\ forall dt', user (elapse func dt' (elapse func dt st)) = func last s).
Proof.
  intros Hg burst st.
  pose proof delay_nonneg as Hd.
  assert (T : exists t', trailing func wait burst t s = (t', Some (t' + (timer_delay wait), last), s)).
  { unfold trailing, burst. rewrite List.fold_left_app.
    pose proof (burst_keeps_user calls (t, None, s) Hg) as K.
    destruct (List.fold_left _ (flat_map _ calls) (t, None, s)) as [[t' slot] s'].
    cbn [snd] in K. subst s'. exists t'. reflexivity. }
  destruct T as [t' T].
  assert (R : forall more, stands_for (uses func wait more st)
                (List.fold_left (fun x u => trailing_use func wait u x) more
                   (t', Some (t' + (timer_delay wait), last), s))).
  { intros more. apply uses_stand_for. rewrite <- T.
    apply (uses_stand_for burst (debounce t s) (t, None, s)). cbn. repeat split; reflexivity. }
  split; [destruct (R []) as (_ & U & _); exact U|]. split.
  - intros dt Hdt. specialize (R [Idle dt]). cbn [uses List.fold_left use trailing_use] in R.
    assert (E : (t' + (timer_delay wait) <=? t' + Z.max 0 dt) = false) by (apply Z.leb_gt; lia).
    rewrite E in R. destruct R as (_ & U & _). exact U.
  - intros dt Hdt.
    assert (E : (t' + (timer_delay wait) <=? t' + Z.max 0 dt) = true) by (apply Z.leb_le; lia).
    pose proof (R [Idle dt]) as R1. cbn [uses List.fold_left use trailing_use] in R1.
    rewrite E in R1. destruct R1 as (_ & U & P). split; [exact U | split; [exact P|]].
    intros dt'. specialize (R [Idle dt; Idle dt']).
    cbn [uses List.fold_left use trailing_use] in R. rewrite E in R.
    destruct R as (_ & U' & _). exact U'.
Qed.

End Trailing.

Lemma debounced_burst_example :
  let log := fun (a : nat) (l : list nat) => l ++ [a] in
  let st := uses log (ofZ 250) [Call 1%nat; Idle 100; Call 2%nat; Idle 249; Call 3%nat]
              (debounce 0 []) in
  Forall (fun c : nat * Z => 0 <= snd c < timer_delay (ofZ 250)) [(1%nat, 100); (2%nat, 249)]
  /\ user st = []
  /\ user (elapse log 249 st) = []
  /\ user (elapse log 250 st) = [3%nat]
  /\ user (elapse log 1000 (elapse log 250 st)) = [3%nat].
Proof.
  intros log st.
  assert (Hg : Forall (fun c : nat * Z => 0 <= snd c < timer_delay (ofZ 250)) [(1%nat, 100); (2%nat, 249)])
    by (repeat constructor; vm_compute; congruence).
  split; [exact Hg|].
  destruct (debounced_burst_fires_once_with_last_arguments log (ofZ 250)
              [(1%nat, 100); (2%nat, 249)] 3%nat 0 [] Hg) as (U & B & F).
  split; [exact U|]. split; [apply B; vm_compute; split; [discriminate | reflexivity]|].
  destruct (F 250 ltac:(vm_compute; discriminate)) as (F1 & _ & F3).
  split; [exact F1 | apply F3].
Defined.

End DebounceFacts.
